(** * P2MSH: the threshold multi-signature template [MultiSigPubkeyHash]

    A shallow embedding of [src/template/multisig/MultiSigPubkeyHash.ts]
    (address codec, locking-script builder, signing coordinator and length
    estimator) together with the parts of the [@bsv/sdk] script and byte
    utilities the template calls. The older copy [src/MultiSigPubkeyHash.ts]
    is embedded where it departs from the current one ([legacy_*]).

    JavaScript numbers that hold integers are [Z]; byte arrays ([number[]])
    are [list Z]; a string is a [string]; a thrown exception is the [Err]
    branch of [result]; [undefined] and [NaN] are kept apart from integers in
    [jsnum] wherever the template can see them. *)

From Stdlib Require Import ZArith String Ascii List Bool Lia.
Import ListNotations.
Open Scope Z_scope.

(** ** Exceptions *)

Inductive error : Type :=
| ThresholdOutOfRange    (* 'threshold must be between 1 and the number of pubkeys' *)
| InsufficientKeys       (* 'at least ... pubkeys are required' *)
| TooManyParticipants    (* 'total must be less than or equal to 10' *)
| WrongAddressType       (* 'only P2MSH is supported, set your prefix byte to 0x98' *)
| MissingSourceTXID      (* 'The input sourceTXID or sourceTransaction is required ...' *)
| MissingSourceSatoshis  (* 'The sourceSatoshis or input sourceTransaction is required ...' *)
| MissingLockingScript   (* 'The lockingScript or input sourceTransaction is required ...' *)
| TypeError              (* a property read on undefined *)
| SdkError.              (* an exception raised inside @bsv/sdk or the wallet *)

Inductive result (A : Type) : Type :=
| Ok (a : A)
| Err (e : error).
Arguments Ok {A} a.
Arguments Err {A} e.

Definition bind {A B : Type} (r : result A) (k : A -> result B) : result B :=
  match r with
  | Ok a => k a
  | Err e => Err e
  end.

Declare Scope result_scope.
Delimit Scope result_scope with result.
Notation "x <- r ;; k" := (bind r (fun x => k))
  (at level 61, r at next level, right associativity) : result_scope.
Open Scope result_scope.

Definition ofOption {A : Type} (e : error) (o : option A) : result A :=
  match o with
  | Some a => Ok a
  | None => Err e
  end.

(** ** JavaScript values *)

(** A number that may be [undefined] (a read past the end of an array) or
    [NaN] (arithmetic on [undefined]). *)
Inductive jsnum : Type :=
| Num (z : Z)
| Undefined
| NaN.

(** [!x] *)
Definition falsy (x : jsnum) : bool :=
  match x with
  | Num z => z =? 0
  | Undefined | NaN => true
  end.

(** [x < y] and [x > y]: false as soon as one side is not a number. *)
Definition js_lt (x y : jsnum) : bool :=
  match x, y with
  | Num a, Num b => a <? b
  | _, _ => false
  end.

Definition js_gt (x y : jsnum) : bool := js_lt y x.

(** [a[i]] on an array: [None] is [undefined]. *)
Definition js_index {A : Type} (l : list A) (i : Z) : option A :=
  if i <? 0 then None else nth_error l (Z.to_nat i).

(** [a.slice(start, end)] for [0 <= start <= end]. *)
Definition slice {A : Type} (l : list A) (start stop : nat) : list A :=
  firstn (stop - start) (skipn start l).

(** [a.splice(start, 0, x)]: a negative [start] counts from the end and is
    clamped at 0, a [start] beyond the end is clamped at the length. *)
Definition splice_insert {A : Type} (l : list A) (start : Z) (x : A) : list A :=
  let len := Z.of_nat (length l) in
  let s := if start <? 0 then Z.max (len + start) 0 else Z.min start len in
  firstn (Z.to_nat s) l ++ x :: skipn (Z.to_nat s) l.

(** 32-bit integers of the bitwise operators. *)
Definition toInt32 (z : Z) : Z := (z + 2 ^ 31) mod 2 ^ 32 - 2 ^ 31.
Definition js_and (a b : Z) : Z := toInt32 (Z.land (toInt32 a) (toInt32 b)).
Definition js_or (a b : Z) : Z := toInt32 (Z.lor (toInt32 a) (toInt32 b)).
Definition js_shr (a k : Z) : Z := Z.shiftr (toInt32 a) (k mod 32).
Definition js_shl (a k : Z) : Z := toInt32 (Z.shiftl (toInt32 a) (k mod 32)).
(** [a >>> 0]: the 32 bits read as an unsigned integer. *)
Definition toUint32 (a : Z) : Z := a mod 2 ^ 32.

(** ** Opcodes ([OP] of the sdk) *)

Module OP.
Definition OP_0 : Z := 0.
Definition OP_PUSHDATA1 : Z := 76.
Definition OP_PUSHDATA2 : Z := 77.
Definition OP_PUSHDATA4 : Z := 78.
Definition OP_1NEGATE : Z := 79.
Definition OP_1 : Z := 81.
Definition OP_16 : Z := 96.
Definition OP_DUP : Z := 118.
Definition OP_SWAP : Z := 124.
Definition OP_CAT : Z := 126.
Definition OP_SPLIT : Z := 127.
Definition OP_EQUALVERIFY : Z := 136.
Definition OP_HASH160 : Z := 169.
Definition OP_CHECKMULTISIG : Z := 174.
End OP.

(** ** Scripts ([Script], [LockingScript], [UnlockingScript] of the sdk) *)

Record ScriptChunk : Type := mkChunk {
  op : Z;
  data : option (list Z)
}.

(** A script is its [chunks] array. *)
Definition Script : Type := list ScriptChunk.

Definition opChunk (o : Z) : ScriptChunk := mkChunk o None.

(** [script.writeOpCode(op)] *)
Definition writeOpCode (o : Z) (s : Script) : Script := s ++ [opChunk o].

(** The chunk [script.writeBin(bin)] pushes: the opcode is the length for 1
    to 75 bytes, [OP_0] without data for an empty array, and the
    [OP_PUSHDATA] opcodes above; 2^32 bytes or more raise. *)
Definition binChunk (bin : list Z) : result ScriptChunk :=
  let len := Z.of_nat (length bin) in
  let d := if 0 <? len then Some bin else None in
  if (0 <? len) && (len <? OP.OP_PUSHDATA1) then Ok (mkChunk len d)
  else if len =? 0 then Ok (mkChunk OP.OP_0 d)
  else if len <? 2 ^ 8 then Ok (mkChunk OP.OP_PUSHDATA1 d)
  else if len <? 2 ^ 16 then Ok (mkChunk OP.OP_PUSHDATA2 d)
  else if len <? 2 ^ 32 then Ok (mkChunk OP.OP_PUSHDATA4 d)
  else Err SdkError.

Definition writeBin (bin : list Z) (s : Script) : result Script :=
  c <- binChunk bin ;; Ok (s ++ [c]).

(** Little-endian base-256 digits of a non-negative integer, low byte
    first; [fuel] bounds the number of digits. *)
Fixpoint le_digits (fuel : nat) (z : Z) : list Z :=
  match fuel with
  | O => []
  | S f => if z <=? 0 then [] else (z mod 256) :: le_digits f (z / 256)
  end.

(** [bn.toSm('little')]: sign-magnitude, the sign in the top bit of the last
    byte, one more byte when the magnitude already uses that bit. *)
Definition toSm_little (z : Z) : list Z :=
  let mag := le_digits 64 (Z.abs z) in
  match rev mag with
  | [] => []
  | top :: rest =>
      if 128 <=? top
      then mag ++ [if z <? 0 then 128 else 0]
      else if z <? 0 then rev rest ++ [Z.lor top 128] else mag
  end.

(** [script.writeBn(bn)]: [OP_0] for 0, [OP_1NEGATE] for -1, [OP_1]..[OP_16]
    for 1..16, a push of the sign-magnitude bytes otherwise. *)
Definition writeBn (bn : Z) (s : Script) : result Script :=
  if bn =? 0 then Ok (s ++ [opChunk OP.OP_0])
  else if bn =? -1 then Ok (s ++ [opChunk OP.OP_1NEGATE])
  else if (1 <=? bn) && (bn <=? 16) then Ok (s ++ [opChunk (bn + OP.OP_1 - 1)])
  else writeBin (toSm_little bn) s.

(** [script.writeNumber(num)] is [writeBn(new BigNumber(num))]. The
    constructor takes [undefined] as its default 0 and refuses [NaN] and
    magnitudes of 2^53 and more. *)
Definition writeNumber (num : jsnum) (s : Script) : result Script :=
  match num with
  | Num z => if Z.abs z <? 2 ^ 53 then writeBn z s else Err SdkError
  | Undefined => writeBn 0 s
  | NaN => Err SdkError
  end.

(** ** [Utils.Reader] and [Utils.Writer] *)

Record Reader : Type := mkReader {
  bin : list Z;
  pos : nat
}.

Definition newReader (b : list Z) : Reader := mkReader b 0.

(** [bin[pos + k]] inside a bitwise expression, where [undefined] is 0. *)
Definition byteAt (r : Reader) (k : nat) : Z := nth (pos r + k) (bin r) 0.

(** [reader.read(len)] *)
Definition read (len : nat) (r : Reader) : list Z * Reader :=
  (slice (bin r) (pos r) (pos r + len), mkReader (bin r) (pos r + len)).

(** [reader.readUInt8()] *)
Definition readUInt8 (r : Reader) : option Z * Reader :=
  (nth_error (bin r) (pos r), mkReader (bin r) (pos r + 1)).

(** [reader.readUInt16LE()]: [bin[pos] | (bin[pos + 1] << 8)] *)
Definition readUInt16LE (r : Reader) : Z * Reader :=
  (js_or (byteAt r 0) (js_shl (byteAt r 1) 8), mkReader (bin r) (pos r + 2)).

(** [reader.readUInt32LE()]:
    [(bin[pos] | (bin[pos+1] << 8) | (bin[pos+2] << 16) | (bin[pos+3] << 24)) >>> 0].
    All four bytes go through bitwise operators, so a read past the end of
    the buffer still gives a number, the missing bytes counting as 0. *)
Definition readUInt32LE (r : Reader) : jsnum * Reader :=
  (Num (toUint32
          (js_or (js_or (js_or (byteAt r 0) (js_shl (byteAt r 1) 8))
                        (js_shl (byteAt r 2) 16))
                 (js_shl (byteAt r 3) 24))),
   mkReader (bin r) (pos r + 4)).

(** The value of [len] bytes read from [pos], low byte first, missing bytes
    counting as 0: [new BigNumber(reader.readReverse(len))]. *)
Fixpoint le_value (len : nat) (l : list Z) : Z :=
  match len with
  | O => 0
  | S n => hd 0 l + 256 * le_value n (tl l)
  end.

(** [reader.readInt64LEBn()]: eight bytes, little endian, two's complement. *)
Definition readInt64LEBn (r : Reader) : Z * Reader :=
  let v := le_value 8 (skipn (pos r) (bin r)) in
  (if 2 ^ 63 <=? v then v - 2 ^ 64 else v, mkReader (bin r) (pos r + 8)).

(** [bn.toNumber()]: raises beyond 53 bits. *)
Definition toNumber (bn : Z) : result Z :=
  if Z.abs bn <? 2 ^ 53 then Ok bn else Err SdkError.

(** [reader.readVarIntNum()] *)
Definition readVarIntNum (r : Reader) : result (jsnum * Reader) :=
  let (first, r1) := readUInt8 r in
  match first with
  | None => Ok (Undefined, r1)
  | Some f =>
      if f =? 253 then let (v, r2) := readUInt16LE r1 in Ok (Num v, r2)
      else if f =? 254 then Ok (readUInt32LE r1)
      else if f =? 255 then
        let (bn, r2) := readInt64LEBn r1 in
        if bn <=? 2 ^ 53 then n <- toNumber bn ;; Ok (Num n, r2)
        else Err SdkError
      else Ok (Num f, r1)
  end.

(** [Writer.varIntNum(n)], the bytes [writer.writeVarIntNum(n)] appends. *)
Definition varIntNum (n : Z) : list Z :=
  if n <? 0 then 255 :: map (fun k => (n + 2 ^ 64) / 2 ^ (8 * k) mod 256)
                            [0; 1; 2; 3; 4; 5; 6; 7]
  else if n <? 253 then [n]
  else if n <? 65536 then [253; js_and n 255; js_and (js_shr n 8) 255]
  else if n <? 4294967296 then
    [254; js_and n 255; js_and (js_shr n 8) 255;
     js_and (js_shr n 16) 255; js_and (js_shr n 24) 255]
  else
    let low := js_and n 4294967295 in
    let high := js_and (n / 4294967296) 4294967295 in
    [255; js_and low 255; js_and (js_shr low 8) 255;
     js_and (js_shr low 16) 255; js_and (js_shr low 24) 255;
     js_and high 255; js_and (js_shr high 8) 255;
     js_and (js_shr high 16) 255; js_and (js_shr high 24) 255].

(** [Utils.Writer]: the buffers written so far; [toArray] concatenates them. *)
Definition Writer : Type := list (list Z).
Definition newWriter : Writer := [].
Definition write (buf : list Z) (w : Writer) : Writer := w ++ [buf].
Definition writeVarIntNum (n : Z) (w : Writer) : Writer := write (varIntNum n) w.
Definition toArray (w : Writer) : list Z := concat w.

(** ** Transactions, as far as the template reads them *)

Record TransactionOutput : Type := mkOutput {
  satoshis : option Z;
  lockingScript : option Script
}.

(** An attached source transaction: the hash that names it, in hex, and
    its outputs. *)
Record SourceTransaction : Type := mkSource {
  id_hex : string;
  source_outputs : list TransactionOutput
}.

Record TransactionInput : Type := mkInput {
  sourceTransaction : option SourceTransaction;
  sourceTXID : option string;
  sourceOutputIndex : Z;
  sequence : option Z
}.

Record Transaction : Type := mkTransaction {
  version : Z;
  inputs : list TransactionInput;
  outputs : list TransactionOutput;
  lockTime : Z
}.

Record MultiSigInstructions : Type := mkInstructions {
  keyID : string;
  counterparty : string;
  pubkeys : list string
}.

Inductive SignOutputs : Type := SignAll | SignNone | SignSingle.

(** [TransactionSignature.SIGHASH_*] *)
Module SIGHASH.
Definition ALL : Z := 1.
Definition NONE : Z := 2.
Definition SINGLE : Z := 3.
Definition FORKID : Z := 64.
Definition ANYONECANPAY : Z := 128.
End SIGHASH.

(** The argument of [TransactionSignature.format]. *)
Record FormatParams : Type := mkFormat {
  f_sourceTXID : string;
  f_sourceOutputIndex : Z;
  f_sourceSatoshis : Z;
  f_transactionVersion : Z;
  f_otherInputs : list TransactionInput;
  f_inputIndex : Z;
  f_outputs : list TransactionOutput;
  f_inputSequence : Z;
  f_subscript : Script;
  f_lockTime : Z;
  f_scope : Z
}.

(** What [thresholdAndTotalFromAddress] returns. *)
Record Commitment : Type := mkCommitment {
  hash : list Z;
  threshold : jsnum;
  total : jsnum
}.

(** A string in a condition: [undefined] and the empty string are false. *)
Definition truthy (s : option string) : option string :=
  match s with
  | Some EmptyString => None
  | other => other
  end.

(** [array.map(f).indexOf(true)] *)
Fixpoint indexOfTrue {A : Type} (f : A -> bool) (l : list A) : Z :=
  match l with
  | [] => -1
  | x :: rest =>
      if f x then 0
      else let i := indexOfTrue f rest in if i <? 0 then -1 else i + 1
  end.

(** [array.filter((_, index) => index !== k)] *)
Fixpoint dropIndex {A : Type} (l : list A) (i k : Z) : list A :=
  match l with
  | [] => []
  | x :: rest =>
      if i =? k then dropIndex rest (i + 1) k else x :: dropIndex rest (i + 1) k
  end.

(** A loop body that may raise, run [n] times. *)
Fixpoint iterM {A : Type} (n : nat) (f : A -> result A) (a : A) : result A :=
  match n with
  | O => Ok a
  | S m => a' <- f a ;; iterM m f a'
  end.

(** The number of rounds of [for (let i = 0; i < total - 1; i++)]. *)
Definition loopCount (total : jsnum) : nat :=
  match total with
  | Num t => Z.to_nat (t - 1)
  | Undefined | NaN => 0%nat
  end.

(** [numberFromScriptChunk]: a chunk without data is a small-number opcode,
    a chunk with data is read as a little-endian integer. *)
Definition numberFromScriptChunk (chunk : ScriptChunk) : result Z :=
  match data chunk with
  | None => Ok (1 + op chunk - OP.OP_1)
  | Some d => let (bn, _) := readInt64LEBn (newReader d) in toNumber bn
  end.

(** Lines 213-218 of [estimateLength], the decoding of threshold and total
    from a locking script: the chunk before the last one is the total, the
    chunk after the first [OP_EQUALVERIFY] is the threshold. The pair is
    (threshold, total). *)
Definition decodeCommitment (lockingScript : Script) : result (Z * Z) :=
  totalChunk <- ofOption TypeError
    (js_index lockingScript (Z.of_nat (length lockingScript) - 2)) ;;
  numberOfPubkeys <- numberFromScriptChunk totalChunk ;;
  let thresholdPos :=
    indexOfTrue (fun chunk => op chunk =? OP.OP_EQUALVERIFY) lockingScript + 1 in
  thresholdChunk <- ofOption TypeError (js_index lockingScript thresholdPos) ;;
  numberOfSignatures <- numberFromScriptChunk thresholdChunk ;;
  Ok (numberOfSignatures, numberOfPubkeys).

(** A byte of a [number[]] buffer. *)
Definition is_byte (b : Z) : Prop := 0 <= b < 256.

(** ** The locking script as the specification lays it out

    Section 4.3 of the specification, step by step, for a 20-byte hash, a
    threshold M and a total N between 1 and 16, where the numeric literals M
    and N are the one-byte opcodes [OP_1]..[OP_16] and the literal 33 is a
    one-byte push. It is compared below with what [lock] builds. *)
Definition specLockingScript (hash : list Z) (M N : Z) : Script :=
  repeat (opChunk OP.OP_CAT) (Z.to_nat (N - 1))
  ++ [opChunk OP.OP_DUP; opChunk OP.OP_HASH160; mkChunk 20 (Some hash);
      opChunk OP.OP_EQUALVERIFY]
  ++ [opChunk (OP.OP_1 + M - 1); opChunk OP.OP_SWAP]
  ++ concat (repeat [mkChunk 1 (Some [33]); opChunk OP.OP_SPLIT] (Z.to_nat (N - 1)))
  ++ [opChunk (OP.OP_1 + N - 1); opChunk OP.OP_CHECKMULTISIG].

(** ** A reference instance of the consumed capabilities

    Executable stand-ins for the sdk's keys, hashes, address text codec and
    wallet: they have the shapes the template relies on (a 20-byte HASH160,
    a base58check codec that decodes what it encoded) and none of the
    cryptography. They serve to run the template on concrete inputs. *)

Module Ref.
Definition PublicKey : Type := list Z.
Definition toDER (k : PublicKey) : list Z := k.

Definition bytesOfString (s : string) : list Z :=
  map (fun a => Z.of_N (N_of_ascii a)) (list_ascii_of_string s).
Definition stringOfBytes (l : list Z) : string :=
  string_of_list_ascii (map (fun z => ascii_of_N (Z.to_N z)) l).

Definition pubkeyFromString (s : string) : option PublicKey :=
  match s with
  | EmptyString => None
  | _ => Some (bytesOfString s)
  end.

Definition digest (n : nat) (x : list Z) : list Z :=
  firstn n (map (fun b => b mod 256) x ++ repeat 0 n).
Definition hash160 : list Z -> list Z := digest 20.
Definition hash256 : list Z -> list Z := digest 32.

Definition toBase58Check (data prefix : list Z) : string :=
  stringOfBytes (prefix ++ data).
Definition fromBase58Check (s : string) : option (list Z * list Z) :=
  let l := bytesOfString s in Some (firstn 1 l, skipn 1 l).

Definition format (p : FormatParams) : list Z :=
  [f_inputIndex p; f_sourceSatoshis p; f_scope p].
Definition Wallet : Type := Z.
Definition createSignature (w : Wallet) (h : list Z) (counterparty keyID : string)
  : option (list Z) := Some (w :: h).
Definition toChecksigFormat (sig : list Z) (scope : Z) : option (list Z) :=
  Some (sig ++ [scope]).

(** Two 33-byte keys. *)
Definition key1 : PublicKey := 2 :: repeat 17 32.
Definition key2 : PublicKey := 3 :: repeat 34 32.

(** A key as text, and a wallet that derives for the counterparties ["A"]
    and ["B"] the two keys above and knows no other counterparty. *)
Definition pubkeyToString (k : PublicKey) : string := stringOfBytes k.
Definition getPublicKey (w : Wallet) (keyID counterparty : string) : option string :=
  match counterparty with
  | String "A" EmptyString => Some (pubkeyToString key1)
  | String "B" EmptyString => Some (pubkeyToString key2)
  | _ => None
  end.
End Ref.

(** ** The template, over the capabilities it consumes *)

Section Template.

(** Capabilities of the sdk and the wallet the template consumes. *)
Variable PublicKey : Type.
Variable toDER : PublicKey -> list Z.                  (* publicKey.toDER() *)
Variable pubkeyFromString : string -> option PublicKey. (* PublicKey.fromString *)
Variable hash160 : list Z -> list Z.                   (* Hash.hash160 *)
Variable hash256 : list Z -> list Z.                   (* Hash.hash256 *)
Variable toBase58Check : list Z -> list Z -> string.   (* Utils.toBase58Check(data, prefix) *)
Variable fromBase58Check : string -> option (list Z * list Z).
                                  (* Utils.fromBase58Check: (prefix, data), or it raises *)
Variable format : FormatParams -> list Z.              (* TransactionSignature.format *)
Variable Wallet : Type.
Variable createSignature : Wallet -> list Z -> string -> string -> option (list Z).
                (* wallet.createSignature({hashToDirectlySign, counterparty, keyID}) *)
Variable toChecksigFormat : list Z -> Z -> option (list Z).
   (* Signature.fromDER(signature), then
      new TransactionSignature(s.r, s.s, scope).toChecksigFormat() *)

(** What the template relies on: HASH160 yields 20 bytes, and the
    base58check codec returns the one-byte prefix and the payload it
    encoded, in a text that is not empty. *)
Hypothesis hash160_length : forall x, length (hash160 x) = 20%nat.
Hypothesis hash160_bytes : forall x, Forall is_byte (hash160 x).
Hypothesis fromBase58Check_toBase58Check : forall data p,
  Forall is_byte (p :: data) ->
  fromBase58Check (toBase58Check data [p]) = Some ([p], data).
Hypothesis toBase58Check_not_empty : forall data p,
  toBase58Check data [p] <> EmptyString.

(** *** The closure of [unlock]

    [unlock] returns two functions that share its arguments as closure
    variables; [sign] assigns three of them ([workingUnlockingScript],
    [sourceSatoshis], [lockingScript]). A call is a state transformer on the
    closure that also returns a value or raises; what was assigned before an
    exception stays assigned. *)

Record Closure : Type := mkClosure {
  wallet : Wallet;
  customInstructions : MultiSigInstructions;
  workingUnlockingScript : option Script;
  signOutputs : SignOutputs;
  anyoneCanPay : bool;
  sourceSatoshis : option Z;
  arg_lockingScript : option Script
}.

Definition M (A : Type) : Type := Closure -> result A * Closure.

Definition ret {A : Type} (a : A) : M A := fun c => (Ok a, c).
Definition throw {A : Type} (e : error) : M A := fun c => (Err e, c).
Definition lift {A : Type} (r : result A) : M A := fun c => (r, c).
Definition get : M Closure := fun c => (Ok c, c).
Definition bindM {A B : Type} (m : M A) (k : A -> M B) : M B :=
  fun c => match m c with
           | (Ok a, c') => k a c'
           | (Err e, c') => (Err e, c')
           end.

Definition setWorking (s : Script) : M unit :=
  fun c => (Ok tt, mkClosure (wallet c) (customInstructions c) (Some s)
                     (signOutputs c) (anyoneCanPay c) (sourceSatoshis c)
                     (arg_lockingScript c)).
Definition setSourceSatoshis (v : option Z) : M unit :=
  fun c => (Ok tt, mkClosure (wallet c) (customInstructions c)
                     (workingUnlockingScript c) (signOutputs c) (anyoneCanPay c)
                     v (arg_lockingScript c)).
Definition setLockingScript (v : option Script) : M unit :=
  fun c => (Ok tt, mkClosure (wallet c) (customInstructions c)
                     (workingUnlockingScript c) (signOutputs c) (anyoneCanPay c)
                     (sourceSatoshis c) v).

Declare Scope closure_scope.
Delimit Scope closure_scope with closure.
Notation "x <- m ;; k" := (bindM m (fun x => k))
  (at level 61, m at next level, right associativity) : closure_scope.

(** [list.forEach(f)] for an [f] that acts on the closure. *)
Fixpoint forEach {A : Type} (l : list A) (f : A -> M unit) : M unit :=
  match l with
  | [] => ret tt
  | x :: rest => bindM (f x) (fun _ => forEach rest f)
  end.

(** [array.pop()]: the last element and the rest. *)
Definition pop {A : Type} (l : list A) : option (A * list A) :=
  match rev l with
  | [] => None
  | x :: r => Some (x, rev r)
  end.

(** *** The address codec and the locking script *)

(** [concatPubkeys] *)
Definition concatPubkeys (pubkeys : list PublicKey) : list Z :=
  fold_left (fun a b => a ++ b) (map toDER pubkeys) [].

(** [MultiSigPubkeyHash.address(pubkeys, threshold)] *)
Definition address (pubkeys : list PublicKey) (threshold : Z) : result string :=
  let len := Z.of_nat (length pubkeys) in
  if (threshold <? 1) || (len <? threshold) then Err ThresholdOutOfRange
  else if (len <? 2) || (len <? threshold) then Err InsufficientKeys
  else
    let concat := concatPubkeys pubkeys in
    let hash := hash160 concat in
    let writer := newWriter in
    let writer := write hash writer in
    let writer := writeVarIntNum threshold writer in
    let writer := writeVarIntNum len writer in
    let data := toArray writer in
    Ok (toBase58Check data [152]).

(** [MultiSigPubkeyHash.thresholdAndTotalFromAddress(address)] *)
Definition thresholdAndTotalFromAddress (address : string) : result Commitment :=
  h <- ofOption SdkError (fromBase58Check address) ;;
  let (prefix, h_data) := h in
  match prefix with
  | 152 :: _ =>
      let reader := newReader h_data in
      let (hash, reader) := read 20 reader in
      tr <- readVarIntNum reader ;;
      let (threshold, reader) := tr in
      tr' <- readVarIntNum reader ;;
      let (total, _) := tr' in
      Ok (mkCommitment hash threshold total)
  | _ => Err WrongAddressType
  end.

(** Lines 84-103 of [lock]: the script for a hash, a threshold and a
    total. *)
Definition writeLockingScript (hash : list Z) (threshold total : jsnum)
  : result Script :=
  let script := Nat.iter (loopCount total) (writeOpCode OP.OP_CAT) [] in
  let script := writeOpCode OP.OP_DUP script in
  let script := writeOpCode OP.OP_HASH160 script in
  script <- writeBin hash script ;;
  let script := writeOpCode OP.OP_EQUALVERIFY script in
  script <- writeNumber threshold script ;;
  let script := writeOpCode OP.OP_SWAP script in
  script <- iterM (loopCount total)
              (fun s => s <- writeNumber (Num 33) s ;;
                        Ok (writeOpCode OP.OP_SPLIT s)) script ;;
  script <- writeNumber total script ;;
  Ok (writeOpCode OP.OP_CHECKMULTISIG script).

(** Lines 81-103 of [lock]: the checks on threshold and total, then the
    script, for the hash, threshold and total the first half of [lock] has
    settled on. *)
Definition buildLocking (c : Commitment) : result Script :=
  let '(mkCommitment hash threshold total) := c in
  if falsy threshold || js_lt threshold (Num 1) || js_gt threshold total
  then Err ThresholdOutOfRange
  else if js_gt total (Num 10) then Err TooManyParticipants
  else writeLockingScript hash threshold total.

(** [lock(address, pubkeys, threshold = 1)]. An omitted argument is [None];
    an empty string counts as no address. *)
Definition lock (address : option string) (pubkeys : option (list PublicKey))
    (threshold : option Z) : result Script :=
  let threshold := Num (match threshold with Some t => t | None => 1 end) in
  let total :=
    Num (match pubkeys with Some ks => Z.of_nat (length ks) | None => 0 end) in
  c <- match truthy address with
       | Some a => thresholdAndTotalFromAddress a
       | None =>
           match pubkeys with
           | None => Err InsufficientKeys
           | Some ks =>
               if js_lt total (Num 2) then Err InsufficientKeys
               else Ok (mkCommitment (hash160 (concatPubkeys ks)) threshold total)
           end
       end ;;
  buildLocking c.

(** [unlock(wallet, customInstructions, workingUnlockingScript,
    signOutputs = 'all', anyoneCanPay = false, sourceSatoshis, lockingScript)]:
    the closure its two functions start from. *)
Definition unlock (wallet : Wallet) (customInstructions : MultiSigInstructions)
    (workingUnlockingScript : option Script) (signOutputs : option SignOutputs)
    (anyoneCanPay : option bool) (sourceSatoshis : option Z)
    (lockingScript : option Script) : Closure :=
  mkClosure wallet customInstructions workingUnlockingScript
    (match signOutputs with Some o => o | None => SignAll end)
    (match anyoneCanPay with Some b => b | None => false end)
    sourceSatoshis lockingScript.

(** The callback of [customInstructions.pubkeys.forEach]:
    [workingUnlockingScript.writeBin(PublicKey.fromString(pubkey).toDER())] *)
Definition pushPubkey (pubkey : string) : M unit :=
  (pk <- lift (ofOption SdkError (pubkeyFromString pubkey)) ;;
   c <- get ;;
   w <- lift (ofOption TypeError (workingUnlockingScript c)) ;;
   w' <- lift (writeBin (toDER pk) w) ;;
   setWorking w')%closure.

(** The first block of [sign]: without a working script, start one with
    [OP_0] and one push per public key of the instructions. *)
Definition initWorkingUnlockingScript : M unit :=
  (c <- get ;;
   match workingUnlockingScript c with
   | Some _ => ret tt
   | None =>
       _ <- setWorking (writeOpCode OP.OP_0 []) ;;
       forEach (pubkeys (customInstructions c)) pushPubkey
   end)%closure.

(** Two closures that differ at most in the working script. *)
Definition sameArguments (c c' : Closure) : Prop :=
  wallet c' = wallet c /\ customInstructions c' = customInstructions c
  /\ signOutputs c' = signOutputs c /\ anyoneCanPay c' = anyoneCanPay c
  /\ sourceSatoshis c' = sourceSatoshis c
  /\ arg_lockingScript c' = arg_lockingScript c.

(** A public key of the instructions and the chunk pushed for it. *)
Definition pubkeyChunk (pubkey : string) (chunk : ScriptChunk) : Prop :=
  exists pk, pubkeyFromString pubkey = Some pk /\ binChunk (toDER pk) = Ok chunk.

(** [signatureScope] after the four conditional [|=]. *)
Definition signatureScopeOf (signOutputs : SignOutputs) (anyoneCanPay : bool) : Z :=
  let signatureScope := SIGHASH.FORKID in
  let signatureScope :=
    match signOutputs with
    | SignAll => Z.lor signatureScope SIGHASH.ALL
    | SignNone => Z.lor signatureScope SIGHASH.NONE
    | SignSingle => Z.lor signatureScope SIGHASH.SINGLE
    end in
  if anyoneCanPay then Z.lor signatureScope SIGHASH.ANYONECANPAY
  else signatureScope.

(** [input.sourceTransaction?.outputs[input.sourceOutputIndex]]: [Ok None]
    without a source transaction, [TypeError] when the output is missing
    (its field is read next). *)
Definition sourceOutput (input : TransactionInput)
  : result (option TransactionOutput) :=
  match sourceTransaction input with
  | None => Ok None
  | Some st =>
      out <- ofOption TypeError
        (js_index (source_outputs st) (sourceOutputIndex input)) ;;
      Ok (Some out)
  end.

(** A number in a condition: [undefined] and 0 are false. *)
Definition truthyNum (v : option Z) : option Z :=
  match v with
  | Some 0 => None
  | other => other
  end.

(** [sourceTransaction.id('hex')]: the sdk serialises the transaction and
    hashes the bytes. Serialising an output calls its
    [lockingScript.toBinary()], a TypeError on an output that has no locking
    script; otherwise the result is the hash [id_hex]. *)
Definition id (st : SourceTransaction) : result string :=
  if forallb (fun o => match lockingScript o with Some _ => true | None => false end)
       (source_outputs st)
  then Ok (id_hex st)
  else Err TypeError.

(** Lines 147-149 of [sign]: the input's [sourceTXID] when it is a
    non-empty string, else the id of the attached source transaction,
    computed then and there, else [undefined]. *)
Definition resolveSourceTXID (input : TransactionInput) : result (option string) :=
  match truthy (sourceTXID input) with
  | Some t => Ok (Some t)
  | None =>
      match sourceTransaction input with
      | Some st => t <- id st ;; Ok (Some t)
      | None => Ok None
      end
  end.

(** The two resolution steps below leave the working script and the
    instructions alone. *)
Definition sameScript (c c' : Closure) : Prop :=
  workingUnlockingScript c' = workingUnlockingScript c
  /\ customInstructions c' = customInstructions c.

(** Lines 156-161 of [sign]: [sourceSatoshis ||= ...], then the check. An
    argument that is [undefined] or 0 gives way to the satoshis of the
    source output; what results is assigned to the closure variable. *)
Definition resolveSourceSatoshis (input : TransactionInput) : M Z :=
  (c <- get ;;
   _ <- match truthyNum (sourceSatoshis c) with
        | Some _ => ret tt
        | None =>
            out <- lift (sourceOutput input) ;;
            setSourceSatoshis
              (match out with Some o => satoshis o | None => None end)
        end ;;
   c <- get ;;
   match truthyNum (sourceSatoshis c) with
   | None => throw MissingSourceSatoshis
   | Some sourceSatoshis => ret sourceSatoshis
   end)%closure.

(** Lines 162-167 of [sign]: [lockingScript ||= ...], then the check. *)
Definition resolveLockingScript (input : TransactionInput) : M Script :=
  (c <- get ;;
   _ <- match arg_lockingScript c with
        | Some _ => ret tt
        | None =>
            out <- lift (sourceOutput input) ;;
            setLockingScript
              (match out with Some o => lockingScript o | None => None end)
        end ;;
   c <- get ;;
   match arg_lockingScript c with
   | None => throw MissingLockingScript
   | Some lockingScript => ret lockingScript
   end)%closure.

(** Lines 196-200 of [sign]: the signature is written at the end of the
    working script, popped, and spliced in before the public keys. *)
Definition insertSignature (sigForScript : list Z) : M Script :=
  (c <- get ;;
   w <- lift (ofOption TypeError (workingUnlockingScript c)) ;;
   w <- lift (writeBin sigForScript w) ;;
   _ <- setWorking w ;;
   popped <- lift (ofOption TypeError (pop w)) ;;
   let (chunkforSig, chunks) := popped in
   (* add it to the array before the pubkeys, pushing the other content to the right *)
   let chunks :=
     splice_insert chunks
       (Z.of_nat (length chunks)
        - Z.of_nat (length (pubkeys (customInstructions c)))) chunkforSig in
   _ <- setWorking chunks ;;
   ret chunks)%closure.

(** [unlock(...).sign(tx, inputIndex)] *)
Definition sign (tx : Transaction) (inputIndex : Z) : M Script :=
  (_ <- initWorkingUnlockingScript ;;
   c <- get ;;
   let signatureScope := signatureScopeOf (signOutputs c) (anyoneCanPay c) in
   input <- lift (ofOption TypeError (js_index (inputs tx) inputIndex)) ;;
   let otherInputs := dropIndex (inputs tx) 0 inputIndex in
   sourceTXID <- lift (resolveSourceTXID input) ;;
   match truthy sourceTXID with
   | None => throw MissingSourceTXID
   | Some sourceTXID =>
       sourceSatoshis <- resolveSourceSatoshis input ;;
       lockingScript <- resolveLockingScript input ;;
       let preimage := format
         (mkFormat sourceTXID (sourceOutputIndex input) sourceSatoshis
            (version tx) otherInputs inputIndex (outputs tx)
            (match truthyNum (sequence input) with
             | Some q => q
             | None => 4294967295
             end)
            lockingScript (lockTime tx) signatureScope) in
       let hashToDirectlySign := hash256 preimage in
       signature <- lift (ofOption SdkError
         (createSignature (wallet c) hashToDirectlySign
            (counterparty (customInstructions c))
            (keyID (customInstructions c)))) ;;
       sigForScript <- lift (ofOption SdkError
         (toChecksigFormat signature signatureScope)) ;;
       insertSignature sigForScript
   end)%closure.

(** The chunk a call of [sign] on [tx] and [inputIndex] that goes from
    closure [c] to closure [c'] has made: the push of the signature in
    checksig format that the wallet of [c] gave over the double hash of the
    preimage, the preimage being formatted from the input's source txid and
    the satoshis and locking script the closure holds afterwards. *)
Definition signatureChunk (tx : Transaction) (inputIndex : Z) (c c' : Closure)
    (chunk : ScriptChunk) : Prop :=
  exists input txid v ls signature sigForScript,
    js_index (inputs tx) inputIndex = Some input
    /\ resolveSourceTXID input = Ok (Some txid)
    /\ sourceSatoshis c' = Some v
    /\ arg_lockingScript c' = Some ls
    /\ createSignature (wallet c)
         (hash256
            (format
               (mkFormat txid (sourceOutputIndex input) v (version tx)
                  (dropIndex (inputs tx) 0 inputIndex) inputIndex (outputs tx)
                  (match truthyNum (sequence input) with
                   | Some q => q
                   | None => 4294967295
                   end)
                  ls (lockTime tx)
                  (signatureScopeOf (signOutputs c) (anyoneCanPay c)))))
         (counterparty (customInstructions c)) (keyID (customInstructions c))
       = Some signature
    /\ toChecksigFormat signature
         (signatureScopeOf (signOutputs c) (anyoneCanPay c))
       = Some sigForScript
    /\ binChunk sigForScript = Ok chunk.

(** [unlock(...).estimateLength(tx, inputIndex)]. The locking script is the
    one of the attached source transaction; no closure variable is read or
    assigned. *)
Definition estimateLength (tx : Transaction) (inputIndex : Z) : M Z :=
  lift (
    let staticLength := 1 in
    input <- ofOption TypeError (js_index (inputs tx) inputIndex) ;;
    out <- sourceOutput input ;;
    match (match out with Some o => lockingScript o | None => None end) with
    | None => Ok 1000
    | Some lockingScript =>
        tn <- decodeCommitment lockingScript ;;
        let (numberOfSignatures, numberOfPubkeys) := tn in
        Ok (staticLength + numberOfSignatures * 74 + numberOfPubkeys * 34)
    end).


(** ** The earlier revision [src/MultiSigPubkeyHash.ts]

    The repository also holds an older copy of the template. It lacks the
    range checks of [address] and [lock], puts a new signature at position 1
    and estimates with other constants. The properties below are about the
    current template; these definitions record where the older copy
    departs from it. *)

(** [lock] of the older copy: one check on the key list, none on the
    threshold's lower bound or on the total. *)
Definition legacy_lock (address : option string)
    (pubkeys : option (list PublicKey)) (threshold : option Z) : result Script :=
  let threshold := match threshold with Some t => t | None => 1 end in
  c <- match truthy address with
       | Some a => thresholdAndTotalFromAddress a
       | None =>
           match pubkeys with
           | None => Err InsufficientKeys
           | Some ks =>
               let len := Z.of_nat (length ks) in
               if (len <? 2) || (len <? threshold) then Err InsufficientKeys
               else Ok (mkCommitment (hash160 (concatPubkeys ks)) (Num threshold)
                          (Num len))
           end
       end ;;
  let '(mkCommitment hash threshold total) := c in
  writeLockingScript hash threshold total.

(** Lines 183-187 of [sign] in the older copy:
    [workingUnlockingScript.chunks.splice(1, 0, chunkforSig)]. *)
Definition legacy_insertSignature (sigForScript : list Z) : M Script :=
  (c <- get ;;
   w <- lift (ofOption TypeError (workingUnlockingScript c)) ;;
   w <- lift (writeBin sigForScript w) ;;
   _ <- setWorking w ;;
   popped <- lift (ofOption TypeError (pop w)) ;;
   let (chunkforSig, chunks) := popped in
   (* add it to the array at position 1, pushing the other content to the right *)
   let chunks := splice_insert chunks 1 chunkforSig in
   _ <- setWorking chunks ;;
   ret chunks)%closure.

(** [estimateLength] of the older copy, on the locking script of the
    source output. *)
Definition legacy_estimateLength (lockingScript : Script) : result Z :=
  let numberOfPubkeys := 2 in
  let staticLength := 28 in
  let chunks := Z.of_nat (length lockingScript) - 8 in
  let numPubKeys := chunks / 3 in
  let thresholdPos := 5 + (numPubKeys - 1) in
  n <- ofOption TypeError (js_index lockingScript thresholdPos) ;;
  numberOfSignatures <- numberFromScriptChunk n ;;
  Ok (staticLength + numberOfPubkeys * 34 + numberOfSignatures * 73).

(** [address] of the older copy (lines 15-24): no check on the threshold
    or on the number of keys, so it always returns. *)
Definition legacy_address (pubkeys : list PublicKey) (threshold : Z) : string :=
  let concat := concatPubkeys pubkeys in
  let hash := hash160 concat in
  let writer := newWriter in
  let writer := write hash writer in
  let writer := writeVarIntNum threshold writer in
  let writer := writeVarIntNum (Z.of_nat (length pubkeys)) writer in
  let data := toArray writer in
  toBase58Check data [152].

(** ** Derived addresses

    [addressBRC29] asks the wallet for one key per counterparty, under the
    fixed protocol id and the caller's key id, and hands the keys to
    [address]. [Promise.all] over the mapped array keeps the order of the
    counterparties and rejects as soon as one of the calls does. *)
Variable pubkeyToString : PublicKey -> string.          (* publicKey.toString() *)
Variable getPublicKey : Wallet -> string -> string -> option string.
   (* wallet.getPublicKey({protocolID: [1, 'multi sig brc29'], keyID, counterparty}),
      its [publicKey] field, or it rejects *)

(** [array.map(f)] for an [f] that may raise. *)
Fixpoint mapM {A B : Type} (f : A -> result B) (l : list A) : result (list B) :=
  match l with
  | [] => Ok []
  | x :: rest => y <- f x ;; ys <- mapM f rest ;; Ok (y :: ys)
  end.

(** [MultiSigPubkeyHash.addressBRC29(wallet, counterparties, keyID, threshold)]:
    the pair of [pubkeys] and [address]. *)
Definition addressBRC29 (wallet : Wallet) (counterparties : list string)
    (keyID : string) (threshold : Z) : result (list string * string) :=
  pubkeys <- mapM (fun counterparty =>
               publicKey <- ofOption SdkError
                 (getPublicKey wallet keyID counterparty) ;;
               ofOption SdkError (pubkeyFromString publicKey)) counterparties ;;
  let strings := map pubkeyToString pubkeys in
  address <- address pubkeys threshold ;;
  Ok (strings, address).

(** ** The byte length of a script

    [script.toBinary().length] of the sdk, which the repository's tests
    compare with the estimate: one byte for the opcode, then the data,
    after a length of one, two or four bytes for the [OP_PUSHDATA]
    opcodes. *)
Definition chunkBinaryLength (c : ScriptChunk) : Z :=
  match data c with
  | None => 1
  | Some d =>
      let len := Z.of_nat (length d) in
      if op c <? OP.OP_PUSHDATA1 then 1 + len
      else if op c =? OP.OP_PUSHDATA1 then 1 + 1 + len
      else if op c =? OP.OP_PUSHDATA2 then 1 + 2 + len
      else if op c =? OP.OP_PUSHDATA4 then 1 + 4 + len
      else 1
  end.

Definition binaryLength (s : Script) : Z :=
  fold_right (fun c acc => chunkBinaryLength c + acc) 0 s.

(** * Properties *)

(** ** Script writer and number reader *)

Lemma iter_writeOpCode (o : Z) (n : nat) (s : Script) :
  Nat.iter n (writeOpCode o) s = s ++ repeat (opChunk o) n.
Proof.
  induction n as [|n IH]; simpl.
  - now rewrite app_nil_r.
  - rewrite IH. unfold writeOpCode. rewrite <- app_assoc. f_equal.
    change [opChunk o] with (repeat (opChunk o) 1).
    rewrite <- repeat_app. now rewrite Nat.add_comm.
Qed.

Lemma writeNumber_small (v : Z) (s : Script) :
  1 <= v <= 16 -> writeNumber (Num v) s = Ok (s ++ [opChunk (OP.OP_1 + v - 1)]).
Proof.
  intros Hv. unfold writeNumber, writeBn.
  replace (Z.abs v <? 2 ^ 53) with true by (symmetry; apply Z.ltb_lt; lia).
  replace (v =? 0) with false by (symmetry; apply Z.eqb_neq; lia).
  replace (v =? -1) with false by (symmetry; apply Z.eqb_neq; lia).
  replace ((1 <=? v) && (v <=? 16)) with true.
  - now replace (v + OP.OP_1 - 1) with (OP.OP_1 + v - 1) by lia.
  - symmetry. apply andb_true_iff. split; apply Z.leb_le; lia.
Qed.

Lemma writeNumber_33 (s : Script) :
  writeNumber (Num 33) s = Ok (s ++ [mkChunk 1 (Some [33])]).
Proof. reflexivity. Qed.

Lemma iter_split (n : nat) (s : Script) :
  iterM n (fun s => s <- writeNumber (Num 33) s ;; Ok (writeOpCode OP.OP_SPLIT s)) s
  = Ok (s ++ concat (repeat [mkChunk 1 (Some [33]); opChunk OP.OP_SPLIT] n)).
Proof.
  revert s. induction n as [|n IH]; intros s; simpl.
  - now rewrite app_nil_r.
  - rewrite IH. unfold writeOpCode. now rewrite <- !app_assoc.
Qed.

Lemma binChunk_short (b : list Z) :
  (0 < length b < 76)%nat ->
  binChunk b = Ok (mkChunk (Z.of_nat (length b)) (Some b)).
Proof.
  intros Hl. unfold binChunk.
  replace (0 <? Z.of_nat (length b)) with true by (symmetry; apply Z.ltb_lt; lia).
  replace (Z.of_nat (length b) <? OP.OP_PUSHDATA1) with true
    by (symmetry; apply Z.ltb_lt; unfold OP.OP_PUSHDATA1; lia).
  reflexivity.
Qed.

Lemma le_value_nil (m : nat) : le_value m [] = 0.
Proof. induction m as [|m IH]; simpl; [reflexivity | rewrite IH; reflexivity]. Qed.

Lemma le_value_zero (m : nat) : le_value m [0] = 0.
Proof. destruct m; simpl; [reflexivity | now rewrite le_value_nil]. Qed.

Lemma le_digits_length (fuel : nat) (z : Z) : (length (le_digits fuel z) <= fuel)%nat.
Proof.
  revert z. induction fuel as [|f IH]; intros z; simpl; [lia|].
  destruct (z <=? 0); simpl; [lia | specialize (IH (z / 256)); lia].
Qed.

(** Reading back [m] bytes of the digits of [v], with or without a padding
    zero byte, gives [v] as soon as [v] fits the digits and the read. *)
Lemma le_value_le_digits (n : nat) :
  forall (v : Z) (fuel m : nat) (pad : list Z),
    0 <= v < 256 ^ Z.of_nat n -> (n <= fuel)%nat -> (n <= m)%nat ->
    pad = [] \/ pad = [0] ->
    le_value m (le_digits fuel v ++ pad) = v.
Proof.
  induction n as [|n IH]; intros v fuel m pad Hv Hf Hm Hp.
  - assert (v = 0) by (simpl in Hv; lia). subst v.
    assert (le_digits fuel 0 = []) as -> by (destruct fuel; reflexivity).
    destruct Hp; subst pad; simpl; [apply le_value_nil | apply le_value_zero].
  - destruct fuel as [|f]; [lia|]. destruct m as [|m]; [lia|].
    simpl le_digits. destruct (Z.leb_spec v 0) as [Hle|Hgt].
    + assert (v = 0) by lia. subst v.
      destruct Hp; subst pad; [apply le_value_nil | apply le_value_zero].
    + cbn [app le_value hd tl].
      rewrite (IH (v / 256) f m pad); try lia; try assumption.
      * pose proof (Z.div_mod v 256). lia.
      * rewrite Nat2Z.inj_succ, Z.pow_succ_r in Hv by lia.
        split; [apply Z.div_pos; lia | apply Z.div_lt_upper_bound; lia].
Qed.

Lemma le_digits_nonempty (fuel : nat) (v : Z) :
  0 < v -> (0 < fuel)%nat -> (0 < length (le_digits fuel v))%nat.
Proof.
  intros Hv Hf. destruct fuel as [|f]; [lia|].
  cbn [le_digits]. destruct (Z.leb_spec v 0); [lia | cbn [length]; lia].
Qed.

Lemma toSm_little_pos (v : Z) :
  0 < v ->
  exists pad, (pad = [] \/ pad = [0]) /\ toSm_little v = le_digits 64 v ++ pad
              /\ le_digits 64 v <> [].
Proof.
  intros Hv. unfold toSm_little. rewrite Z.abs_eq by lia.
  assert (Hne : le_digits 64 v <> []).
  { pose proof (le_digits_nonempty 64 v Hv ltac:(lia)) as Hl.
    intros E. rewrite E in Hl. cbn [length] in Hl. lia. }
  destruct (rev (le_digits 64 v)) as [|top rest] eqn:Hr.
  - apply (f_equal (@rev Z)) in Hr. rewrite rev_involutive in Hr. contradiction.
  - replace (v <? 0) with false by (symmetry; apply Z.ltb_ge; lia).
    destruct (128 <=? top).
    + exists [0]. auto.
    + exists []. rewrite app_nil_r. auto.
Qed.

(** A number from 17 up to the 53 bits of a JavaScript integer is written
    as a push of its little-endian bytes, and read back unchanged. *)
Lemma writeNumber_pushdata (v : Z) (s : Script) :
  17 <= v < 2 ^ 53 ->
  exists c d, writeNumber (Num v) s = Ok (s ++ [c])
              /\ data c = Some d /\ op c = Z.of_nat (length d)
              /\ numberFromScriptChunk c = Ok v.
Proof.
  intros Hv. unfold writeNumber, writeBn.
  replace (Z.abs v <? 2 ^ 53) with true by (symmetry; apply Z.ltb_lt; lia).
  replace (v =? 0) with false by (symmetry; apply Z.eqb_neq; lia).
  replace (v =? -1) with false by (symmetry; apply Z.eqb_neq; lia).
  replace ((1 <=? v) && (v <=? 16)) with false
    by (symmetry; apply andb_false_iff; right; apply Z.leb_gt; lia).
  destruct (toSm_little_pos v) as (pad & Hp & Hsm & Hne); [lia|].
  unfold writeBin. rewrite binChunk_short.
  - exists (mkChunk (Z.of_nat (length (toSm_little v))) (Some (toSm_little v))),
      (toSm_little v).
    repeat split. unfold numberFromScriptChunk, readInt64LEBn, newReader.
    cbn [data pos bin skipn]. rewrite Hsm.
    rewrite (le_value_le_digits 7 v 64 8 pad);
      [ | change (256 ^ Z.of_nat 7) with (2 ^ 56); lia | lia | lia | assumption ].
    replace (2 ^ 63 <=? v) with false by (symmetry; apply Z.leb_gt; lia).
    unfold toNumber.
    now replace (Z.abs v <? 2 ^ 53) with true by (symmetry; apply Z.ltb_lt; lia).
  - rewrite Hsm, length_app. pose proof (le_digits_length 64 v).
    pose proof (le_digits_nonempty 64 v ltac:(lia) ltac:(lia)).
    destruct Hp; subst pad; cbn [length]; lia.
Qed.

(** ** The locking script *)

(** On a commitment within the bounds, [buildLocking] raises nothing and
    writes the script of the specification. *)
Lemma buildLocking_spec (hash : list Z) (M N : Z) :
  length hash = 20%nat -> 1 <= M <= N -> N <= 10 ->
  buildLocking (mkCommitment hash (Num M) (Num N)) = Ok (specLockingScript hash M N).
Proof.
  intros Hh HM HN. unfold buildLocking, writeLockingScript, falsy, js_gt, js_lt, loopCount.
  replace (M =? 0) with false by (symmetry; apply Z.eqb_neq; lia).
  replace (M <? 1) with false by (symmetry; apply Z.ltb_ge; lia).
  replace (N <? M) with false by (symmetry; apply Z.ltb_ge; lia).
  replace (10 <? N) with false by (symmetry; apply Z.ltb_ge; lia).
  cbn [orb]. rewrite iter_writeOpCode. unfold writeBin at 1.
  rewrite binChunk_short by lia. rewrite Hh. cbn [bind].
  rewrite writeNumber_small by lia. cbn [bind].
  rewrite iter_split. cbn [bind].
  rewrite writeNumber_small by lia. cbn [bind].
  unfold writeOpCode, specLockingScript. cbn [app Z.of_nat Pos.of_succ_nat Pos.succ].
  rewrite <- !app_assoc. reflexivity.
Qed.

(** ** Decoding threshold and total from a locking script *)

Lemma js_index_middle {A : Type} (l1 l2 : list A) (x : A) (i : Z) :
  i = Z.of_nat (length l1) -> js_index (l1 ++ x :: l2) i = Some x.
Proof.
  intros ->. unfold js_index.
  replace (Z.of_nat (length l1) <? 0) with false by (symmetry; apply Z.ltb_ge; lia).
  rewrite Nat2Z.id, nth_error_app2, Nat.sub_diag by lia. reflexivity.
Qed.

Lemma indexOfTrue_nonneg {A : Type} (f : A -> bool) (l : list A) :
  -1 <= indexOfTrue f l.
Proof.
  induction l as [|x l IH]; simpl; [lia|].
  destruct (f x); [lia|]. destruct (Z.ltb_spec (indexOfTrue f l) 0); lia.
Qed.

Lemma indexOfTrue_first {A : Type} (f : A -> bool) (l1 l2 : list A) (x : A) :
  Forall (fun y => f y = false) l1 -> f x = true ->
  indexOfTrue f (l1 ++ x :: l2) = Z.of_nat (length l1).
Proof.
  intros Hl Hx. induction Hl as [|y l1 Hy Hl IH]; simpl.
  - now rewrite Hx.
  - rewrite Hy, IH.
    replace (Z.of_nat (length l1) <? 0) with false by (symmetry; apply Z.ltb_ge; lia).
    lia.
Qed.

Lemma numberFromScriptChunk_op (v : Z) :
  numberFromScriptChunk (opChunk (OP.OP_1 + v - 1)) = Ok v.
Proof.
  unfold numberFromScriptChunk, opChunk. cbn [data op].
  f_equal. unfold OP.OP_1. lia.
Qed.

(** The decoder reads off the script of the specification the threshold and
    the total it was laid out with. *)
Lemma decodeCommitment_spec (hash : list Z) (M N : Z) :
  decodeCommitment (specLockingScript hash M N) = Ok (M, N).
Proof.
  unfold decodeCommitment, specLockingScript.
  set (cats := repeat (opChunk OP.OP_CAT) (Z.to_nat (N - 1))).
  set (splits := concat (repeat [mkChunk 1 (Some [33]); opChunk OP.OP_SPLIT]
                           (Z.to_nat (N - 1)))).
  set (head := cats ++ [opChunk OP.OP_DUP; opChunk OP.OP_HASH160; mkChunk 20 (Some hash)]).
  set (Mc := opChunk (OP.OP_1 + M - 1)). set (Nc := opChunk (OP.OP_1 + N - 1)).
  assert (Hshape1 :
    cats ++ [opChunk OP.OP_DUP; opChunk OP.OP_HASH160; mkChunk 20 (Some hash);
             opChunk OP.OP_EQUALVERIFY]
    ++ [Mc; opChunk OP.OP_SWAP] ++ splits ++ [Nc; opChunk OP.OP_CHECKMULTISIG]
    = head ++ opChunk OP.OP_EQUALVERIFY
        :: (Mc :: opChunk OP.OP_SWAP :: splits ++ [Nc; opChunk OP.OP_CHECKMULTISIG])).
  { unfold head. rewrite <- !app_assoc. reflexivity. }
  rewrite Hshape1.
  set (rest := Mc :: opChunk OP.OP_SWAP :: splits ++ [Nc; opChunk OP.OP_CHECKMULTISIG]).
  set (script := head ++ opChunk OP.OP_EQUALVERIFY :: rest).
  assert (Htotal : js_index script (Z.of_nat (length script) - 2) = Some Nc).
  { replace script with
      ((head ++ opChunk OP.OP_EQUALVERIFY :: Mc :: opChunk OP.OP_SWAP :: splits)
         ++ Nc :: [opChunk OP.OP_CHECKMULTISIG])
      by (unfold script, rest; rewrite <- !app_assoc; reflexivity).
    apply js_index_middle. rewrite !length_app. cbn [length]. lia. }
  assert (Hpos : indexOfTrue (fun chunk => op chunk =? OP.OP_EQUALVERIFY) script
                 = Z.of_nat (length head)).
  { unfold script. apply indexOfTrue_first; [|reflexivity].
    unfold head. apply Forall_app. split.
    - unfold cats. apply Forall_forall. intros y Hy.
      apply repeat_spec in Hy. subst y. reflexivity.
    - repeat constructor. }
  assert (Hthreshold : js_index script (Z.of_nat (length head) + 1) = Some Mc).
  { replace script with
      ((head ++ [opChunk OP.OP_EQUALVERIFY]) ++ Mc
         :: (opChunk OP.OP_SWAP :: splits ++ [Nc; opChunk OP.OP_CHECKMULTISIG]))
      by (unfold script, rest; rewrite <- !app_assoc; reflexivity).
    apply js_index_middle. rewrite length_app. cbn [length]. lia. }
  rewrite Htotal, Hpos, Hthreshold. cbn [ofOption bind].
  unfold Nc, Mc. rewrite !numberFromScriptChunk_op. reflexivity.
Qed.

(** ** Variable-length integers of the address payload *)

Lemma toInt32_id (z : Z) : - 2 ^ 31 <= z < 2 ^ 31 -> toInt32 z = z.
Proof. intros Hz. unfold toInt32. rewrite Z.mod_small; lia. Qed.

Lemma toInt32_mod256 (z : Z) : toInt32 z mod 256 = z mod 256.
Proof. clear. unfold toInt32. Z.div_mod_to_equations. lia. Qed.

Lemma land_255 (z : Z) : Z.land z 255 = z mod 256.
Proof. change 255 with (Z.ones 8). now rewrite Z.land_ones by lia. Qed.

Lemma js_and_255 (z : Z) : js_and z 255 = z mod 256.
Proof.
  unfold js_and. rewrite (toInt32_id 255) by lia.
  rewrite land_255, toInt32_mod256. apply toInt32_id.
  pose proof (Z.mod_pos_bound z 256). lia.
Qed.

Lemma js_shr_byte (n k : Z) :
  0 <= n < 2 ^ 32 -> k = 8 \/ k = 16 \/ k = 24 ->
  js_and (js_shr n k) 255 = (n / 2 ^ k) mod 256.
Proof.
  intros Hn Hk. rewrite js_and_255. unfold js_shr.
  replace (k mod 32) with k by (destruct Hk as [->|[->| ->]]; reflexivity).
  rewrite Z.shiftr_div_pow2 by lia. unfold toInt32.
  clear - Hn Hk. destruct Hk as [->|[->| ->]]; Z.div_mod_to_equations; lia.
Qed.

Lemma lor_disjoint (a b k : Z) :
  0 <= k -> 0 <= a < 2 ^ k -> Z.lor a (b * 2 ^ k) = a + b * 2 ^ k.
Proof.
  intros Hk Ha.
  assert (Hand : Z.land a (b * 2 ^ k) = 0).
  { apply Z.bits_inj'. intros i Hi. rewrite Z.land_spec, Z.bits_0.
    destruct (Z.lt_ge_cases i k) as [Hlt|Hge].
    - rewrite Z.mul_pow2_bits_low by lia. apply andb_false_r.
    - rewrite <- (Z.mod_small a (2 ^ k)) by lia.
      rewrite Z.mod_pow2_bits_high by lia. reflexivity. }
  rewrite <- Z.lxor_lor by assumption. symmetry. now apply Z.add_nocarry_lxor.
Qed.

Lemma js_shl_byte (b k : Z) :
  0 <= b < 256 -> k = 8 \/ k = 16 -> js_shl b k = b * 2 ^ k.
Proof.
  intros Hb Hk. unfold js_shl.
  replace (k mod 32) with k by (destruct Hk as [->| ->]; reflexivity).
  rewrite (toInt32_id b) by lia. rewrite Z.shiftl_mul_pow2 by lia.
  apply toInt32_id. destruct Hk as [->| ->]; lia.
Qed.

Lemma js_or_disjoint (a b k : Z) :
  0 <= k <= 16 -> 0 <= a < 2 ^ k -> 0 <= b < 256 ->
  js_or a (b * 2 ^ k) = a + b * 2 ^ k.
Proof.
  intros Hk Ha Hb.
  assert (2 ^ k <= 2 ^ 16) by (apply Z.pow_le_mono_r; lia).
  assert (0 <= b * 2 ^ k < 2 ^ 24) by nia.
  unfold js_or. rewrite (toInt32_id a), (toInt32_id (b * 2 ^ k)) by lia.
  rewrite lor_disjoint by lia. apply toInt32_id. lia.
Qed.

Lemma toInt32_mod32 (z : Z) : toInt32 z mod 2 ^ 32 = z mod 2 ^ 32.
Proof. clear. unfold toInt32. Z.div_mod_to_equations. lia. Qed.

(** The top byte of [readUInt32LE]: [(low | (b << 24)) >>> 0]. *)
Lemma toUint32_or_high (low b : Z) :
  0 <= low < 2 ^ 24 -> 0 <= b < 256 ->
  toUint32 (js_or low (js_shl b 24)) = low + b * 2 ^ 24.
Proof.
  intros Hlow Hb. unfold toUint32, js_or, js_shl.
  change (24 mod 32) with 24.
  rewrite (toInt32_id low), (toInt32_id b) by lia.
  rewrite Z.shiftl_mul_pow2 by lia. rewrite toInt32_mod32.
  rewrite <- (Z.land_ones _ 32), Z.land_lor_distr_l, !Z.land_ones by lia.
  rewrite !toInt32_mod32.
  rewrite (Z.mod_small low), (Z.mod_small (b * 2 ^ 24)) by lia.
  apply lor_disjoint; lia.
Qed.

(** The bytes of a variable-length integer are bytes. *)
Lemma varIntNum_bytes (n : Z) : 0 <= n -> Forall is_byte (varIntNum n).
Proof.
  intros Hn. unfold varIntNum, is_byte.
  replace (n <? 0) with false by (symmetry; apply Z.ltb_ge; lia).
  destruct (Z.ltb_spec n 253); [repeat constructor; lia|].
  destruct (n <? 65536); [|destruct (n <? 4294967296)];
    repeat (constructor;
            [first [lia | rewrite js_and_255; apply Z.mod_pos_bound; lia]|]);
    constructor.
Qed.

(** [readVarIntNum] reads back what [varIntNum] wrote, wherever the bytes
    sit in the buffer, and stops right after them. *)
Lemma readVarIntNum_varIntNum (pre post : list Z) (n : Z) :
  0 <= n < 2 ^ 32 ->
  readVarIntNum (mkReader (pre ++ varIntNum n ++ post) (length pre))
  = Ok (Num n, mkReader (pre ++ varIntNum n ++ post)
                 (length pre + length (varIntNum n))).
Proof.
  intros Hn. unfold readVarIntNum, readUInt8. cbn [bin pos].
  assert (Hnth : forall l j d,
             nth (length pre + 1 + j) (pre ++ l) d = nth (S j) l d).
  { intros l j d. rewrite app_nth2 by lia. f_equal. lia. }
  assert (Hfirst : nth_error (pre ++ varIntNum n ++ post) (length pre)
                   = nth_error (varIntNum n ++ post) 0).
  { rewrite nth_error_app2 by lia. now rewrite Nat.sub_diag. }
  rewrite Hfirst. unfold varIntNum.
  replace (n <? 0) with false by (symmetry; apply Z.ltb_ge; lia).
  destruct (Z.ltb_spec n 253) as [H1|H1].
  - cbn [app nth_error length].
    replace (n =? 253) with false by (symmetry; apply Z.eqb_neq; lia).
    replace (n =? 254) with false by (symmetry; apply Z.eqb_neq; lia).
    replace (n =? 255) with false by (symmetry; apply Z.eqb_neq; lia).
    reflexivity.
  - destruct (Z.ltb_spec n 65536) as [H2|H2].
    + cbn [app nth_error length Z.eqb Pos.eqb].
      unfold readUInt16LE, byteAt. cbn [bin pos].
      rewrite !Hnth. cbn [nth].
      rewrite js_and_255, js_shr_byte by lia.
      rewrite js_shl_byte by (try (apply Z.mod_pos_bound); lia).
      rewrite js_or_disjoint
        by (try (apply Z.mod_pos_bound); change (2 ^ 8) with 256; try lia;
            apply Z.mod_pos_bound; lia).
      do 2 f_equal; [f_equal; clear - Hn H1 H2; Z.div_mod_to_equations; lia
                    | f_equal; lia].
    + destruct (Z.ltb_spec n 4294967296) as [H3|H3]; [|lia].
      cbn [app nth_error length Z.eqb Pos.eqb].
      unfold readUInt32LE, byteAt. cbn [bin pos].
      rewrite !Hnth. cbn [nth].
      rewrite js_and_255, !js_shr_byte by lia.
      pose proof (Z.mod_pos_bound n 256 ltac:(lia)).
      pose proof (Z.mod_pos_bound (n / 2 ^ 8) 256 ltac:(lia)).
      pose proof (Z.mod_pos_bound (n / 2 ^ 16) 256 ltac:(lia)).
      pose proof (Z.mod_pos_bound (n / 2 ^ 24) 256 ltac:(lia)).
      rewrite (js_shl_byte _ 8), (js_shl_byte _ 16) by lia.
      rewrite (js_or_disjoint (n mod 256)) by lia.
      rewrite js_or_disjoint by lia.
      rewrite toUint32_or_high by lia.
      do 2 f_equal; [f_equal; clear - Hn H2 H3; Z.div_mod_to_equations; lia
                    | f_equal; lia].
Qed.

(** ** The address codec *)

(** Whenever [address] returns, threshold and key count passed its two
    guards, and the address decodes to the hash of the keys, the threshold
    and the key count. *)
Lemma address_decodes (keys : list PublicKey) (M : Z) (a : string) :
  Z.of_nat (length keys) < 2 ^ 32 ->
  address keys M = Ok a ->
  thresholdAndTotalFromAddress a
  = Ok (mkCommitment (hash160 (concatPubkeys keys)) (Num M)
          (Num (Z.of_nat (length keys))))
  /\ 1 <= M <= Z.of_nat (length keys) /\ 2 <= Z.of_nat (length keys)
  /\ a <> EmptyString.
Proof using hash160_length hash160_bytes fromBase58Check_toBase58Check
  toBase58Check_not_empty.
  intros Hlen Ha. unfold address in Ha. cbv zeta in Ha.
  set (N := Z.of_nat (length keys)) in Ha, Hlen |- *.
  set (h := hash160 (concatPubkeys keys)) in Ha |- *.
  destruct (Z.ltb_spec M 1) as [H1|H1]; [discriminate|].
  destruct (Z.ltb_spec N M) as [H2|H2]; [discriminate|].
  destruct (Z.ltb_spec N 2) as [H3|H3]; [discriminate|].
  cbn [orb] in Ha. injection Ha as Ea. rewrite <- Ea. clear Ea.
  repeat split; try lia; [|apply toBase58Check_not_empty].
  unfold thresholdAndTotalFromAddress.
  rewrite fromBase58Check_toBase58Check.
  2:{ constructor; [unfold is_byte; lia|].
      apply Forall_app; split; [apply hash160_bytes|].
      apply Forall_app; split; [apply varIntNum_bytes; lia|].
      apply Forall_app; split; [apply varIntNum_bytes; lia|constructor]. }
  cbn [ofOption bind]. unfold read, newReader, slice. cbn [bin pos skipn].
  replace (0 + 20 - 0)%nat with (length h) by (unfold h; rewrite hash160_length; lia).
  rewrite firstn_app, Nat.sub_diag, firstn_all, firstn_O.
  replace (0 + 20)%nat with (length h) by (unfold h; rewrite hash160_length; lia).
  rewrite (readVarIntNum_varIntNum h (varIntNum N ++ []) M) by lia.
  cbn [bind].
  replace (h ++ varIntNum M ++ varIntNum N ++ [])
    with ((h ++ varIntNum M) ++ varIntNum N ++ [])
    by (now rewrite <- app_assoc).
  rewrite <- length_app.
  rewrite (readVarIntNum_varIntNum (h ++ varIntNum M) [] N) by lia.
  cbn [bind]. now rewrite app_nil_r.
Qed.

Lemma concatPubkeys_concat (keys : list PublicKey) :
  concatPubkeys keys = concat (map toDER keys).
Proof.
  unfold concatPubkeys.
  assert (H : forall l acc, fold_left (fun a b : list Z => a ++ b) l acc
                            = acc ++ concat l).
  { induction l as [|x l IH]; intros acc; simpl.
    - now rewrite app_nil_r.
    - now rewrite IH, app_assoc. }
  apply H.
Qed.

Lemma address_succeeds (keys : list PublicKey) (M : Z) :
  2 <= Z.of_nat (length keys) -> 1 <= M <= Z.of_nat (length keys) ->
  exists a, address keys M = Ok a.
Proof.
  intros HN HM. unfold address.
  replace (M <? 1) with false by (symmetry; apply Z.ltb_ge; lia).
  replace (Z.of_nat (length keys) <? M) with false by (symmetry; apply Z.ltb_ge; lia).
  replace (Z.of_nat (length keys) <? 2) with false by (symmetry; apply Z.ltb_ge; lia).
  cbn [orb]. eexists. reflexivity.
Qed.

Lemma truthy_not_empty (a : string) : a <> EmptyString -> truthy (Some a) = Some a.
Proof. destruct a; [contradiction | reflexivity]. Qed.

(** With an address, [lock] decodes it and builds from what it decoded;
    the other two arguments are not consulted. *)
Lemma lock_with_address (a : string) (pubkeys : option (list PublicKey))
    (threshold : option Z) :
  a <> EmptyString ->
  lock (Some a) pubkeys threshold
  = (c <- thresholdAndTotalFromAddress a ;; buildLocking c).
Proof. intros Ha. unfold lock. now rewrite truthy_not_empty. Qed.

(** With a key list and no address, [lock] refuses fewer than two keys and
    otherwise builds from the hash of the keys, the threshold and the
    number of keys. *)
Lemma lock_with_keys (address : option string) (keys : list PublicKey) (M : Z) :
  truthy address = None ->
  lock address (Some keys) (Some M)
  = if Z.of_nat (length keys) <? 2 then Err InsufficientKeys
    else buildLocking (mkCommitment (hash160 (concatPubkeys keys)) (Num M)
                         (Num (Z.of_nat (length keys)))).
Proof.
  intros Ha. unfold lock. rewrite Ha. unfold js_lt.
  destruct (Z.of_nat (length keys) <? 2); reflexivity.
Qed.

(** A decoded commitment with a total holds a full 20-byte hash. *)
Lemma decoded_hash_length (a : string) (h : list Z) (t : jsnum) (N : Z) :
  thresholdAndTotalFromAddress a = Ok (mkCommitment h t (Num N)) ->
  length h = 20%nat.
Proof.
  unfold thresholdAndTotalFromAddress.
  destruct (fromBase58Check a) as [[prefix d]|]; [|discriminate].
  cbn [ofOption bind]. destruct prefix as [|p prefix]; [discriminate|].
  destruct (Z.eq_dec p 152) as [->|Hp].
  2:{ destruct p as [|p|p]; try discriminate.
      repeat (destruct p as [p|p|]; try discriminate). contradiction. }
  unfold read, newReader, slice. cbn [bin pos skipn].
  destruct (Nat.le_gt_cases (length d) 20) as [Hshort|Hlong].
  - unfold readVarIntNum at 1, readUInt8. cbn [bin pos].
    replace (nth_error d (0 + 20)) with (@None Z)
      by (symmetry; apply nth_error_None; lia).
    cbn [bind]. unfold readVarIntNum, readUInt8. cbn [bin pos].
    replace (nth_error d (0 + 20 + 1)) with (@None Z)
      by (symmetry; apply nth_error_None; lia).
    cbn [bind]. discriminate.
  - remember (firstn (0 + 20 - 0) d) as hh eqn:Ehh. intros H.
    destruct (readVarIntNum {| bin := d; pos := 0 + 20 |}) as [[t1 r1]|]; [|discriminate].
    cbn [bind] in H.
    destruct (readVarIntNum r1) as [[t2 r2]|]; [|discriminate].
    cbn [bind] in H. injection H as <- _ _.
    rewrite Ehh, length_firstn. lia.
Qed.

(** With a key list within the bounds, [lock] returns the script of the
    specification over the hash of the keys. *)
Lemma lock_keys_spec (address : option string) (keys : list PublicKey) (M : Z) :
  truthy address = None ->
  2 <= Z.of_nat (length keys) <= 10 -> 1 <= M <= Z.of_nat (length keys) ->
  lock address (Some keys) (Some M)
  = Ok (specLockingScript (hash160 (concatPubkeys keys)) M (Z.of_nat (length keys))).
Proof.
  intros Ha HN HM. rewrite lock_with_keys by assumption.
  replace (Z.of_nat (length keys) <? 2) with false by (symmetry; apply Z.ltb_ge; lia).
  apply buildLocking_spec; [apply hash160_length | lia | lia].
Qed.

(** ** The claims on the locking script, the codecs and the estimator *)

(** C1. For a commitment with total N, 2 <= N <= 10, and threshold M,
    1 <= M <= N, [lock] emits exactly: N-1 times [OP_CAT]; [OP_DUP],
    [OP_HASH160], the push of the 20-byte hash, [OP_EQUALVERIFY]; the
    literal M, [OP_SWAP]; N-1 times the literal 33 and [OP_SPLIT]; the
    literal N and [OP_CHECKMULTISIG]; M and N as the one-byte opcodes
    [OP_1]..[OP_16], 33 as push-data. Both ways into [lock] are covered: a
    key list, where the hash is the HASH160 of the concatenated keys, and an
    address, where hash, M and N are the decoded ones. *)
Theorem lock_emits_spec_sequence :
  (forall (address : option string) (keys : list PublicKey) (M : Z),
      truthy address = None ->
      2 <= Z.of_nat (length keys) <= 10 -> 1 <= M <= Z.of_nat (length keys) ->
      lock address (Some keys) (Some M)
      = Ok (specLockingScript (hash160 (concatPubkeys keys)) M
              (Z.of_nat (length keys))))
  /\ (forall (a : string) (h : list Z) (M N : Z)
             (pubkeys : option (list PublicKey)) (threshold : option Z),
         a <> EmptyString ->
         thresholdAndTotalFromAddress a = Ok (mkCommitment h (Num M) (Num N)) ->
         2 <= N <= 10 -> 1 <= M <= N ->
         length h = 20%nat
         /\ lock (Some a) pubkeys threshold = Ok (specLockingScript h M N)).
Proof.
  split.
  - intros address keys M Ha HN HM. now apply lock_keys_spec.
  - intros a h M N pubkeys threshold Ha Hdec HN HM.
    pose proof (decoded_hash_length a h (Num M) N Hdec) as Hh.
    split; [assumption|].
    rewrite lock_with_address, Hdec by assumption. cbn [bind].
    apply buildLocking_spec; [assumption | lia | lia].
Qed.

(** C5. For 1 <= M <= N <= 10 and N >= 2, the locking script [lock] builds
    decodes (threshold from the chunk after [OP_EQUALVERIFY], total from the
    chunk before the final [OP_CHECKMULTISIG]) to exactly (M, N). *)
Theorem decodeCommitment_of_lock (keys : list PublicKey) (M : Z) :
  2 <= Z.of_nat (length keys) <= 10 -> 1 <= M <= Z.of_nat (length keys) ->
  exists s, lock None (Some keys) (Some M) = Ok s
            /\ decodeCommitment s = Ok (M, Z.of_nat (length keys)).
Proof.
  intros HN HM. eexists. split.
  - now apply lock_keys_spec.
  - apply decodeCommitment_spec.
Qed.

(** C3. For an input whose source transaction carries the locking script
    built for threshold M and total N, [estimateLength] returns
    1 + M * 74 + N * 34, M and N being the numbers decoded from the script;
    the static overhead is 1. The closure is left as it was. *)
Theorem estimateLength_formula (keys : list PublicKey) (M : Z) (s : Script)
    (tx : Transaction) (inputIndex : Z) (input : TransactionInput)
    (st : SourceTransaction) (out : TransactionOutput) (c : Closure) :
  2 <= Z.of_nat (length keys) <= 10 -> 1 <= M <= Z.of_nat (length keys) ->
  lock None (Some keys) (Some M) = Ok s ->
  js_index (inputs tx) inputIndex = Some input ->
  sourceTransaction input = Some st ->
  js_index (source_outputs st) (sourceOutputIndex input) = Some out ->
  lockingScript out = Some s ->
  decodeCommitment s = Ok (M, Z.of_nat (length keys))
  /\ estimateLength tx inputIndex c
     = (Ok (1 + M * 74 + Z.of_nat (length keys) * 34), c).
Proof.
  intros HN HM Hlock Hin Hst Hout Hls.
  rewrite lock_keys_spec in Hlock by (reflexivity || assumption).
  injection Hlock as <-.
  pose proof (decodeCommitment_spec (hash160 (concatPubkeys keys)) M
                (Z.of_nat (length keys))) as Hdec.
  split; [assumption|].
  unfold estimateLength, lift, sourceOutput.
  rewrite Hin. cbn [ofOption bind]. rewrite Hst, Hout. cbn [ofOption bind].
  rewrite Hls, Hdec. reflexivity.
Qed.

(** C10. For an input without an attached source transaction,
    [estimateLength] returns the placeholder 1000 whatever was passed to
    [unlock], a locking script included: only the input's source
    transaction is consulted. *)
Theorem estimateLength_without_source (wallet : Wallet)
    (customInstructions : MultiSigInstructions)
    (workingUnlockingScript : option Script) (signOutputs : option SignOutputs)
    (anyoneCanPay : option bool) (sourceSatoshis : option Z)
    (lockingScript : option Script)
    (tx : Transaction) (inputIndex : Z) (input : TransactionInput) :
  js_index (inputs tx) inputIndex = Some input ->
  sourceTransaction input = None ->
  let c := unlock wallet customInstructions workingUnlockingScript signOutputs
             anyoneCanPay sourceSatoshis lockingScript in
  estimateLength tx inputIndex c = (Ok 1000, c).
Proof.
  intros Hin Hst c. unfold estimateLength, lift, sourceOutput.
  rewrite Hin. cbn [ofOption bind]. rewrite Hst. reflexivity.
Qed.

(** C4. For N keys, 2 <= N <= 10, and a threshold M, 1 <= M <= N,
    [address] returns an address and decoding it returns the HASH160 of the
    keys' encodings concatenated in list order, the threshold M and the
    total N. *)
Theorem decode_address (keys : list PublicKey) (M : Z) :
  2 <= Z.of_nat (length keys) <= 10 -> 1 <= M <= Z.of_nat (length keys) ->
  exists a, address keys M = Ok a
            /\ thresholdAndTotalFromAddress a
               = Ok (mkCommitment (hash160 (concat (map toDER keys))) (Num M)
                       (Num (Z.of_nat (length keys)))).
Proof using hash160_length hash160_bytes fromBase58Check_toBase58Check
  toBase58Check_not_empty.
  intros HN HM. destruct (address_succeeds keys M) as [a Ha]; [lia | lia |].
  exists a. split; [assumption|].
  rewrite <- concatPubkeys_concat.
  apply address_decodes; [lia | assumption].
Qed.

(** C6, as the code has it. [lock] with a key list checks in this order:
    fewer than two keys raise the insufficient-keys error whatever the
    threshold; with at least two keys a threshold below 1 or above the
    number of keys raises the threshold error, also for more than ten keys;
    with a threshold in range more than ten keys raise the
    too-many-participants error. *)
Theorem lock_failures (keys : list PublicKey) (M : Z) :
  (Z.of_nat (length keys) < 2 ->
   lock None (Some keys) (Some M) = Err InsufficientKeys)
  /\ (2 <= Z.of_nat (length keys) -> M < 1 \/ Z.of_nat (length keys) < M ->
      lock None (Some keys) (Some M) = Err ThresholdOutOfRange)
  /\ (1 <= M <= Z.of_nat (length keys) -> 10 < Z.of_nat (length keys) ->
      lock None (Some keys) (Some M) = Err TooManyParticipants).
Proof.
  rewrite lock_with_keys by reflexivity.
  set (N := Z.of_nat (length keys)).
  repeat split.
  - intros HN. now replace (N <? 2) with true by (symmetry; apply Z.ltb_lt; lia).
  - intros HN HM.
    replace (N <? 2) with false by (symmetry; apply Z.ltb_ge; lia).
    unfold buildLocking, falsy, js_gt, js_lt.
    destruct (Z.eqb_spec M 0); [reflexivity|].
    destruct (Z.ltb_spec M 1); [reflexivity|].
    destruct (Z.ltb_spec N M); [reflexivity | lia].
  - intros HM HN.
    replace (N <? 2) with false by (symmetry; apply Z.ltb_ge; lia).
    unfold buildLocking, falsy, js_gt, js_lt.
    replace (M =? 0) with false by (symmetry; apply Z.eqb_neq; lia).
    replace (M <? 1) with false by (symmetry; apply Z.ltb_ge; lia).
    replace (N <? M) with false by (symmetry; apply Z.ltb_ge; lia).
    now replace (10 <? N) with true by (symmetry; apply Z.ltb_lt; lia).
Qed.

(** C7, as the code has it. Whenever [address] returns an address, it
    decodes to the threshold and the number of keys that were passed, with
    1 <= threshold <= total and 2 <= total. The bound of ten keys is not
    checked by [address]; it is [lock] that refuses such an address. *)
Theorem address_invariant (keys : list PublicKey) (M : Z) (a : string) :
  Z.of_nat (length keys) < 2 ^ 32 ->
  address keys M = Ok a ->
  thresholdAndTotalFromAddress a
  = Ok (mkCommitment (hash160 (concatPubkeys keys)) (Num M)
          (Num (Z.of_nat (length keys))))
  /\ 1 <= M /\ M <= Z.of_nat (length keys) /\ 2 <= Z.of_nat (length keys)
  /\ (10 < Z.of_nat (length keys) ->
      forall pubkeys threshold,
        lock (Some a) pubkeys threshold = Err TooManyParticipants).
Proof using hash160_length hash160_bytes fromBase58Check_toBase58Check
  toBase58Check_not_empty.
  intros Hlen Ha.
  destruct (address_decodes keys M a Hlen Ha) as (Hdec & HM & HN & Hne).
  repeat split; try assumption; try lia.
  intros Hbig pubkeys threshold.
  rewrite lock_with_address, Hdec by assumption. cbn [bind].
  unfold buildLocking, falsy, js_gt, js_lt.
  replace (M =? 0) with false by (symmetry; apply Z.eqb_neq; lia).
  replace (M <? 1) with false by (symmetry; apply Z.ltb_ge; lia).
  replace (Z.of_nat (length keys) <? M) with false by (symmetry; apply Z.ltb_ge; lia).
  now replace (10 <? Z.of_nat (length keys)) with true by (symmetry; apply Z.ltb_lt; lia).
Qed.

(** C8, as the code has it. [numberFromScriptChunk] reads back every
    number the script writer wrote as one of the opcodes [OP_1]..[OP_16]
    (1 to 16) and every number from 17 up to the 53 bits of a JavaScript
    integer, which the writer pushes as data. *)
Theorem numberFromScriptChunk_reads_written (v : Z) (s : Script) :
  (1 <= v <= 16 ->
   writeNumber (Num v) s = Ok (s ++ [opChunk (OP.OP_1 + v - 1)])
   /\ numberFromScriptChunk (opChunk (OP.OP_1 + v - 1)) = Ok v)
  /\ (17 <= v < 2 ^ 53 ->
      exists c d, writeNumber (Num v) s = Ok (s ++ [c])
                  /\ data c = Some d /\ op c = Z.of_nat (length d)
                  /\ numberFromScriptChunk c = Ok v).
Proof.
  split.
  - intros Hv. split; [now apply writeNumber_small | apply numberFromScriptChunk_op].
  - apply writeNumber_pushdata.
Qed.

(** ** The signing coordinator *)

(** [firstn]/[skipn] at the insertion point of the signature. *)
Lemma splice_insert_before_suffix {A : Type} (front back : list A) (x : A) :
  splice_insert (front ++ back)
    (Z.of_nat (length (front ++ back)) - Z.of_nat (length back)) x
  = front ++ x :: back.
Proof.
  unfold splice_insert. rewrite length_app.
  set (k := Z.of_nat (length front + length back) - Z.of_nat (length back)).
  assert (Hk : k = Z.of_nat (length front)) by (unfold k; lia).
  replace (k <? 0) with false by (symmetry; apply Z.ltb_ge; lia).
  rewrite Z.min_l, Hk, Nat2Z.id by lia.
  rewrite firstn_app, Nat.sub_diag, firstn_all, firstn_O, app_nil_r.
  rewrite skipn_app, Nat.sub_diag, skipn_all. reflexivity.
Qed.

Lemma pop_snoc {A : Type} (l : list A) (x : A) : pop (l ++ [x]) = Some (x, l).
Proof. unfold pop. rewrite rev_app_distr. cbn [rev app]. now rewrite rev_involutive. Qed.

Lemma forEach_pubkeys (l : list string) :
  forall (c c1 : Closure) (w : Script),
    workingUnlockingScript c = Some w ->
    forEach l pushPubkey c = (Ok tt, c1) ->
    exists pks, workingUnlockingScript c1 = Some (w ++ pks)
                /\ Forall2 pubkeyChunk l pks /\ sameArguments c c1.
Proof.
  induction l as [|pubkey l IH]; intros c c1 w Hw H.
  - cbn [forEach] in H. unfold ret in H. injection H as <-.
    exists []. rewrite app_nil_r. repeat split; [assumption | constructor].
  - cbn [forEach] in H. unfold bindM at 1 in H.
    unfold pushPubkey, bindM, lift, get in H.
    destruct (pubkeyFromString pubkey) as [pk|] eqn:Hpk; [|discriminate].
    cbn [ofOption] in H. rewrite Hw in H. cbn [ofOption] in H.
    unfold writeBin in H.
    destruct (binChunk (toDER pk)) as [ch|] eqn:Hch; [|discriminate].
    cbn [bind] in H. unfold setWorking at 1 in H.
    apply IH with (w := w ++ [ch]) in H; [|reflexivity].
    destruct H as (pks & Hw1 & Hall & Hsame).
    exists (ch :: pks). rewrite <- app_assoc in Hw1. split; [exact Hw1|]. split.
    + constructor; [exists pk; auto | assumption].
    + exact Hsame.
Qed.

Lemma sameArguments_refl (c : Closure) : sameArguments c c.
Proof. repeat split. Qed.

Lemma init_with_prior (c : Closure) (w : Script) :
  workingUnlockingScript c = Some w -> initWorkingUnlockingScript c = (Ok tt, c).
Proof. intros Hw. unfold initWorkingUnlockingScript, bindM, get. now rewrite Hw. Qed.

Lemma init_fresh (c c1 : Closure) :
  workingUnlockingScript c = None ->
  initWorkingUnlockingScript c = (Ok tt, c1) ->
  exists pks, workingUnlockingScript c1 = Some (opChunk OP.OP_0 :: pks)
              /\ Forall2 pubkeyChunk (pubkeys (customInstructions c)) pks
              /\ sameArguments c c1.
Proof.
  intros Hw H. unfold initWorkingUnlockingScript, bindM, get in H.
  rewrite Hw in H. unfold setWorking at 1 in H.
  apply forEach_pubkeys with (w := writeOpCode OP.OP_0 []) in H; [|reflexivity].
  destruct H as (pks & Hw1 & Hall & Hsame).
  exists pks. repeat split; try assumption; apply Hsame.
Qed.

Lemma resolveSourceSatoshis_frame (input : TransactionInput) (c c' : Closure)
    (r : result Z) :
  resolveSourceSatoshis input c = (r, c') -> sameScript c c'.
Proof.
  unfold resolveSourceSatoshis, bindM, get, lift, ret, throw, setSourceSatoshis.
  destruct (truthyNum (sourceSatoshis c)) as [v|] eqn:Hv.
  - rewrite Hv. intros H. injection H as _ <-. split; reflexivity.
  - destruct (sourceOutput input) as [out|e].
    + cbn [sourceSatoshis].
      destruct (truthyNum (match out with Some o => satoshis o | None => None end));
        intros H; injection H as _ <-; split; reflexivity.
    + intros H. injection H as _ <-. split; reflexivity.
Qed.

Lemma resolveLockingScript_frame (input : TransactionInput) (c c' : Closure)
    (r : result Script) :
  resolveLockingScript input c = (r, c') -> sameScript c c'.
Proof.
  unfold resolveLockingScript, bindM, get, lift, ret, throw, setLockingScript.
  destruct (arg_lockingScript c) as [v|] eqn:Hv.
  - rewrite Hv. intros H. injection H as _ <-. split; reflexivity.
  - destruct (sourceOutput input) as [out|e].
    + cbn [arg_lockingScript].
      destruct (match out with Some o => lockingScript o | None => None end);
        intros H; injection H as _ <-; split; reflexivity.
    + intros H. injection H as _ <-. split; reflexivity.
Qed.

Lemma insertSignature_places (sigForScript : list Z) (c c' : Closure)
    (w s : Script) :
  workingUnlockingScript c = Some w ->
  insertSignature sigForScript c = (Ok s, c') ->
  exists chunk,
    binChunk sigForScript = Ok chunk
    /\ s = splice_insert w
             (Z.of_nat (length w)
              - Z.of_nat (length (pubkeys (customInstructions c)))) chunk
    /\ workingUnlockingScript c' = Some s
    /\ customInstructions c' = customInstructions c.
Proof.
  intros Hw. unfold insertSignature, bindM, get, lift, ret, setWorking.
  rewrite Hw. cbn [ofOption]. unfold writeBin.
  destruct (binChunk sigForScript) as [chunk|e]; [|discriminate].
  cbn [bind]. rewrite pop_snoc. cbn [ofOption].
  intros H. injection H as <- <-. exists chunk. repeat split.
Qed.

Lemma resolveSourceSatoshis_returns (input : TransactionInput) (c c' : Closure)
    (v : Z) :
  resolveSourceSatoshis input c = (Ok v, c') ->
  sourceSatoshis c' = Some v /\ wallet c' = wallet c
  /\ signOutputs c' = signOutputs c /\ anyoneCanPay c' = anyoneCanPay c
  /\ arg_lockingScript c' = arg_lockingScript c.
Proof.
  unfold resolveSourceSatoshis, bindM, get, lift, ret, throw, setSourceSatoshis.
  destruct (truthyNum (sourceSatoshis c)) as [x|] eqn:Hx.
  - rewrite Hx. intros H. injection H as <- <-.
    destruct (sourceSatoshis c) as [[|q|q]|]; try discriminate;
      injection Hx as <-; repeat split.
  - destruct (sourceOutput input) as [out|e]; [|discriminate].
    cbn [sourceSatoshis].
    destruct (match out with Some o => satoshis o | None => None end)
      as [[|q|q]|]; cbn [truthyNum]; intros H; try discriminate;
      injection H as <- <-; repeat split.
Qed.

Lemma resolveLockingScript_returns (input : TransactionInput) (c c' : Closure)
    (ls : Script) :
  resolveLockingScript input c = (Ok ls, c') ->
  arg_lockingScript c' = Some ls /\ wallet c' = wallet c
  /\ signOutputs c' = signOutputs c /\ anyoneCanPay c' = anyoneCanPay c
  /\ sourceSatoshis c' = sourceSatoshis c.
Proof.
  unfold resolveLockingScript, bindM, get, lift, ret, throw, setLockingScript.
  destruct (arg_lockingScript c) as [l|] eqn:Hl.
  - rewrite Hl. intros H. injection H as <- <-. repeat split. assumption.
  - destruct (sourceOutput input) as [out|e]; [|discriminate].
    cbn [arg_lockingScript].
    destruct (match out with Some o => lockingScript o | None => None end)
      as [l|]; intros H; [|discriminate].
    injection H as <- <-. repeat split.
Qed.

Lemma insertSignature_keeps (sigForScript : list Z) (c c' : Closure) (s : Script) :
  insertSignature sigForScript c = (Ok s, c') ->
  sourceSatoshis c' = sourceSatoshis c
  /\ arg_lockingScript c' = arg_lockingScript c.
Proof.
  unfold insertSignature, bindM, get, lift, ret, setWorking.
  destruct (workingUnlockingScript c) as [w|]; cbn [ofOption]; [|discriminate].
  unfold writeBin. destruct (binChunk sigForScript) as [chunk|e]; [|discriminate].
  cbn [bind]. rewrite pop_snoc. cbn [ofOption].
  intros H. injection H as _ <-. split; reflexivity.
Qed.

(** A call of [sign] that starts from a working script [w] and returns:
    the chunk it made is the push of the wallet's signature, it went into
    [w] as many places from the end as the instructions hold public keys,
    and the closure now holds the returned script. *)
Lemma sign_signs (tx : Transaction) (inputIndex : Z)
    (c c' : Closure) (w s : Script) :
  workingUnlockingScript c = Some w ->
  sign tx inputIndex c = (Ok s, c') ->
  exists chunk,
    signatureChunk tx inputIndex c c' chunk
    /\ s = splice_insert w
             (Z.of_nat (length w)
              - Z.of_nat (length (pubkeys (customInstructions c)))) chunk
    /\ workingUnlockingScript c' = Some s
    /\ customInstructions c' = customInstructions c.
Proof.
  intros Hw H. unfold sign in H. unfold bindM at 1 in H.
  rewrite (init_with_prior c w Hw) in H.
  unfold bindM at 1 in H. unfold get at 1 in H.
  unfold bindM at 1 in H. unfold lift at 1 in H.
  destruct (js_index (inputs tx) inputIndex) as [input|] eqn:Hin; [|discriminate].
  cbn [ofOption] in H. unfold bindM at 1 in H. unfold lift at 1 in H.
  destruct (resolveSourceTXID input) as [r|e] eqn:Hr; [|discriminate].
  destruct (truthy r) as [txid|] eqn:Htxid; [|discriminate].
  assert (Er : r = Some txid)
    by (destruct r as [[|a t]|]; cbn in Htxid; congruence).
  subst r.
  unfold bindM at 1 in H.
  destruct (resolveSourceSatoshis input c) as [[v|e] c2] eqn:Hsat; [|discriminate].
  pose proof (resolveSourceSatoshis_returns input c c2 v Hsat)
    as (Hv2 & Hwal2 & Hso2 & Hacp2 & Harg2).
  apply resolveSourceSatoshis_frame in Hsat. destruct Hsat as [Hw2 Hci2].
  unfold bindM at 1 in H.
  destruct (resolveLockingScript input c2) as [[ls|e] c3] eqn:Hls; [|discriminate].
  pose proof (resolveLockingScript_returns input c2 c3 ls Hls)
    as (Hls3 & Hwal3 & Hso3 & Hacp3 & Hv3).
  apply resolveLockingScript_frame in Hls. destruct Hls as [Hw3 Hci3].
  unfold bindM at 1 in H. unfold lift at 1 in H.
  destruct (createSignature _ _ _ _) as [signature|] eqn:Hsig; [|discriminate].
  cbn [ofOption] in H. unfold bindM at 1 in H. unfold lift at 1 in H.
  destruct (toChecksigFormat _ _) as [sigForScript|] eqn:Hfmt; [|discriminate].
  cbn [ofOption] in H.
  pose proof (insertSignature_keeps sigForScript c3 c' s H) as (Hv4 & Hls4).
  apply insertSignature_places with (w := w) in H; [|congruence].
  destruct H as (chunk & Hchunk & Hs & Hws & Hci).
  exists chunk. rewrite Hci3, Hci2 in Hs, Hci.
  split; [|auto].
  exists input, txid, v, ls, signature, sigForScript.
  split; [exact Hin|]. split; [exact Hr|].
  split; [congruence|]. split; [congruence|].
  split; [exact Hsig|]. split; [exact Hfmt | exact Hchunk].
Qed.

Lemma sign_places_signature (tx : Transaction) (inputIndex : Z)
    (c c' : Closure) (w s : Script) :
  workingUnlockingScript c = Some w ->
  sign tx inputIndex c = (Ok s, c') ->
  exists sigForScript chunk,
    binChunk sigForScript = Ok chunk
    /\ s = splice_insert w
             (Z.of_nat (length w)
              - Z.of_nat (length (pubkeys (customInstructions c)))) chunk
    /\ workingUnlockingScript c' = Some s
    /\ customInstructions c' = customInstructions c.
Proof.
  intros Hw H.
  destruct (sign_signs tx inputIndex c c' w s Hw H)
    as (chunk & (_ & _ & _ & _ & _ & sigForScript & _ & _ & _ & _ & _ & _ & Hchunk)
        & Hs & Hws & Hci).
  exists sigForScript, chunk. auto.
Qed.

Lemma sign_after_init (tx : Transaction) (inputIndex : Z) (c c1 : Closure)
    (w : Script) :
  initWorkingUnlockingScript c = (Ok tt, c1) ->
  workingUnlockingScript c1 = Some w ->
  sign tx inputIndex c = sign tx inputIndex c1.
Proof.
  intros Hinit Hw. unfold sign. unfold bindM at 1. rewrite Hinit.
  symmetry. unfold bindM at 1. now rewrite (init_with_prior c1 w Hw).
Qed.

Lemma init_sameArguments (c c1 : Closure) :
  initWorkingUnlockingScript c = (Ok tt, c1) -> sameArguments c c1.
Proof.
  intros H. destruct (workingUnlockingScript c) as [w|] eqn:Hw.
  - rewrite (init_with_prior c w Hw) in H. injection H as <-.
    apply sameArguments_refl.
  - destruct (init_fresh c c1 Hw H) as (pks & _ & _ & Hsame). exact Hsame.
Qed.

Lemma resolveSourceSatoshis_missing (input : TransactionInput) (c : Closure)
    (o : option TransactionOutput) :
  truthyNum (sourceSatoshis c) = None ->
  sourceOutput input = Ok o ->
  truthyNum (match o with Some out => satoshis out | None => None end) = None ->
  fst (resolveSourceSatoshis input c) = Err MissingSourceSatoshis.
Proof.
  intros Hc Ho Hout.
  unfold resolveSourceSatoshis, bindM, get, lift, ret, throw, setSourceSatoshis.
  rewrite Hc, Ho. cbn [sourceSatoshis]. rewrite Hout. reflexivity.
Qed.

Lemma signatureChunk_sameArguments (tx : Transaction) (inputIndex : Z)
    (c c1 c' : Closure) (chunk : ScriptChunk) :
  sameArguments c c1 ->
  signatureChunk tx inputIndex c1 c' chunk -> signatureChunk tx inputIndex c c' chunk.
Proof.
  intros (Hwal & Hci & Hso & Hacp & _ & _).
  unfold signatureChunk. now rewrite Hwal, Hci, Hso, Hacp.
Qed.

(** C2. A successful call of [sign] on a working script
    [OP_0, sig_1 .. sig_k, pubkey_1 .. pubkey_N], N the number of public
    keys of the instructions, returns
    [OP_0, sig_1 .. sig_k, sig, pubkey_1 .. pubkey_N], where [sig] is the
    chunk the call has just made: the push of the signature the wallet gave
    over the double hash of the preimage, in checksig format. It sits after
    the earlier signatures and right before the public keys. Without a
    working script the call starts from [OP_0] and the pushes of the
    instructions' public keys, and returns
    [OP_0, sig, pubkey_1 .. pubkey_N]. The closure keeps the returned
    script as its working script. *)
Theorem sign_inserts_before_pubkeys (tx : Transaction) (inputIndex : Z)
    (c c' : Closure) (s : Script) :
  sign tx inputIndex c = (Ok s, c') ->
  (forall sigs pks,
      workingUnlockingScript c = Some (opChunk OP.OP_0 :: sigs ++ pks) ->
      length pks = length (pubkeys (customInstructions c)) ->
      exists sig,
        signatureChunk tx inputIndex c c' sig
        /\ s = opChunk OP.OP_0 :: sigs ++ sig :: pks
        /\ workingUnlockingScript c' = Some s)
  /\ (workingUnlockingScript c = None ->
      exists pks sig,
        Forall2 pubkeyChunk (pubkeys (customInstructions c)) pks
        /\ signatureChunk tx inputIndex c c' sig
        /\ s = opChunk OP.OP_0 :: sig :: pks
        /\ workingUnlockingScript c' = Some s).
Proof.
  intros Hsign. split.
  - intros sigs pks Hw Hlen.
    destruct (sign_signs tx inputIndex c c' _ s Hw Hsign)
      as (sig & Hsig & Hs & Hw' & _).
    exists sig. repeat split; try assumption.
    rewrite Hs, <- Hlen.
    change (opChunk OP.OP_0 :: sigs ++ pks) with ((opChunk OP.OP_0 :: sigs) ++ pks).
    now rewrite splice_insert_before_suffix.
  - intros Hw.
    destruct (initWorkingUnlockingScript c) as [[[]|e] c1] eqn:Hinit.
    2:{ unfold sign in Hsign. unfold bindM at 1 in Hsign.
        rewrite Hinit in Hsign. discriminate. }
    destruct (init_fresh c c1 Hw Hinit) as (pks & Hw1 & Hall & Hsame).
    rewrite (sign_after_init tx inputIndex c c1 _ Hinit Hw1) in Hsign.
    destruct (sign_signs tx inputIndex c1 c' _ s Hw1 Hsign)
      as (sig & Hsig & Hs & Hw' & _).
    exists pks, sig. split; [assumption|].
    split; [now apply signatureChunk_sameArguments with c1|].
    split; [|assumption].
    rewrite Hs. destruct Hsame as (_ & -> & _).
    rewrite (Forall2_length Hall).
    change (opChunk OP.OP_0 :: pks) with ([opChunk OP.OP_0] ++ pks).
    now rewrite splice_insert_before_suffix.
Qed.

(** C9. When the source value resolves to 0 (or to nothing), [sign] raises
    the missing-sourceSatoshis error: the [sourceSatoshis] argument of
    [unlock] is 0 or absent, and the attached source transaction, if there
    is one, carries 0 or no satoshis on the spent output. The value 0 is
    treated as an absent value. Premises: the working script is there or
    can be started, the input exists and its source txid resolves, so that
    the call gets as far as the check. *)
Theorem sign_zero_satoshis (tx : Transaction) (inputIndex : Z) (c : Closure)
    (input : TransactionInput) (txid : string) (o : option TransactionOutput) :
  fst (initWorkingUnlockingScript c) = Ok tt ->
  js_index (inputs tx) inputIndex = Some input ->
  resolveSourceTXID input = Ok (Some txid) -> txid <> EmptyString ->
  sourceSatoshis c = Some 0 \/ sourceSatoshis c = None ->
  sourceOutput input = Ok o ->
  match o with
  | Some out => satoshis out = Some 0 \/ satoshis out = None
  | None => True
  end ->
  fst (sign tx inputIndex c) = Err MissingSourceSatoshis.
Proof.
  intros Hinit Hin Htxid Hne Hc Ho Hout.
  destruct (initWorkingUnlockingScript c) as [r c1] eqn:Einit.
  cbn [fst] in Hinit. subst r.
  pose proof (init_sameArguments c c1 Einit) as (_ & _ & _ & _ & Hsat & _).
  unfold sign. unfold bindM at 1. rewrite Einit.
  unfold bindM at 1. unfold get at 1. unfold bindM at 1. unfold lift at 1.
  rewrite Hin. cbn [ofOption]. unfold bindM at 1. unfold lift at 1.
  rewrite Htxid, (truthy_not_empty txid Hne). unfold bindM at 1.
  pose proof (resolveSourceSatoshis_missing input c1 o) as Hmiss.
  destruct (resolveSourceSatoshis input c1) as [r2 c2].
  cbn [fst] in Hmiss. rewrite Hmiss; [reflexivity | | assumption |].
  - rewrite Hsat. destruct Hc as [-> | ->]; reflexivity.
  - destruct o as [out|]; [|reflexivity].
    destruct Hout as [-> | ->]; reflexivity.
Qed.

(** ** The earlier revision *)

(** The older [sign] puts the new signature right after [OP_0], before
    the signatures that are already there. *)
Lemma legacy_insertSignature_first (sigForScript : list Z) (c c' : Closure)
    (rest s : Script) :
  workingUnlockingScript c = Some (opChunk OP.OP_0 :: rest) ->
  legacy_insertSignature sigForScript c = (Ok s, c') ->
  exists chunk, binChunk sigForScript = Ok chunk
                /\ s = opChunk OP.OP_0 :: chunk :: rest.
Proof.
  intros Hw. unfold legacy_insertSignature, bindM, get, lift, ret, setWorking.
  rewrite Hw. cbn [ofOption]. unfold writeBin.
  destruct (binChunk sigForScript) as [chunk|e]; [|discriminate].
  cbn [bind]. rewrite pop_snoc. cbn [ofOption].
  intros H. injection H as <- _. exists chunk. split; [reflexivity|].
  unfold splice_insert. cbn [length].
  replace (Z.min 1 (Z.of_nat (S (length rest)))) with 1 by lia.
  reflexivity.
Qed.

(** * Further properties of the template *)

(** ** The address codec *)

Lemma address_ok_bounds (keys : list PublicKey) (M : Z) (a : string) :
  address keys M = Ok a ->
  2 <= Z.of_nat (length keys) /\ 1 <= M <= Z.of_nat (length keys).
Proof.
  unfold address.
  destruct (Z.ltb_spec M 1); [discriminate|].
  destruct (Z.ltb_spec (Z.of_nat (length keys)) M); [discriminate|].
  destruct (Z.ltb_spec (Z.of_nat (length keys)) 2); [discriminate|]. lia.
Qed.

Lemma address_threshold_error (keys : list PublicKey) (M : Z) :
  M < 1 \/ Z.of_nat (length keys) < M -> address keys M = Err ThresholdOutOfRange.
Proof.
  intros HM. unfold address.
  destruct (Z.ltb_spec M 1); [reflexivity|].
  destruct (Z.ltb_spec (Z.of_nat (length keys)) M); [reflexivity | lia].
Qed.

(** X1. [address] returns an address exactly when there are at least two
    keys and the threshold lies between 1 and their number. A threshold out
    of that range raises the threshold error, also for an empty key list;
    one key with threshold 1 raises the insufficient-keys error. *)
Theorem address_succeeds_iff (keys : list PublicKey) (M : Z) :
  ((exists a, address keys M = Ok a)
   <-> 2 <= Z.of_nat (length keys) /\ 1 <= M <= Z.of_nat (length keys))
  /\ (M < 1 \/ Z.of_nat (length keys) < M ->
      address keys M = Err ThresholdOutOfRange)
  /\ (length keys = 1%nat -> M = 1 -> address keys M = Err InsufficientKeys).
Proof.
  unfold address. set (N := Z.of_nat (length keys)).
  assert (HN1 : length keys = 1%nat -> N = 1) by (unfold N; lia).
  clearbody N.
  destruct (Z.ltb_spec M 1) as [H1|H1]; cbn [orb].
  - split; [split; [intros [a Ha]; discriminate | lia]|].
    split; [reflexivity | lia].
  - destruct (Z.ltb_spec N M) as [H2|H2]; cbn [orb].
    + split; [split; [intros [a Ha]; discriminate | lia]|].
      split; [reflexivity | lia].
    + destruct (Z.ltb_spec N 2) as [H3|H3]; cbn [orb].
      * split; [split; [intros [a Ha]; discriminate | lia]|].
        split; [lia | reflexivity].
      * split; [split; [intros _; lia | intros _; eexists; reflexivity]|].
        split; [lia|]. intros Hk. specialize (HN1 Hk). lia.
Qed.

Lemma varIntNum_small (n : Z) : 0 <= n < 253 -> varIntNum n = [n].
Proof.
  intros Hn. unfold varIntNum.
  replace (n <? 0) with false by (symmetry; apply Z.ltb_ge; lia).
  now replace (n <? 253) with true by (symmetry; apply Z.ltb_lt; lia).
Qed.

(** X2. For up to 252 keys the address is the base58check text, under the
    prefix byte 0x98, of the 22 bytes: the 20-byte HASH160 of the keys'
    encodings concatenated in order, one byte for the threshold, one byte
    for the number of keys. *)
Theorem address_payload (keys : list PublicKey) (M : Z) :
  2 <= Z.of_nat (length keys) <= 252 -> 1 <= M <= Z.of_nat (length keys) ->
  address keys M
  = Ok (toBase58Check
          (hash160 (concat (map toDER keys)) ++ [M; Z.of_nat (length keys)]) [152])
  /\ length (hash160 (concat (map toDER keys)) ++ [M; Z.of_nat (length keys)])
     = 22%nat.
Proof.
  intros HN HM. split.
  - unfold address.
    replace (M <? 1) with false by (symmetry; apply Z.ltb_ge; lia).
    replace (Z.of_nat (length keys) <? M) with false by (symmetry; apply Z.ltb_ge; lia).
    replace (Z.of_nat (length keys) <? 2) with false by (symmetry; apply Z.ltb_ge; lia).
    cbn [orb]. unfold toArray, writeVarIntNum, write, newWriter.
    rewrite !varIntNum_small by lia. rewrite concatPubkeys_concat.
    cbn [app concat]. reflexivity.
  - rewrite length_app, hash160_length. reflexivity.
Qed.

(** X3. An address under any other prefix byte than 0x98, a pay-to-pubkey-
    hash address for one, is refused with the wrong-address-type error, by
    the decoder and by [lock]. *)
Theorem wrong_prefix_refused (payload : list Z) (p : Z)
    (pubkeys : option (list PublicKey)) (threshold : option Z) :
  Forall is_byte (p :: payload) -> p <> 152 ->
  thresholdAndTotalFromAddress (toBase58Check payload [p]) = Err WrongAddressType
  /\ lock (Some (toBase58Check payload [p])) pubkeys threshold
     = Err WrongAddressType.
Proof using fromBase58Check_toBase58Check toBase58Check_not_empty.
  intros Hb Hp.
  assert (Hdec : thresholdAndTotalFromAddress (toBase58Check payload [p])
                 = Err WrongAddressType).
  { unfold thresholdAndTotalFromAddress.
    rewrite fromBase58Check_toBase58Check by assumption. cbn [ofOption bind].
    destruct p as [|q|q]; try reflexivity.
    repeat (destruct q as [q|q|]; try reflexivity). contradiction. }
  split; [assumption|].
  rewrite lock_with_address by apply toBase58Check_not_empty.
  now rewrite Hdec.
Qed.

(** X4. An address whose payload stops before the threshold byte (20 bytes
    or fewer under the right prefix) decodes to an undefined threshold, and
    [lock] refuses it with the threshold error. *)
Theorem truncated_address_refused (payload : list Z)
    (pubkeys : option (list PublicKey)) (threshold : option Z) :
  Forall is_byte payload -> (length payload <= 20)%nat ->
  thresholdAndTotalFromAddress (toBase58Check payload [152])
  = Ok (mkCommitment payload Undefined Undefined)
  /\ lock (Some (toBase58Check payload [152])) pubkeys threshold
     = Err ThresholdOutOfRange.
Proof using fromBase58Check_toBase58Check toBase58Check_not_empty.
  intros Hb Hl.
  assert (Hdec : thresholdAndTotalFromAddress (toBase58Check payload [152])
                 = Ok (mkCommitment payload Undefined Undefined)).
  { unfold thresholdAndTotalFromAddress.
    rewrite fromBase58Check_toBase58Check
      by (constructor; [unfold is_byte; lia | assumption]).
    cbn [ofOption bind]. unfold read, newReader, slice. cbn [bin pos skipn].
    replace (0 + 20 - 0)%nat with 20%nat by lia.
    rewrite firstn_all2 by lia.
    unfold readVarIntNum, readUInt8. cbn [bin pos].
    replace (nth_error payload (0 + 20)) with (@None Z)
      by (symmetry; apply nth_error_None; lia).
    cbn [bind bin pos].
    replace (nth_error payload (0 + 20 + 1)) with (@None Z)
      by (symmetry; apply nth_error_None; lia).
    reflexivity. }
  split; [assumption|].
  rewrite lock_with_address by apply toBase58Check_not_empty.
  now rewrite Hdec.
Qed.

(** X5. An address whose payload holds the hash and a threshold but no
    total is not refused: the total is undefined, every comparison with it
    is false, both loops run zero times, and [lock] returns a script without
    [OP_CAT] and [OP_SPLIT] whose key count is the literal written for an
    undefined number, [OP_0]. *)
Theorem address_without_total (h : list Z) (t : Z)
    (pubkeys : option (list PublicKey)) (threshold : option Z) :
  length h = 20%nat -> Forall is_byte h -> 1 <= t <= 16 ->
  lock (Some (toBase58Check (h ++ [t]) [152])) pubkeys threshold
  = Ok [opChunk OP.OP_DUP; opChunk OP.OP_HASH160; mkChunk 20 (Some h);
        opChunk OP.OP_EQUALVERIFY; opChunk (OP.OP_1 + t - 1); opChunk OP.OP_SWAP;
        opChunk OP.OP_0; opChunk OP.OP_CHECKMULTISIG].
Proof using fromBase58Check_toBase58Check toBase58Check_not_empty.
  intros Hh Hb Ht.
  rewrite lock_with_address by apply toBase58Check_not_empty.
  unfold thresholdAndTotalFromAddress.
  rewrite fromBase58Check_toBase58Check.
  2:{ constructor; [unfold is_byte; lia|]. apply Forall_app. split; [assumption|].
      repeat constructor; lia. }
  cbn [ofOption bind]. unfold read, newReader, slice. cbn [bin pos skipn].
  replace (0 + 20 - 0)%nat with (length h) by lia.
  rewrite firstn_app, Nat.sub_diag, firstn_all, firstn_O, app_nil_r.
  unfold readVarIntNum, readUInt8. cbn [bin pos].
  replace (nth_error (h ++ [t]) (0 + 20)) with (Some t)
    by (rewrite nth_error_app2 by lia; now replace (0 + 20 - length h)%nat with 0%nat by lia).
  replace (t =? 253) with false by (symmetry; apply Z.eqb_neq; lia).
  replace (t =? 254) with false by (symmetry; apply Z.eqb_neq; lia).
  replace (t =? 255) with false by (symmetry; apply Z.eqb_neq; lia).
  cbn [bind bin pos].
  replace (nth_error (h ++ [t]) (0 + 20 + 1)) with (@None Z)
    by (symmetry; apply nth_error_None; rewrite length_app; cbn [length]; lia).
  cbn [bind]. unfold buildLocking, writeLockingScript, falsy, js_gt, js_lt, loopCount.
  replace (t =? 0) with false by (symmetry; apply Z.eqb_neq; lia).
  replace (t <? 1) with false by (symmetry; apply Z.ltb_ge; lia).
  cbn [orb Nat.iter iterM]. unfold writeBin.
  rewrite binChunk_short by lia. rewrite Hh. cbn [bind].
  rewrite writeNumber_small by lia. reflexivity.
Qed.

(** X6. Locking to the address of a key list is locking to the key list:
    for every key list and threshold [address] accepts, [lock] on the
    address returns what [lock] on the keys and the threshold returns, the
    script when there are at most ten keys and the too-many-participants
    error otherwise; the key list and threshold passed along with the
    address are not read. *)
Theorem lock_address_is_lock_keys (keys : list PublicKey) (M : Z) (a : string)
    (pubkeys : option (list PublicKey)) (threshold : option Z) :
  Z.of_nat (length keys) < 2 ^ 32 ->
  address keys M = Ok a ->
  lock (Some a) pubkeys threshold = lock None (Some keys) (Some M).
Proof using hash160_length hash160_bytes fromBase58Check_toBase58Check
  toBase58Check_not_empty.
  intros Hlen Ha.
  destruct (address_decodes keys M a Hlen Ha) as (Hdec & HM & HN & Hne).
  rewrite lock_with_address, Hdec by assumption. cbn [bind].
  rewrite lock_with_keys by reflexivity.
  now replace (Z.of_nat (length keys) <? 2) with false
    by (symmetry; apply Z.ltb_ge; lia).
Qed.

Lemma buildLocking_ok_bounds (h : list Z) (M N : Z) (s : Script) :
  buildLocking (mkCommitment h (Num M) (Num N)) = Ok s -> 1 <= M <= N /\ N <= 10.
Proof.
  unfold buildLocking, falsy, js_gt, js_lt.
  destruct (Z.eqb_spec M 0); [discriminate|].
  destruct (Z.ltb_spec M 1); [discriminate|].
  destruct (Z.ltb_spec N M); [discriminate|].
  destruct (Z.ltb_spec 10 N); [discriminate|]. lia.
Qed.

Lemma lock_keys_ok_bounds (keys : list PublicKey) (M : Z) (s : Script) :
  lock None (Some keys) (Some M) = Ok s ->
  2 <= Z.of_nat (length keys) <= 10 /\ 1 <= M <= Z.of_nat (length keys).
Proof.
  intros Hs. rewrite lock_with_keys in Hs by reflexivity.
  destruct (Z.ltb_spec (Z.of_nat (length keys)) 2); [discriminate|].
  apply buildLocking_ok_bounds in Hs. lia.
Qed.

(** X7. [lock] on a key list returns a script exactly when there are two to
    ten keys and the threshold lies between 1 and their number. *)
Theorem lock_keys_succeeds_iff (keys : list PublicKey) (M : Z) :
  (exists s, lock None (Some keys) (Some M) = Ok s)
  <-> 2 <= Z.of_nat (length keys) <= 10 /\ 1 <= M <= Z.of_nat (length keys).
Proof using hash160_length.
  split.
  - intros [s Hs]. now apply lock_keys_ok_bounds with s.
  - intros [HN HM]. eexists. now apply lock_keys_spec.
Qed.

(** X8. The locking script determines the commitment: two key lists and
    thresholds that [lock] turns into the same script have the same number
    of keys, the same threshold and the same hash. *)
Theorem lock_determines_commitment (keys keys' : list PublicKey) (M M' : Z)
    (s : Script) :
  lock None (Some keys) (Some M) = Ok s ->
  lock None (Some keys') (Some M') = Ok s ->
  M = M' /\ length keys = length keys'
  /\ hash160 (concatPubkeys keys) = hash160 (concatPubkeys keys').
Proof using hash160_length.
  intros H1 H2.
  assert (B1 : 2 <= Z.of_nat (length keys) <= 10 /\ 1 <= M <= Z.of_nat (length keys))
    by (now apply lock_keys_ok_bounds with s).
  assert (B2 : 2 <= Z.of_nat (length keys') <= 10 /\ 1 <= M' <= Z.of_nat (length keys'))
    by (now apply lock_keys_ok_bounds with s).
  rewrite lock_keys_spec in H1, H2 by (reflexivity || tauto).
  injection H1 as <-.
  injection H2 as H2.
  pose proof (decodeCommitment_spec (hash160 (concatPubkeys keys)) M
                (Z.of_nat (length keys))) as D1.
  rewrite <- H2, decodeCommitment_spec in D1. injection D1 as EM EN.
  assert (Elen : length keys = length keys') by lia.
  split; [lia|]. split; [assumption|].
  unfold specLockingScript in H2. rewrite Elen, EM in H2.
  apply app_inv_head in H2. injection H2 as H2. congruence.
Qed.

(** ** The estimator on other inputs *)



Lemma indexOfTrue_none {A : Type} (f : A -> bool) (l : list A) :
  Forall (fun y => f y = false) l -> indexOfTrue f l = -1.
Proof.
  intros Hl. induction Hl as [|y l Hy Hl IH]; [reflexivity|].
  cbn [indexOfTrue]. rewrite Hy, IH. reflexivity.
Qed.

(** X10. The decoder does not check that the script is a P2MSH script. In a
    script of two chunks or more without any [OP_EQUALVERIFY] the search
    gives -1, and the threshold is read from the first chunk. *)
Theorem decodeCommitment_without_equalverify (c0 d : ScriptChunk) (rest : Script) :
  Forall (fun chunk => op chunk <> OP.OP_EQUALVERIFY) (c0 :: rest) ->
  js_index (c0 :: rest) (Z.of_nat (length (c0 :: rest)) - 2) = Some d ->
  decodeCommitment (c0 :: rest)
  = (numberOfPubkeys <- numberFromScriptChunk d ;;
     numberOfSignatures <- numberFromScriptChunk c0 ;;
     Ok (numberOfSignatures, numberOfPubkeys)).
Proof.
  intros Hno Hd. unfold decodeCommitment. rewrite Hd. cbn [ofOption bind].
  rewrite indexOfTrue_none.
  - reflexivity.
  - eapply Forall_impl; [|exact Hno]. intros ch Hch. now apply Z.eqb_neq.
Qed.

(** X11. On an input that spends a pay-to-pubkey-hash output
    ([OP_DUP OP_HASH160 <hash> OP_EQUALVERIFY OP_CHECKSIG]) the estimator
    neither raises nor falls back: it reads [OP_CHECKSIG] as a threshold of
    92 and [OP_EQUALVERIFY] as a total of 56, and returns
    1 + 92 * 74 + 56 * 34. *)
Theorem estimateLength_on_p2pkh (h : list Z) (tx : Transaction) (inputIndex : Z)
    (input : TransactionInput) (st : SourceTransaction) (out : TransactionOutput)
    (c : Closure) :
  js_index (inputs tx) inputIndex = Some input ->
  sourceTransaction input = Some st ->
  js_index (source_outputs st) (sourceOutputIndex input) = Some out ->
  lockingScript out
  = Some [opChunk OP.OP_DUP; opChunk OP.OP_HASH160; mkChunk 20 (Some h);
          opChunk OP.OP_EQUALVERIFY; opChunk 172] ->
  estimateLength tx inputIndex c = (Ok 8713, c).
Proof.
  intros Hin Hst Hout Hls. unfold estimateLength, lift, sourceOutput.
  rewrite Hin. cbn [ofOption bind]. rewrite Hst, Hout. cbn [ofOption bind].
  rewrite Hls. reflexivity.
Qed.

Lemma chunkBinaryLength_push (b : list Z) (c : ScriptChunk) :
  binChunk b = Ok c -> (length b <= 75)%nat ->
  chunkBinaryLength c = 1 + Z.of_nat (length b).
Proof.
  intros Hc Hl. destruct (Nat.eq_dec (length b) 0) as [H0|H0].
  - apply length_zero_iff_nil in H0. subst b. cbn in Hc.
    injection Hc as <-. reflexivity.
  - rewrite binChunk_short in Hc by lia. remember (length b) as n eqn:En.
    injection Hc as <-. unfold chunkBinaryLength. cbn [data op]. rewrite <- En.
    assert (Hlt : (Z.of_nat n <? OP.OP_PUSHDATA1) = true)
      by (apply Z.ltb_lt; unfold OP.OP_PUSHDATA1; lia).
    now rewrite Hlt.
Qed.

Lemma binaryLength_app (s1 s2 : Script) :
  binaryLength (s1 ++ s2) = binaryLength s1 + binaryLength s2.
Proof.
  unfold binaryLength. induction s1 as [|c s1 IH]; cbn [app fold_right]; lia.
Qed.

(** A chunk that pushes at most [n] bytes. *)
Lemma binaryLength_pushes (n : Z) (s : Script) :
  Forall (fun c => exists b, binChunk b = Ok c /\ Z.of_nat (length b) <= n) s ->
  n <= 75 ->
  binaryLength s <= (1 + n) * Z.of_nat (length s).
Proof.
  intros Hs Hn. induction Hs as [|c s (b & Hb & Hl) Hs IH].
  - cbn. lia.
  - change (binaryLength (c :: s)) with (chunkBinaryLength c + binaryLength s).
    rewrite (chunkBinaryLength_push b c Hb) by lia.
    cbn [length]. lia.
Qed.

(** X12. The estimate is an upper bound. For an input that spends the
    output [lock] built for threshold M over N keys, every unlocking script
    [OP_0, sig_1 .. sig_k, pubkey_1 .. pubkey_N] with k <= M signatures of
    at most 73 bytes and N keys of 33 bytes serializes to no more bytes
    than [estimateLength] returns. *)
Theorem estimate_bounds_unlocking_script (keys : list PublicKey) (M : Z)
    (s : Script) (tx : Transaction) (inputIndex : Z) (input : TransactionInput)
    (st : SourceTransaction) (out : TransactionOutput) (c : Closure)
    (sigs pks : Script) :
  lock None (Some keys) (Some M) = Ok s ->
  js_index (inputs tx) inputIndex = Some input ->
  sourceTransaction input = Some st ->
  js_index (source_outputs st) (sourceOutputIndex input) = Some out ->
  lockingScript out = Some s ->
  Forall (fun c => exists b, binChunk b = Ok c /\ Z.of_nat (length b) <= 73) sigs ->
  Forall (fun c => exists b, binChunk b = Ok c /\ Z.of_nat (length b) <= 33) pks ->
  Z.of_nat (length sigs) <= M -> length pks = length keys ->
  exists e, estimateLength tx inputIndex c = (Ok e, c)
            /\ binaryLength (opChunk OP.OP_0 :: sigs ++ pks) <= e.
Proof using hash160_length.
  intros Hlock Hin Hst Hout Hls Hsigs Hpks Hk HN.
  assert (B : 2 <= Z.of_nat (length keys) <= 10 /\ 1 <= M <= Z.of_nat (length keys))
    by (now apply lock_keys_ok_bounds with s).
  rewrite lock_keys_spec in Hlock by (reflexivity || tauto).
  injection Hlock as <-.
  exists (1 + M * 74 + Z.of_nat (length keys) * 34). split.
  - unfold estimateLength, lift, sourceOutput.
    rewrite Hin. cbn [ofOption bind]. rewrite Hst, Hout. cbn [ofOption bind].
    rewrite Hls, decodeCommitment_spec. reflexivity.
  - change (binaryLength (opChunk OP.OP_0 :: sigs ++ pks))
      with (1 + binaryLength (sigs ++ pks)).
    rewrite binaryLength_app.
    pose proof (binaryLength_pushes 73 sigs Hsigs ltac:(lia)).
    pose proof (binaryLength_pushes 33 pks Hpks ltac:(lia)).
    rewrite HN in *. nia.
Qed.

(** ** Signing: failures *)

(** Unfolds [sign] up to the lookup of the input, given how the first block
    went. *)
Ltac enter_sign Einit :=
  unfold sign; unfold bindM at 1; rewrite Einit;
  unfold bindM at 1; unfold get at 1; unfold bindM at 1; unfold lift at 1.

Lemma forEach_pubkeys_run (good : list string) :
  forall (l : list string) (pks : Script) (c : Closure) (w : Script),
    Forall2 pubkeyChunk good pks ->
    workingUnlockingScript c = Some w ->
    exists c', forEach (good ++ l) pushPubkey c = forEach l pushPubkey c'
               /\ workingUnlockingScript c' = Some (w ++ pks)
               /\ sameArguments c c'.
Proof.
  induction good as [|g good IH]; intros l pks c w Hall Hw.
  - inversion Hall; subst. exists c. rewrite app_nil_r.
    repeat split; assumption.
  - inversion Hall as [|g' ch good' pks' (pk & Hpk & Hch) Hrest]; subst.
    cbn [app forEach]. unfold bindM at 1.
    unfold pushPubkey at 1, bindM, lift, get.
    rewrite Hpk. cbn [ofOption]. rewrite Hw. cbn [ofOption].
    unfold writeBin. rewrite Hch. cbn [bind]. unfold setWorking at 1.
    destruct (IH l pks'
                (mkClosure (wallet c) (customInstructions c) (Some (w ++ [ch]))
                   (signOutputs c) (anyoneCanPay c) (sourceSatoshis c)
                   (arg_lockingScript c))
                (w ++ [ch]) Hrest eq_refl) as (c' & Hrun & Hw' & Hsame).
    exists c'. split; [exact Hrun|]. split.
    + rewrite Hw', <- app_assoc. reflexivity.
    + exact Hsame.
Qed.

(** X13. A public key of the instructions that does not parse makes [sign]
    raise before it looks at the transaction. The working script it had
    started stays in the closure with the keys pushed so far, so a second
    call on the same closure no longer starts one. *)
Theorem sign_invalid_pubkey (tx : Transaction) (inputIndex : Z) (c : Closure)
    (good rest : list string) (bad : string) (pks : Script) :
  workingUnlockingScript c = None ->
  pubkeys (customInstructions c) = good ++ bad :: rest ->
  Forall2 pubkeyChunk good pks ->
  pubkeyFromString bad = None ->
  fst (sign tx inputIndex c) = Err SdkError
  /\ workingUnlockingScript (snd (sign tx inputIndex c))
     = Some (opChunk OP.OP_0 :: pks).
Proof.
  intros Hw Hpk Hgood Hbad.
  assert (Hinit : exists c1, initWorkingUnlockingScript c = (Err SdkError, c1)
                             /\ workingUnlockingScript c1
                                = Some (opChunk OP.OP_0 :: pks)).
  { unfold initWorkingUnlockingScript, bindM, get. rewrite Hw, Hpk.
    unfold setWorking at 1.
    destruct (forEach_pubkeys_run good (bad :: rest) pks
                (mkClosure (wallet c) (customInstructions c)
                   (Some (writeOpCode OP.OP_0 [])) (signOutputs c)
                   (anyoneCanPay c) (sourceSatoshis c) (arg_lockingScript c))
                (writeOpCode OP.OP_0 []) Hgood eq_refl)
      as (c' & Hrun & Hw' & _).
    rewrite Hrun. cbn [forEach]. unfold bindM at 1.
    unfold pushPubkey, bindM, lift. rewrite Hbad. cbn [ofOption].
    exists c'. split; [reflexivity | exact Hw']. }
  destruct Hinit as (c1 & Hinit & Hw1).
  assert (Hs : sign tx inputIndex c = (Err SdkError, c1))
    by (unfold sign; unfold bindM at 1; now rewrite Hinit).
  rewrite Hs. split; [reflexivity | exact Hw1].
Qed.

Lemma insertSignature_fails (sigForScript : list Z) (c c' : Closure) (e : error) :
  insertSignature sigForScript c = (Err e, c') ->
  workingUnlockingScript c' = workingUnlockingScript c.
Proof.
  unfold insertSignature, bindM, get, lift, ret, setWorking.
  destruct (workingUnlockingScript c) as [w|] eqn:Hw; cbn [ofOption].
  - unfold writeBin. destruct (binChunk sigForScript) as [chunk|e']; cbn [bind].
    + rewrite pop_snoc. cbn [ofOption]. discriminate.
    + intros H. injection H as _ <-. now rewrite Hw.
  - intros H. injection H as _ <-. now rewrite Hw.
Qed.

(** After the working script is there, whatever [sign] goes on to do leaves
    it alone unless the call returns. *)
Lemma sign_fails_after_init (tx : Transaction) (inputIndex : Z)
    (c c1 : Closure) (e : error) :
  initWorkingUnlockingScript c = (Ok tt, c1) ->
  fst (sign tx inputIndex c) = Err e ->
  workingUnlockingScript (snd (sign tx inputIndex c)) = workingUnlockingScript c1.
Proof.
  intros Hinit Hfail.
  destruct (sign tx inputIndex c) as [r cf] eqn:Hs. cbn [fst snd] in *. subst r.
  unfold sign in Hs. unfold bindM at 1 in Hs. rewrite Hinit in Hs.
  unfold bindM at 1 in Hs. unfold get at 1 in Hs.
  unfold bindM at 1 in Hs. unfold lift at 1 in Hs.
  destruct (js_index (inputs tx) inputIndex) as [input|]; cbn [ofOption] in Hs;
    [|now injection Hs as _ <-].
  unfold bindM at 1 in Hs. unfold lift at 1 in Hs.
  destruct (resolveSourceTXID input) as [r|e0]; [|now injection Hs as _ <-].
  destruct (truthy r) as [txid|]; [|now injection Hs as _ <-].
  unfold bindM at 1 in Hs.
  destruct (resolveSourceSatoshis input c1) as [[v|e1] c2] eqn:Hsat.
  2:{ injection Hs as _ <-. apply resolveSourceSatoshis_frame in Hsat.
      destruct Hsat as [Hw2 _]. exact Hw2. }
  apply resolveSourceSatoshis_frame in Hsat. destruct Hsat as [Hw2 _].
  unfold bindM at 1 in Hs.
  destruct (resolveLockingScript input c2) as [[ls|e2] c3] eqn:Hls.
  2:{ injection Hs as _ <-. apply resolveLockingScript_frame in Hls.
      destruct Hls as [Hw3 _]. congruence. }
  apply resolveLockingScript_frame in Hls. destruct Hls as [Hw3 _].
  unfold bindM at 1 in Hs. unfold lift at 1 in Hs.
  destruct (createSignature _ _ _ _) as [signature|]; cbn [ofOption] in Hs;
    [|injection Hs as _ <-; congruence].
  unfold bindM at 1 in Hs. unfold lift at 1 in Hs.
  destruct (toChecksigFormat _ _) as [sigForScript|]; cbn [ofOption] in Hs;
    [|injection Hs as _ <-; congruence].
  apply insertSignature_fails in Hs. congruence.
Qed.

(** X14. A call of [sign] that raises adds nothing to a working script it
    was given; and when it was given none and the keys of the instructions
    parse, it leaves behind the script it started: [OP_0] and the pushes of
    the keys, without a signature. *)
Theorem sign_failure_leaves_script (tx : Transaction) (inputIndex : Z)
    (c : Closure) (e : error) :
  fst (sign tx inputIndex c) = Err e ->
  (forall w, workingUnlockingScript c = Some w ->
             workingUnlockingScript (snd (sign tx inputIndex c)) = Some w)
  /\ (workingUnlockingScript c = None ->
      fst (initWorkingUnlockingScript c) = Ok tt ->
      exists pks,
        Forall2 pubkeyChunk (pubkeys (customInstructions c)) pks
        /\ workingUnlockingScript (snd (sign tx inputIndex c))
           = Some (opChunk OP.OP_0 :: pks)).
Proof.
  intros Hfail. split.
  - intros w Hw.
    rewrite (sign_fails_after_init tx inputIndex c c e (init_with_prior c w Hw) Hfail).
    exact Hw.
  - intros Hw Hinit.
    destruct (initWorkingUnlockingScript c) as [r c1] eqn:Einit.
    cbn [fst] in Hinit. subst r.
    destruct (init_fresh c c1 Hw Einit) as (pks & Hw1 & Hall & _).
    exists pks. split; [assumption|].
    rewrite (sign_fails_after_init tx inputIndex c c1 e Einit Hfail). exact Hw1.
Qed.

(** X15. [sign] raises a TypeError for an input index out of range, the
    missing-sourceTXID error for an input with neither a source txid (an
    empty string counts as none) nor a source transaction, and checks these
    two before the satoshis and the locking script. *)
Theorem sign_missing_input_or_txid (tx : Transaction) (inputIndex : Z)
    (c : Closure) :
  fst (initWorkingUnlockingScript c) = Ok tt ->
  (js_index (inputs tx) inputIndex = None ->
   fst (sign tx inputIndex c) = Err TypeError)
  /\ (forall input,
        js_index (inputs tx) inputIndex = Some input ->
        sourceTXID input = None \/ sourceTXID input = Some EmptyString ->
        sourceTransaction input = None ->
        fst (sign tx inputIndex c) = Err MissingSourceTXID).
Proof.
  intros Hinit.
  destruct (initWorkingUnlockingScript c) as [r c1] eqn:Einit.
  cbn [fst] in Hinit. subst r.
  split.
  - intros Hin. enter_sign Einit. now rewrite Hin.
  - intros input Hin Htx Hst. enter_sign Einit.
    rewrite Hin. cbn [ofOption]. unfold bindM at 1. unfold lift at 1.
    unfold resolveSourceTXID.
    rewrite Hst. destruct Htx as [-> | ->]; reflexivity.
Qed.

Lemma resolveSourceSatoshis_explicit (input : TransactionInput) (c : Closure) (v : Z) :
  truthyNum (sourceSatoshis c) = Some v ->
  resolveSourceSatoshis input c = (Ok v, c).
Proof.
  intros Hv. unfold resolveSourceSatoshis, bindM, get, ret. now rewrite Hv, Hv.
Qed.

Lemma resolveLockingScript_explicit (input : TransactionInput) (c : Closure)
    (ls : Script) :
  arg_lockingScript c = Some ls -> resolveLockingScript input c = (Ok ls, c).
Proof.
  intros Hv. unfold resolveLockingScript, bindM, get, ret. now rewrite Hv, Hv.
Qed.

Lemma id_raises (st : SourceTransaction) (out : TransactionOutput) :
  In out (source_outputs st) -> lockingScript out = None -> id st = Err TypeError.
Proof.
  intros Hin Hout. unfold id.
  destruct (forallb _ (source_outputs st)) eqn:Hall; [|reflexivity].
  rewrite forallb_forall in Hall. specialize (Hall out Hin).
  rewrite Hout in Hall. discriminate.
Qed.

(** X16. With the satoshis passed to [unlock] but no locking script, an
    input that names its source txid and has no source transaction, or one
    whose source output carries no locking script, makes [sign] raise the
    missing-lockingScript error. For an input that does not name its source
    txid the error is another one: the id of the attached source
    transaction is computed first, and that raises a TypeError as soon as
    one of its outputs has no locking script. *)
Theorem sign_missing_lockingScript (tx : Transaction) (inputIndex : Z)
    (c : Closure) (input : TransactionInput) :
  fst (initWorkingUnlockingScript c) = Ok tt ->
  js_index (inputs tx) inputIndex = Some input ->
  (forall txid v o,
      resolveSourceTXID input = Ok (Some txid) -> txid <> EmptyString ->
      sourceSatoshis c = Some v -> v <> 0 ->
      arg_lockingScript c = None ->
      sourceOutput input = Ok o ->
      match o with Some out => lockingScript out = None | None => True end ->
      fst (sign tx inputIndex c) = Err MissingLockingScript)
  /\ (forall st out,
        truthy (sourceTXID input) = None ->
        sourceTransaction input = Some st ->
        In out (source_outputs st) -> lockingScript out = None ->
        fst (sign tx inputIndex c) = Err TypeError).
Proof.
  intros Hinit Hin.
  destruct (initWorkingUnlockingScript c) as [r c1] eqn:Einit.
  cbn [fst] in Hinit. subst r.
  pose proof (init_sameArguments c c1 Einit) as (_ & _ & _ & _ & Hsat & Harg).
  split.
  - intros txid v o Htxid Hne Hv Hv0 Hls Ho Hout.
    enter_sign Einit.
    rewrite Hin. cbn [ofOption]. unfold bindM at 1. unfold lift at 1.
    rewrite Htxid, (truthy_not_empty txid Hne). unfold bindM at 1.
    rewrite (resolveSourceSatoshis_explicit input c1 v)
      by (rewrite Hsat, Hv; destruct v; [contradiction | reflexivity | reflexivity]).
    unfold bindM at 1.
    unfold resolveLockingScript, bindM, get, lift, ret, throw, setLockingScript.
    rewrite Harg, Hls, Ho. cbn [arg_lockingScript].
    destruct o as [out|]; [rewrite Hout|]; reflexivity.
  - intros st out Ht Hst Hmem Hout.
    enter_sign Einit.
    rewrite Hin. cbn [ofOption]. unfold bindM at 1. unfold lift at 1.
    unfold resolveSourceTXID. rewrite Ht, Hst, (id_raises st out Hmem Hout).
    reflexivity.
Qed.

(** ** Signing: what a call that returns has done *)

Lemma init_runs (c : Closure) (w : Script) :
  match workingUnlockingScript c with
  | Some w0 => w = w0
  | None => exists pks, Forall2 pubkeyChunk (pubkeys (customInstructions c)) pks
                        /\ w = opChunk OP.OP_0 :: pks
  end ->
  exists c1, initWorkingUnlockingScript c = (Ok tt, c1)
             /\ workingUnlockingScript c1 = Some w /\ sameArguments c c1.
Proof.
  destruct (workingUnlockingScript c) as [w0|] eqn:Hw.
  - intros ->. exists c. rewrite (init_with_prior c w0 Hw).
    repeat split. assumption.
  - intros (pks & Hall & ->).
    unfold initWorkingUnlockingScript, bindM, get. rewrite Hw.
    unfold setWorking at 1.
    destruct (forEach_pubkeys_run (pubkeys (customInstructions c)) [] pks
                (mkClosure (wallet c) (customInstructions c)
                   (Some (writeOpCode OP.OP_0 [])) (signOutputs c)
                   (anyoneCanPay c) (sourceSatoshis c) (arg_lockingScript c))
                (writeOpCode OP.OP_0 []) Hall eq_refl)
      as (c' & Hrun & Hw' & Hsame).
    rewrite app_nil_r in Hrun. rewrite Hrun. exists c'.
    split; [reflexivity|]. split; [exact Hw' | exact Hsame].
Qed.

Lemma truthyNum_some (x : option Z) (v : Z) : truthyNum x = Some v -> x = Some v.
Proof. destruct x as [[|p|p]|]; cbn; congruence. Qed.

Lemma resolveSourceSatoshis_resolves (input : TransactionInput) (c : Closure)
    (o : option TransactionOutput) (v : Z) :
  sourceOutput input = Ok o ->
  match truthyNum (sourceSatoshis c) with
  | Some x => Some x
  | None => truthyNum (match o with Some out => satoshis out | None => None end)
  end = Some v ->
  exists c', resolveSourceSatoshis input c = (Ok v, c')
             /\ sourceSatoshis c' = Some v
             /\ arg_lockingScript c' = arg_lockingScript c
             /\ sameScript c c'.
Proof.
  intros Ho Hv. destruct (truthyNum (sourceSatoshis c)) as [x|] eqn:Hx.
  - injection Hv as ->. exists c. rewrite (resolveSourceSatoshis_explicit input c v Hx).
    split; [reflexivity|]. split; [now apply truthyNum_some|].
    split; [reflexivity | split; reflexivity].
  - unfold resolveSourceSatoshis, bindM, get, lift, ret, throw, setSourceSatoshis.
    rewrite Hx, Ho. cbn [sourceSatoshis]. rewrite Hv. eexists.
    split; [reflexivity|]. cbn [sourceSatoshis arg_lockingScript].
    split; [now apply truthyNum_some|]. split; [reflexivity | split; reflexivity].
Qed.

Lemma resolveLockingScript_resolves (input : TransactionInput) (c : Closure)
    (o : option TransactionOutput) (ls : Script) :
  sourceOutput input = Ok o ->
  match arg_lockingScript c with
  | Some l => Some l
  | None => match o with Some out => lockingScript out | None => None end
  end = Some ls ->
  exists c', resolveLockingScript input c = (Ok ls, c')
             /\ arg_lockingScript c' = Some ls
             /\ sourceSatoshis c' = sourceSatoshis c
             /\ sameScript c c'.
Proof.
  intros Ho Hv. destruct (arg_lockingScript c) as [l|] eqn:Hl.
  - injection Hv as ->. exists c. rewrite (resolveLockingScript_explicit input c ls Hl).
    split; [reflexivity|]. split; [assumption|].
    split; [reflexivity | split; reflexivity].
  - unfold resolveLockingScript, bindM, get, lift, ret, throw, setLockingScript.
    rewrite Hl, Ho. cbn [arg_lockingScript]. rewrite Hv. eexists.
    split; [reflexivity|]. cbn [sourceSatoshis arg_lockingScript].
    split; [reflexivity|]. split; [reflexivity | split; reflexivity].
Qed.

Lemma insertSignature_runs (sigForScript : list Z) (chunk : ScriptChunk)
    (c : Closure) (w : Script) :
  workingUnlockingScript c = Some w ->
  binChunk sigForScript = Ok chunk ->
  let s := splice_insert w
             (Z.of_nat (length w)
              - Z.of_nat (length (pubkeys (customInstructions c)))) chunk in
  exists c', insertSignature sigForScript c = (Ok s, c')
             /\ workingUnlockingScript c' = Some s
             /\ sourceSatoshis c' = sourceSatoshis c
             /\ arg_lockingScript c' = arg_lockingScript c.
Proof.
  intros Hw Hchunk s. unfold insertSignature, bindM, get, lift, ret, setWorking.
  rewrite Hw. cbn [ofOption]. unfold writeBin. rewrite Hchunk. cbn [bind].
  rewrite pop_snoc. cbn [ofOption]. eexists. split; [reflexivity|].
  repeat split.
Qed.

(** X17. When a call of [sign] returns, and what it returns. The working
    script is the one passed to [unlock], or [OP_0] followed by the pushes
    of the instructions' keys; the input exists and has a source txid; the
    satoshis are the argument of [unlock] unless that is absent or 0, and
    then those of the source output; the locking script likewise; the
    wallet signs the double hash of the preimage formatted from these, with
    the input's sequence or 0xffffffff when that is absent or 0. Then [sign]
    returns the working script with the signature push spliced in before
    the keys, and the closure keeps that script, the satoshis and the
    locking script it resolved. *)
Theorem sign_succeeds (tx : Transaction) (inputIndex : Z) (c : Closure)
    (w : Script) (input : TransactionInput) (txid : string)
    (o : option TransactionOutput) (v : Z) (ls : Script)
    (signature sigForScript : list Z) (chunk : ScriptChunk) :
  match workingUnlockingScript c with
  | Some w0 => w = w0
  | None => exists pks, Forall2 pubkeyChunk (pubkeys (customInstructions c)) pks
                        /\ w = opChunk OP.OP_0 :: pks
  end ->
  js_index (inputs tx) inputIndex = Some input ->
  resolveSourceTXID input = Ok (Some txid) -> txid <> EmptyString ->
  sourceOutput input = Ok o ->
  match truthyNum (sourceSatoshis c) with
  | Some x => Some x
  | None => truthyNum (match o with Some out => satoshis out | None => None end)
  end = Some v ->
  match arg_lockingScript c with
  | Some l => Some l
  | None => match o with Some out => lockingScript out | None => None end
  end = Some ls ->
  createSignature (wallet c)
    (hash256
       (format
          (mkFormat txid (sourceOutputIndex input) v (version tx)
             (dropIndex (inputs tx) 0 inputIndex) inputIndex (outputs tx)
             (match truthyNum (sequence input) with
              | Some q => q
              | None => 4294967295
              end)
             ls (lockTime tx)
             (signatureScopeOf (signOutputs c) (anyoneCanPay c)))))
    (counterparty (customInstructions c)) (keyID (customInstructions c))
  = Some signature ->
  toChecksigFormat signature (signatureScopeOf (signOutputs c) (anyoneCanPay c))
  = Some sigForScript ->
  binChunk sigForScript = Ok chunk ->
  let s := splice_insert w
             (Z.of_nat (length w)
              - Z.of_nat (length (pubkeys (customInstructions c)))) chunk in
  exists c', sign tx inputIndex c = (Ok s, c')
             /\ workingUnlockingScript c' = Some s
             /\ sourceSatoshis c' = Some v
             /\ arg_lockingScript c' = Some ls.
Proof.
  intros Hw Hin Htxid Hne Ho Hv Hls Hsig Hfmt Hchunk s.
  destruct (init_runs c w Hw) as (c1 & Einit & Hw1 & Hsame).
  destruct Hsame as (Hwal & Hci & Hso & Hacp & Hsat & Harg).
  rewrite <- Hsat in Hv. rewrite <- Harg in Hls.
  destruct (resolveSourceSatoshis_resolves input c1 o v Ho Hv)
    as (c2 & E2 & Hsat2 & Harg2 & Hw2 & Hci2).
  rewrite <- Harg2 in Hls.
  destruct (resolveLockingScript_resolves input c2 o ls Ho Hls)
    as (c3 & E3 & Harg3 & Hsat3 & Hw3 & Hci3).
  destruct (insertSignature_runs sigForScript chunk c3 w
              ltac:(congruence) Hchunk) as (c4 & E4 & Hw4 & Hsat4 & Harg4).
  exists c4. split.
  - enter_sign Einit. rewrite Hin. cbn [ofOption].
    unfold bindM at 1. unfold lift at 1.
    rewrite Htxid, (truthy_not_empty txid Hne).
    unfold bindM at 1. rewrite E2. unfold bindM at 1. rewrite E3.
    unfold bindM at 1. unfold lift at 1.
    rewrite Hwal, Hci, Hso, Hacp, Hsig. cbn [ofOption].
    unfold bindM at 1. unfold lift at 1. rewrite Hfmt. cbn [ofOption].
    rewrite E4. unfold s. now rewrite Hci3, Hci2, Hci.
  - unfold s. rewrite <- Hci, <- Hci2, <- Hci3.
    split; [exact Hw4|]. split; congruence.
Qed.

(** X18. A call of [sign] that returns has put exactly one chunk into the
    working script it was given, at one position [k], and has dropped,
    changed or reordered none of the others. With at least as many chunks
    as the instructions have keys, [k] is that many places from the end;
    with fewer, the negative position counts from the end once more and
    stops at 0. *)
Theorem sign_keeps_chunks (tx : Transaction) (inputIndex : Z)
    (c c' : Closure) (w s : Script) :
  workingUnlockingScript c = Some w ->
  sign tx inputIndex c = (Ok s, c') ->
  let len := Z.of_nat (length w) in
  let n := Z.of_nat (length (pubkeys (customInstructions c))) in
  let k := Z.to_nat (if len <? n then Z.max (2 * len - n) 0 else len - n) in
  exists sig, s = firstn k w ++ sig :: skipn k w /\ length s = S (length w).
Proof.
  intros Hw Hsign len n k.
  destruct (sign_places_signature tx inputIndex c c' w s Hw Hsign)
    as (sigForScript & sig & _ & Hs & _ & _).
  exists sig.
  assert (Hshape : s = firstn k w ++ sig :: skipn k w).
  { rewrite Hs. unfold splice_insert, k. fold len. fold n.
    destruct (Z.ltb_spec len n) as [Hlt|Hge].
    - replace (len - n <? 0) with true by (symmetry; apply Z.ltb_lt; lia).
      now replace (len + (len - n)) with (2 * len - n) by lia.
    - replace (len - n <? 0) with false by (symmetry; apply Z.ltb_ge; lia).
      now rewrite Z.min_l by lia. }
  split; [assumption|].
  rewrite Hshape, length_app. cbn [length].
  pose proof (f_equal (@length ScriptChunk) (firstn_skipn k w)) as Hl.
  rewrite length_app in Hl. lia.
Qed.

(** X19. Hand-off between two signers. The first call starts the script
    and returns it with one signature; a second call, by any closure that
    was given that script and instructions with the same keys, returns
    [OP_0, sig_1, sig_2, pubkey_1 .. pubkey_N]: the signatures stand in
    signing order, [sig_1] being the push of the signature the first call
    made and [sig_2] the push of the one the second call made. *)
Theorem sign_hand_off (tx tx' : Transaction) (i i' : Z) (c c1 d d1 : Closure)
    (s1 s2 : Script) :
  workingUnlockingScript c = None ->
  sign tx i c = (Ok s1, c1) ->
  workingUnlockingScript d = Some s1 ->
  pubkeys (customInstructions d) = pubkeys (customInstructions c) ->
  sign tx' i' d = (Ok s2, d1) ->
  exists pks sig1 sig2,
    Forall2 pubkeyChunk (pubkeys (customInstructions c)) pks
    /\ s1 = opChunk OP.OP_0 :: sig1 :: pks
    /\ s2 = opChunk OP.OP_0 :: sig1 :: sig2 :: pks
    /\ signatureChunk tx i c c1 sig1
    /\ signatureChunk tx' i' d d1 sig2.
Proof.
  intros Hw Hs1 Hd Hkeys Hs2.
  destruct (initWorkingUnlockingScript c) as [[[]|e] c0] eqn:Hinit.
  2:{ unfold sign in Hs1. unfold bindM at 1 in Hs1.
      rewrite Hinit in Hs1. discriminate. }
  destruct (init_fresh c c0 Hw Hinit) as (pks & Hw0 & Hall & Hsame).
  rewrite (sign_after_init tx i c c0 _ Hinit Hw0) in Hs1.
  destruct (sign_signs tx i c0 c1 _ s1 Hw0 Hs1) as (sig1 & Hc1 & E1 & _ & _).
  apply (signatureChunk_sameArguments tx i c c0 c1 sig1 Hsame) in Hc1.
  destruct Hsame as (_ & Hci & _).
  rewrite Hci, (Forall2_length Hall) in E1.
  change (opChunk OP.OP_0 :: pks) with ([opChunk OP.OP_0] ++ pks) in E1.
  rewrite splice_insert_before_suffix in E1. cbn [app] in E1.
  destruct (sign_signs tx' i' d d1 s1 s2 Hd Hs2) as (sig2 & Hc2 & E2 & _ & _).
  rewrite Hkeys, (Forall2_length Hall), E1 in E2.
  change (opChunk OP.OP_0 :: sig1 :: pks)
    with ([opChunk OP.OP_0; sig1] ++ pks) in E2.
  rewrite splice_insert_before_suffix in E2. cbn [app] in E2.
  exists pks, sig1, sig2. auto.
Qed.

Lemma dropIndex_above {A : Type} (l : list A) :
  forall i k, k < i -> dropIndex l i k = l.
Proof.
  induction l as [|x l IH]; intros i k Hk; [reflexivity|].
  cbn [dropIndex]. replace (i =? k) with false by (symmetry; apply Z.eqb_neq; lia).
  now rewrite IH by lia.
Qed.

Lemma dropIndex_middle {A : Type} (pre post : list A) (x : A) :
  forall i, dropIndex (pre ++ x :: post) i (i + Z.of_nat (length pre)) = pre ++ post.
Proof.
  induction pre as [|y pre IH]; intros i.
  - cbn [app length dropIndex Z.of_nat].
    replace (i =? i + 0) with true by (symmetry; apply Z.eqb_eq; lia).
    apply dropIndex_above. lia.
  - cbn [app dropIndex].
    replace (i =? i + Z.of_nat (length (y :: pre))) with false
      by (symmetry; apply Z.eqb_neq; cbn [length]; lia).
    replace (i + Z.of_nat (length (y :: pre))) with (i + 1 + Z.of_nat (length pre))
      by (cbn [length]; lia).
    now rewrite IH.
Qed.

(** [sign] on a closure that holds the satoshis and the locking script, for
    an input with a source txid: the source transaction does not occur. *)
Lemma sign_with_given_context (tx : Transaction) (inputIndex : Z)
    (c c1 : Closure) (input : TransactionInput) (t : string) (x : Z) (ls : Script) :
  initWorkingUnlockingScript c = (Ok tt, c1) ->
  js_index (inputs tx) inputIndex = Some input ->
  truthy (sourceTXID input) = Some t ->
  truthyNum (sourceSatoshis c) = Some x ->
  arg_lockingScript c = Some ls ->
  sign tx inputIndex c
  = match createSignature (wallet c1)
            (hash256
               (format
                  (mkFormat t (sourceOutputIndex input) x (version tx)
                     (dropIndex (inputs tx) 0 inputIndex) inputIndex (outputs tx)
                     (match truthyNum (sequence input) with
                      | Some q => q
                      | None => 4294967295
                      end)
                     ls (lockTime tx)
                     (signatureScopeOf (signOutputs c1) (anyoneCanPay c1)))))
            (counterparty (customInstructions c1)) (keyID (customInstructions c1))
    with
    | Some signature =>
        match toChecksigFormat signature
                (signatureScopeOf (signOutputs c1) (anyoneCanPay c1)) with
        | Some sigForScript => insertSignature sigForScript c1
        | None => (Err SdkError, c1)
        end
    | None => (Err SdkError, c1)
    end.
Proof.
  intros Einit Hin Ht Hx Hls.
  pose proof (init_sameArguments c c1 Einit) as (_ & _ & _ & _ & Hsat & Harg).
  enter_sign Einit. rewrite Hin. cbn [ofOption].
  unfold bindM at 1. unfold lift at 1.
  assert (Htxid : resolveSourceTXID input = Ok (Some t))
    by (unfold resolveSourceTXID; now rewrite Ht).
  assert (Hne : truthy (Some t) = Some t).
  { destruct t; [|reflexivity].
    destruct (sourceTXID input) as [[|]|]; discriminate. }
  rewrite Htxid, Hne. unfold bindM at 1.
  rewrite (resolveSourceSatoshis_explicit input c1 x) by congruence.
  unfold bindM at 1.
  rewrite (resolveLockingScript_explicit input c1 ls) by congruence.
  unfold bindM at 1. unfold lift at 1.
  destruct (createSignature _ _ _ _) as [signature|]; cbn [ofOption]; [|reflexivity].
  unfold bindM at 1. unfold lift at 1.
  destruct (toChecksigFormat _ _) as [sigForScript|]; reflexivity.
Qed.

(** X20. What was passed to [unlock] wins over the transaction. When the
    closure holds satoshis other than 0 and a locking script, as it does
    after a call of [sign] that returned, and the input names its source
    txid, the source transaction attached to the input is not read: the same
    call on a transaction that differs only in that attachment does the
    same. *)
Theorem sign_ignores_attached_source (v lt : Z) (pre post : list TransactionInput)
    (outs : list TransactionOutput) (input : TransactionInput)
    (st' : option SourceTransaction) (c : Closure) (t : string) (x : Z)
    (ls : Script) :
  truthy (sourceTXID input) = Some t ->
  truthyNum (sourceSatoshis c) = Some x ->
  arg_lockingScript c = Some ls ->
  sign (mkTransaction v
          (pre ++ mkInput st' (sourceTXID input) (sourceOutputIndex input)
                    (sequence input) :: post) outs lt)
       (Z.of_nat (length pre)) c
  = sign (mkTransaction v (pre ++ input :: post) outs lt) (Z.of_nat (length pre)) c.
Proof.
  intros Ht Hx Hls.
  destruct (initWorkingUnlockingScript c) as [[[]|e] c1] eqn:Einit.
  - rewrite (sign_with_given_context _ _ c c1
               (mkInput st' (sourceTXID input) (sourceOutputIndex input)
                  (sequence input)) t x ls Einit)
      by (try assumption; cbn [inputs]; now apply js_index_middle).
    rewrite (sign_with_given_context _ _ c c1 input t x ls Einit)
      by (try assumption; cbn [inputs]; now apply js_index_middle).
    cbn [inputs version outputs lockTime sourceOutputIndex sequence].
    rewrite !(dropIndex_middle pre post _ 0). reflexivity.
  - unfold sign. unfold bindM. now rewrite Einit.
Qed.

(** ** Derived addresses *)

(** A counterparty and the key the wallet derives for it. *)
Lemma mapM_ok {A B : Type} (f : A -> result B) (l : list A) (ys : list B) :
  mapM f l = Ok ys <-> Forall2 (fun x y => f x = Ok y) l ys.
Proof.
  revert ys. induction l as [|x l IH]; intros ys; cbn [mapM].
  - split; [intros H; injection H as <-; constructor | intros H; now inversion H].
  - split.
    + destruct (f x) as [y|e] eqn:Hy; [|discriminate]. cbn [bind].
      destruct (mapM f l) as [zs|e] eqn:Hzs; [|discriminate]. cbn [bind].
      intros H. injection H as <-. constructor; [assumption | now apply IH].
    + intros H. inversion H as [|x' y l' zs Hy Hzs]; subst.
      rewrite Hy. cbn [bind]. apply IH in Hzs. now rewrite Hzs.
Qed.

Lemma mapM_err {A B : Type} (f : A -> result B) (l : list A) (x : A) (e : error) :
  In x l -> f x = Err e -> (forall y e', f y = Err e' -> e' = e) ->
  mapM f l = Err e.
Proof.
  intros Hin Hx Hall. induction l as [|z l IH]; [contradiction|].
  cbn [mapM]. destruct (f z) as [y|e'] eqn:Hz.
  - cbn [bind]. destruct Hin as [->|Hin]; [congruence|].
    rewrite (IH Hin). reflexivity.
  - cbn [bind]. f_equal. now apply Hall with z.
Qed.

(** What a returning [addressBRC29] went through: the keys it mapped the
    counterparties to, and the call of [address] on them. *)
Lemma addressBRC29_keys (w : Wallet) (counterparties : list string)
    (keyID : string) (M : Z) (strings : list string) (a : string) :
  addressBRC29 w counterparties keyID M = Ok (strings, a) ->
  exists keys,
    Forall2 (fun counterparty key =>
               exists publicKey,
                 getPublicKey w keyID counterparty = Some publicKey
                 /\ pubkeyFromString publicKey = Some key) counterparties keys
    /\ strings = map pubkeyToString keys
    /\ address keys M = Ok a.
Proof.
  unfold addressBRC29. intros H.
  destruct (mapM _ counterparties) as [keys|e] eqn:Hkeys; [|discriminate].
  cbn [bind] in H.
  destruct (address keys M) as [a'|e] eqn:Ha; [|discriminate].
  cbn [bind] in H. injection H as <- <-.
  apply mapM_ok in Hkeys.
  exists keys. split; [|split; [reflexivity | exact Ha]].
  eapply Forall2_impl; [|exact Hkeys]. intros cp k Hk. cbn beta in Hk.
  destruct (getPublicKey w keyID cp) as [publicKey|]; [|discriminate].
  cbn [ofOption bind] in Hk. exists publicKey. split; [reflexivity|].
  destruct (pubkeyFromString publicKey); [|discriminate]. cbn in Hk. congruence.
Qed.

(** X21. When [addressBRC29] returns, every counterparty got a key from the
    wallet, under the given key id; the returned [pubkeys] are these keys
    as text, one per counterparty and in the counterparties' order; and the
    returned address is [address] of these keys and the threshold, so there
    are at least two counterparties and the threshold lies between 1 and
    their number. *)
Theorem addressBRC29_returns (w : Wallet) (counterparties : list string)
    (keyID : string) (M : Z) (strings : list string) (a : string) :
  addressBRC29 w counterparties keyID M = Ok (strings, a) ->
  exists keys,
    Forall2 (fun counterparty key =>
               exists publicKey,
                 getPublicKey w keyID counterparty = Some publicKey
                 /\ pubkeyFromString publicKey = Some key) counterparties keys
    /\ strings = map pubkeyToString keys
    /\ length strings = length counterparties
    /\ address keys M = Ok a
    /\ 2 <= Z.of_nat (length counterparties)
    /\ 1 <= M <= Z.of_nat (length counterparties).
Proof.
  intros H.
  destruct (addressBRC29_keys w counterparties keyID M strings a H)
    as (keys & Hall & -> & Ha).
  pose proof (Forall2_length Hall) as Hlen.
  exists keys. split; [exact Hall|].
  split; [reflexivity|]. split; [rewrite length_map; congruence|].
  split; [exact Ha|].
  pose proof (address_ok_bounds keys M a Ha) as Hok. rewrite Hlen. lia.
Qed.

(** X22. [addressBRC29] rejects when the wallet gives no key for one of the
    counterparties, or gives one that does not parse; and when every
    counterparty gets a key, it rejects a threshold below 1 or above the
    number of counterparties with the threshold error. *)
Theorem addressBRC29_rejects (w : Wallet) (counterparties : list string)
    (keyID : string) (M : Z) :
  (forall counterparty,
      In counterparty counterparties ->
      match getPublicKey w keyID counterparty with
      | Some publicKey => pubkeyFromString publicKey = None
      | None => True
      end ->
      addressBRC29 w counterparties keyID M = Err SdkError)
  /\ (Forall (fun counterparty =>
                exists publicKey key,
                  getPublicKey w keyID counterparty = Some publicKey
                  /\ pubkeyFromString publicKey = Some key) counterparties ->
      M < 1 \/ Z.of_nat (length counterparties) < M ->
      addressBRC29 w counterparties keyID M = Err ThresholdOutOfRange).
Proof.
  unfold addressBRC29. split.
  - intros cp Hin Hcp.
    rewrite (mapM_err _ counterparties cp SdkError Hin); [reflexivity | | ].
    + destruct (getPublicKey w keyID cp) as [publicKey|]; [|reflexivity].
      cbn [ofOption bind]. now rewrite Hcp.
    + intros y e'. destruct (getPublicKey w keyID y) as [publicKey|];
        cbn [ofOption bind]; [|congruence].
      destruct (pubkeyFromString publicKey); cbn [ofOption]; congruence.
  - intros Hall.
    assert (Hkeys : exists keys,
               mapM (fun counterparty =>
                       publicKey <- ofOption SdkError
                         (getPublicKey w keyID counterparty) ;;
                       ofOption SdkError (pubkeyFromString publicKey))
                    counterparties = Ok keys
               /\ length keys = length counterparties).
    { induction Hall as [|cp cps (publicKey & key & Hg & Hp) Hall IH].
      - exists []. split; reflexivity.
      - destruct IH as (keys & Hk & Hl). exists (key :: keys).
        cbn [mapM]. rewrite Hg. cbn [ofOption bind]. rewrite Hp. cbn [ofOption bind].
        rewrite Hk. cbn [bind length]. split; [reflexivity | lia]. }
    intros HM. destruct Hkeys as (keys & -> & Hl). cbn [bind].
    rewrite (address_threshold_error keys M) by (rewrite Hl; exact HM).
    reflexivity.
Qed.

(** X23. The keys [addressBRC29] returns are the keys the address commits
    to. Given back to [unlock] as the instructions' [pubkeys], with keys
    that parse back from their text to 33-byte encodings, [sign] starts the
    working script with [OP_0] and one 33-byte push per key, in order, and
    the concatenation of the pushed data hashes to the hash the address
    decodes to. *)
Theorem derived_keys_match_address (w : Wallet) (counterparties : list string)
    (keyID : string) (M : Z) (strings : list string) (a : string) (c : Closure) :
  addressBRC29 w counterparties keyID M = Ok (strings, a) ->
  (forall counterparty publicKey key,
      In counterparty counterparties ->
      getPublicKey w keyID counterparty = Some publicKey ->
      pubkeyFromString publicKey = Some key ->
      pubkeyFromString (pubkeyToString key) = Some key
      /\ length (toDER key) = 33%nat) ->
  Z.of_nat (length counterparties) < 2 ^ 32 ->
  workingUnlockingScript c = None ->
  pubkeys (customInstructions c) = strings ->
  exists keys c1,
    initWorkingUnlockingScript c = (Ok tt, c1)
    /\ workingUnlockingScript c1
       = Some (opChunk OP.OP_0 :: map (fun key => mkChunk 33 (Some (toDER key))) keys)
    /\ thresholdAndTotalFromAddress a
       = Ok (mkCommitment (hash160 (concat (map toDER keys))) (Num M)
               (Num (Z.of_nat (length keys)))).
Proof using hash160_length hash160_bytes fromBase58Check_toBase58Check
  toBase58Check_not_empty.
  intros Haddr Hkeys Hlen Hw Hpk.
  destruct (addressBRC29_keys w counterparties keyID M strings a Haddr)
    as (keys & Hall & Hstr & Ha).
  assert (Hgood : Forall (fun key => pubkeyFromString (pubkeyToString key) = Some key
                                    /\ length (toDER key) = 33%nat) keys).
  { clear - Hall Hkeys. induction Hall as [|cp key cps keys (pk & Hg & Hp) Hall IH].
    - constructor.
    - constructor.
      + apply (Hkeys cp pk key); [now left | assumption | assumption].
      + apply IH. intros cp' pk' key' Hin. apply Hkeys. now right. }
  assert (Hchunks : Forall2 pubkeyChunk (map pubkeyToString keys)
                      (map (fun key => mkChunk 33 (Some (toDER key))) keys)).
  { clear - Hgood. induction Hgood as [|key keys (Hrt & Hder) Hgood IH].
    - constructor.
    - cbn [map]. constructor; [|exact IH].
      exists key. split; [assumption|].
      rewrite binChunk_short by lia. now rewrite Hder. }
  destruct (init_runs c (opChunk OP.OP_0
                           :: map (fun key => mkChunk 33 (Some (toDER key))) keys))
    as (c1 & Einit & Hw1 & _).
  { rewrite Hw. eexists. split; [|reflexivity]. rewrite Hpk, Hstr. exact Hchunks. }
  exists keys, c1. split; [assumption|]. split; [assumption|].
  rewrite <- concatPubkeys_concat.
  apply address_decodes; [|assumption].
  rewrite <- (Forall2_length Hall). assumption.
Qed.

(** ** Addresses that [address] would not have produced *)

(** The decoder on a payload of a 20-byte hash and two variable-length
    integers. *)
Lemma decode_payload (h : list Z) (M N : Z) :
  length h = 20%nat -> Forall is_byte h ->
  0 <= M < 2 ^ 32 -> 0 <= N < 2 ^ 32 ->
  thresholdAndTotalFromAddress
    (toBase58Check (h ++ varIntNum M ++ varIntNum N ++ []) [152])
  = Ok (mkCommitment h (Num M) (Num N)).
Proof using fromBase58Check_toBase58Check.
  intros Hh Hb HM HN. unfold thresholdAndTotalFromAddress.
  rewrite fromBase58Check_toBase58Check.
  2:{ constructor; [unfold is_byte; lia|].
      apply Forall_app; split; [assumption|].
      apply Forall_app; split; [apply varIntNum_bytes; lia|].
      apply Forall_app; split; [apply varIntNum_bytes; lia|constructor]. }
  cbn [ofOption bind]. unfold read, newReader, slice. cbn [bin pos skipn].
  replace (0 + 20 - 0)%nat with (length h) by lia.
  rewrite firstn_app, Nat.sub_diag, firstn_all, firstn_O.
  replace (0 + 20)%nat with (length h) by lia.
  rewrite (readVarIntNum_varIntNum h (varIntNum N ++ []) M) by lia.
  cbn [bind].
  replace (h ++ varIntNum M ++ varIntNum N ++ [])
    with ((h ++ varIntNum M) ++ varIntNum N ++ [])
    by (now rewrite <- app_assoc).
  rewrite <- length_app.
  rewrite (readVarIntNum_varIntNum (h ++ varIntNum M) [] N) by lia.
  cbn [bind]. now rewrite app_nil_r.
Qed.

(** X24. On the address path [lock] checks the threshold against the total
    and the total against ten, and nothing else: it has no lower bound on
    the number of keys. An address that carries a 20-byte hash, a threshold
    M and a total N with 1 <= M <= N <= 10 is turned into the script for
    (M, N), also for N = 1, which [address] and [lock] on a key list both
    refuse. *)
Theorem lock_address_accepts_one_key (h : list Z) (M N : Z)
    (pubkeys : option (list PublicKey)) (threshold : option Z) :
  length h = 20%nat -> Forall is_byte h -> 1 <= M <= N -> N <= 10 ->
  lock (Some (toBase58Check (h ++ [M; N]) [152])) pubkeys threshold
  = Ok (specLockingScript h M N).
Proof using fromBase58Check_toBase58Check toBase58Check_not_empty.
  intros Hh Hb HM HN.
  rewrite lock_with_address by apply toBase58Check_not_empty.
  pose proof (decode_payload h M N Hh Hb ltac:(lia) ltac:(lia)) as Hdec.
  rewrite !varIntNum_small in Hdec by lia. cbn [app] in Hdec.
  rewrite Hdec. cbn [bind]. now apply buildLocking_spec.
Qed.

(** ** The earlier revision *)

(** X25. [address] of the older copy accepts every threshold and every key
    list, and what it returns decodes to the threshold and the number of
    keys it was given, a threshold of 0 or a single key included. The
    current [lock] still applies its checks to such an address: it refuses
    a threshold of 0 with the threshold error. *)
Theorem legacy_address_unchecked (keys : list PublicKey) (M : Z)
    (pubkeys : option (list PublicKey)) (threshold : option Z) :
  0 <= M < 2 ^ 32 -> Z.of_nat (length keys) < 2 ^ 32 ->
  thresholdAndTotalFromAddress (legacy_address keys M)
  = Ok (mkCommitment (hash160 (concatPubkeys keys)) (Num M)
          (Num (Z.of_nat (length keys))))
  /\ (M = 0 ->
      lock (Some (legacy_address keys M)) pubkeys threshold
      = Err ThresholdOutOfRange).
Proof using hash160_length hash160_bytes fromBase58Check_toBase58Check
  toBase58Check_not_empty.
  intros HM HN.
  assert (Hdec : thresholdAndTotalFromAddress (legacy_address keys M)
                 = Ok (mkCommitment (hash160 (concatPubkeys keys)) (Num M)
                         (Num (Z.of_nat (length keys))))).
  { unfold legacy_address. cbv zeta.
    change (toArray _)
      with (hash160 (concatPubkeys keys) ++ varIntNum M
              ++ varIntNum (Z.of_nat (length keys)) ++ []).
    apply decode_payload;
      [apply hash160_length | apply hash160_bytes | lia | lia]. }
  split; [assumption|].
  intros ->. rewrite lock_with_address by apply toBase58Check_not_empty.
  rewrite Hdec. reflexivity.
Qed.

Lemma writeLockingScript_shape (h : list Z) (M N : Z) (tc : ScriptChunk) :
  length h = 20%nat -> 1 <= N <= 16 ->
  (forall s, writeNumber (Num M) s = Ok (s ++ [tc])) ->
  writeLockingScript h (Num M) (Num N)
  = Ok (repeat (opChunk OP.OP_CAT) (Z.to_nat (N - 1))
        ++ [opChunk OP.OP_DUP; opChunk OP.OP_HASH160; mkChunk 20 (Some h);
            opChunk OP.OP_EQUALVERIFY]
        ++ [tc; opChunk OP.OP_SWAP]
        ++ concat (repeat [mkChunk 1 (Some [33]); opChunk OP.OP_SPLIT]
                     (Z.to_nat (N - 1)))
        ++ [opChunk (OP.OP_1 + N - 1); opChunk OP.OP_CHECKMULTISIG]).
Proof.
  intros Hh HN Htc. unfold writeLockingScript, loopCount.
  rewrite iter_writeOpCode. unfold writeBin at 1.
  rewrite binChunk_short by lia. rewrite Hh. cbn [bind].
  rewrite Htc. cbn [bind]. rewrite iter_split. cbn [bind].
  rewrite writeNumber_small by lia. cbn [bind].
  unfold writeOpCode. cbn [app Z.of_nat Pos.of_succ_nat Pos.succ].
  rewrite <- !app_assoc. reflexivity.
Qed.

(** X26. [lock] of the older copy on a key list: fewer than two keys, or
    fewer keys than the threshold, raise the insufficient-keys error; two
    to sixteen keys with a threshold from 1 up to their number give the
    script of the specification, with no limit of ten; and a threshold of 0
    is not refused but written as [OP_0]. *)
Theorem legacy_lock_on_keys (keys : list PublicKey) (M : Z) :
  (Z.of_nat (length keys) < 2 \/ Z.of_nat (length keys) < M ->
   legacy_lock None (Some keys) (Some M) = Err InsufficientKeys)
  /\ (2 <= Z.of_nat (length keys) <= 16 -> 1 <= M <= Z.of_nat (length keys) ->
      legacy_lock None (Some keys) (Some M)
      = Ok (specLockingScript (hash160 (concatPubkeys keys)) M
              (Z.of_nat (length keys))))
  /\ (2 <= Z.of_nat (length keys) <= 16 -> M = 0 ->
      legacy_lock None (Some keys) (Some M)
      = Ok (repeat (opChunk OP.OP_CAT) (Z.to_nat (Z.of_nat (length keys) - 1))
            ++ [opChunk OP.OP_DUP; opChunk OP.OP_HASH160;
                mkChunk 20 (Some (hash160 (concatPubkeys keys)));
                opChunk OP.OP_EQUALVERIFY]
            ++ [opChunk OP.OP_0; opChunk OP.OP_SWAP]
            ++ concat (repeat [mkChunk 1 (Some [33]); opChunk OP.OP_SPLIT]
                         (Z.to_nat (Z.of_nat (length keys) - 1)))
            ++ [opChunk (OP.OP_1 + Z.of_nat (length keys) - 1);
                opChunk OP.OP_CHECKMULTISIG])).
Proof using hash160_length.
  unfold legacy_lock. cbn [truthy]. set (N := Z.of_nat (length keys)).
  split; [|split].
  - intros H. destruct (Z.ltb_spec N 2); [reflexivity|].
    destruct (Z.ltb_spec N M); [reflexivity | lia].
  - intros HN HM.
    replace (N <? 2) with false by (symmetry; apply Z.ltb_ge; lia).
    replace (N <? M) with false by (symmetry; apply Z.ltb_ge; lia).
    cbn [orb bind]. unfold specLockingScript.
    apply writeLockingScript_shape; [apply hash160_length | lia |].
    intros s. apply writeNumber_small. lia.
  - intros HN ->.
    replace (N <? 2) with false by (symmetry; apply Z.ltb_ge; lia).
    replace (N <? 0) with false by (symmetry; apply Z.ltb_ge; lia).
    cbn [orb bind].
    apply writeLockingScript_shape; [apply hash160_length | lia |].
    intros s. reflexivity.
Qed.

(** X27. In the older copy the signatures end up in reverse signing order:
    two insertions into [OP_0, rest] give [OP_0, sig_2, sig_1, rest]. *)
Theorem legacy_insertSignature_reverses (b1 b2 : list Z) (c c1 c2 : Closure)
    (rest s1 s2 : Script) :
  workingUnlockingScript c = Some (opChunk OP.OP_0 :: rest) ->
  legacy_insertSignature b1 c = (Ok s1, c1) ->
  legacy_insertSignature b2 c1 = (Ok s2, c2) ->
  exists sig1 sig2,
    binChunk b1 = Ok sig1 /\ binChunk b2 = Ok sig2
    /\ s1 = opChunk OP.OP_0 :: sig1 :: rest
    /\ s2 = opChunk OP.OP_0 :: sig2 :: sig1 :: rest.
Proof.
  intros Hw H1 H2.
  destruct (legacy_insertSignature_first b1 c c1 rest s1 Hw H1) as (sig1 & Hb1 & E1).
  assert (Hw1 : workingUnlockingScript c1 = Some s1).
  { revert H1. unfold legacy_insertSignature, bindM, get, lift, ret, setWorking.
    rewrite Hw. cbn [ofOption]. unfold writeBin. rewrite Hb1. cbn [bind].
    rewrite pop_snoc. cbn [ofOption]. intros H. now injection H as <- <-. }
  rewrite E1 in Hw1.
  destruct (legacy_insertSignature_first b2 c1 c2 (sig1 :: rest) s2 Hw1 H2)
    as (sig2 & Hb2 & E2).
  exists sig1, sig2. auto.
Qed.

Lemma specLockingScript_length (h : list Z) (M N : Z) :
  1 <= N -> Z.of_nat (length (specLockingScript h M N)) = 3 * N + 5.
Proof.
  intros HN. unfold specLockingScript. rewrite !length_app, repeat_length.
  assert (Hc : forall n, length (concat (repeat [mkChunk 1 (Some [33]);
                                                 opChunk OP.OP_SPLIT] n))
                         = (2 * n)%nat).
  { induction n as [|n IH]; cbn [repeat concat app length]; [reflexivity | lia]. }
  rewrite Hc. cbn [length]. lia.
Qed.

(** X28. The estimate of the older copy does not depend on the number of
    keys: on the script [lock] builds for threshold M over N keys it finds
    the threshold chunk and returns 28 + 2 * 34 + M * 73, where the current
    one returns 1 + M * 74 + N * 34. *)
Theorem legacy_estimateLength_on_lock (h : list Z) (M N : Z) :
  1 <= N ->
  legacy_estimateLength (specLockingScript h M N) = Ok (96 + M * 73)
  /\ decodeCommitment (specLockingScript h M N) = Ok (M, N).
Proof.
  intros HN. split; [|apply decodeCommitment_spec].
  unfold legacy_estimateLength. rewrite specLockingScript_length by assumption.
  replace (5 + ((3 * N + 5 - 8) / 3 - 1)) with (N + 3)
    by (replace (3 * N + 5 - 8) with ((N - 1) * 3) by lia;
        rewrite Z.div_mul by lia; lia).
  unfold specLockingScript.
  replace (repeat (opChunk OP.OP_CAT) (Z.to_nat (N - 1))
           ++ [opChunk OP.OP_DUP; opChunk OP.OP_HASH160; mkChunk 20 (Some h);
               opChunk OP.OP_EQUALVERIFY]
           ++ [opChunk (OP.OP_1 + M - 1); opChunk OP.OP_SWAP]
           ++ concat (repeat [mkChunk 1 (Some [33]); opChunk OP.OP_SPLIT]
                        (Z.to_nat (N - 1)))
           ++ [opChunk (OP.OP_1 + N - 1); opChunk OP.OP_CHECKMULTISIG])
    with ((repeat (opChunk OP.OP_CAT) (Z.to_nat (N - 1))
           ++ [opChunk OP.OP_DUP; opChunk OP.OP_HASH160; mkChunk 20 (Some h);
               opChunk OP.OP_EQUALVERIFY])
          ++ opChunk (OP.OP_1 + M - 1)
             :: (opChunk OP.OP_SWAP
                 :: concat (repeat [mkChunk 1 (Some [33]); opChunk OP.OP_SPLIT]
                              (Z.to_nat (N - 1)))
                 ++ [opChunk (OP.OP_1 + N - 1); opChunk OP.OP_CHECKMULTISIG]))
    by (rewrite <- !app_assoc; reflexivity).
  rewrite js_index_middle
    by (rewrite length_app, repeat_length; cbn [length]; lia).
  cbn [ofOption bind]. rewrite numberFromScriptChunk_op. cbn [bind].
  apply f_equal. lia.
Qed.

End Template.

(** * The reference instance meets the assumptions *)

Module RefFacts.

Lemma digest_length (n : nat) (x : list Z) : length (Ref.digest n x) = n.
Proof.
  unfold Ref.digest. rewrite length_firstn, length_app, repeat_length. lia.
Qed.

Lemma Forall_firstn_of {A : Type} (P : A -> Prop) (n : nat) (l : list A) :
  Forall P l -> Forall P (firstn n l).
Proof.
  intros Hl. revert n. induction Hl as [|x l Hx Hl IH]; intros [|n]; cbn [firstn];
    constructor; auto.
Qed.

Lemma digest_bytes (n : nat) (x : list Z) : Forall is_byte (Ref.digest n x).
Proof.
  unfold Ref.digest. apply Forall_firstn_of, Forall_app. split.
  - apply Forall_forall. intros b Hb. apply in_map_iff in Hb.
    destruct Hb as (z & <- & _). apply Z.mod_pos_bound. lia.
  - apply Forall_forall. intros b Hb. apply repeat_spec in Hb. subst b.
    unfold is_byte. lia.
Qed.

Lemma hash160_length (x : list Z) : length (Ref.hash160 x) = 20%nat.
Proof. apply digest_length. Qed.

Lemma hash160_bytes (x : list Z) : Forall is_byte (Ref.hash160 x).
Proof. apply digest_bytes. Qed.

Lemma bytesOfString_stringOfBytes (l : list Z) :
  Forall is_byte l -> Ref.bytesOfString (Ref.stringOfBytes l) = l.
Proof.
  intros Hl. unfold Ref.bytesOfString, Ref.stringOfBytes.
  rewrite list_ascii_of_string_of_list_ascii, map_map.
  induction Hl as [|b l Hb Hl IH]; [reflexivity|].
  cbn [map]. rewrite IH. f_equal.
  rewrite N_ascii_embedding.
  - apply Z2N.id. unfold is_byte in Hb. lia.
  - unfold is_byte in Hb. lia.
Qed.

Lemma fromBase58Check_toBase58Check (data : list Z) (p : Z) :
  Forall is_byte (p :: data) ->
  Ref.fromBase58Check (Ref.toBase58Check data [p]) = Some ([p], data).
Proof.
  intros H. unfold Ref.fromBase58Check, Ref.toBase58Check.
  now rewrite bytesOfString_stringOfBytes.
Qed.

Lemma toBase58Check_not_empty (data : list Z) (p : Z) :
  Ref.toBase58Check data [p] <> EmptyString.
Proof. unfold Ref.toBase58Check, Ref.stringOfBytes. cbn. discriminate. Qed.

End RefFacts.

(** * The template run on the reference instance *)

Local Abbreviation ref_lock :=
  (lock Ref.PublicKey Ref.toDER Ref.hash160 Ref.fromBase58Check).
Local Abbreviation ref_address :=
  (address Ref.PublicKey Ref.toDER Ref.hash160 Ref.toBase58Check).
Local Abbreviation ref_decode := (thresholdAndTotalFromAddress Ref.fromBase58Check).
Local Abbreviation ref_sign :=
  (sign Ref.PublicKey Ref.toDER Ref.pubkeyFromString Ref.hash256 Ref.format
     Ref.Wallet Ref.createSignature Ref.toChecksigFormat).
Local Abbreviation ref_signatureChunk :=
  (signatureChunk Ref.hash256 Ref.format Ref.Wallet Ref.createSignature
     Ref.toChecksigFormat).
Local Abbreviation ref_hash keys :=
  (Ref.hash160 (concatPubkeys Ref.PublicKey Ref.toDER keys)).
(** Three keys, the address of 2-of-3 over them, and a transaction whose
    input 0 spends output 0 of a source transaction locked to it. *)
Local Abbreviation keys3 := [Ref.key1; Ref.key2; Ref.key1].
Local Abbreviation address3 :=
  (match ref_address keys3 2 with Ok a => a | Err _ => EmptyString end).
Local Abbreviation script3 := (specLockingScript (ref_hash keys3) 2 3).
Local Abbreviation source3 sat :=
  (mkSource "aa" [mkOutput sat (Some script3)]).
Local Abbreviation input3 sat := (mkInput (Some (source3 sat)) None 0 None).
Local Abbreviation tx3 sat := (mkTransaction 1 [input3 sat] [] 0).
Local Abbreviation instructions2 :=
  (mkInstructions "key" "anyone" ["k1"%string; "k2"%string]).

(** C1, on three keys with threshold 2, by key list and by address. *)
Lemma lock_emits_spec_sequence_witness :
  (truthy None = None /\ 2 <= Z.of_nat (length keys3) <= 10
   /\ 1 <= 2 <= Z.of_nat (length keys3)
   /\ address3 <> EmptyString
   /\ ref_decode address3 = Ok (mkCommitment (ref_hash keys3) (Num 2) (Num 3)))
  /\ ref_lock None (Some keys3) (Some 2) = Ok script3
  /\ (length (ref_hash keys3) = 20%nat
      /\ ref_lock (Some address3) None None = Ok script3).
Proof.
  assert (H2 : 2 <= Z.of_nat (length keys3) <= 10) by (cbn; lia).
  assert (H3 : 1 <= 2 <= Z.of_nat (length keys3)) by (cbn; lia).
  assert (H4 : address3 <> EmptyString) by (vm_compute; discriminate).
  assert (H5 : ref_decode address3
               = Ok (mkCommitment (ref_hash keys3) (Num 2) (Num 3)))
    by (vm_compute; reflexivity).
  split; [repeat split; try assumption; lia|]. split.
  - exact (proj1 (lock_emits_spec_sequence Ref.PublicKey Ref.toDER Ref.hash160
                    Ref.fromBase58Check RefFacts.hash160_length)
             None keys3 2 eq_refl H2 H3).
  - exact (proj2 (lock_emits_spec_sequence Ref.PublicKey Ref.toDER Ref.hash160
                    Ref.fromBase58Check RefFacts.hash160_length)
             address3 (ref_hash keys3) 2 3 None None H4 H5
             ltac:(lia) ltac:(lia)).
Defined.

(** C5, on three keys with threshold 2. *)
Lemma decodeCommitment_of_lock_witness :
  (2 <= Z.of_nat (length keys3) <= 10 /\ 1 <= 2 <= Z.of_nat (length keys3))
  /\ exists s, ref_lock None (Some keys3) (Some 2) = Ok s
               /\ decodeCommitment s = Ok (2, 3).
Proof.
  assert (H2 : 2 <= Z.of_nat (length keys3) <= 10) by (cbn; lia).
  assert (H3 : 1 <= 2 <= Z.of_nat (length keys3)) by (cbn; lia).
  split; [split; assumption|].
  exact (decodeCommitment_of_lock Ref.PublicKey Ref.toDER Ref.hash160
           Ref.fromBase58Check RefFacts.hash160_length keys3 2 H2 H3).
Defined.

(** C3, on an input that spends a 2-of-3 output: 1 + 2 * 74 + 3 * 34. *)
Lemma estimateLength_formula_witness :
  let c := unlock Ref.Wallet 7 instructions2 None None None None None in
  (ref_lock None (Some keys3) (Some 2) = Ok script3
   /\ js_index (inputs (tx3 (Some 5))) 0 = Some (input3 (Some 5))
   /\ lockingScript (mkOutput (Some 5) (Some script3)) = Some script3)
  /\ decodeCommitment script3 = Ok (2, 3)
  /\ estimateLength Ref.Wallet (tx3 (Some 5)) 0 c = (Ok 251, c).
Proof.
  intros c.
  assert (H1 : ref_lock None (Some keys3) (Some 2) = Ok script3)
    by (vm_compute; reflexivity).
  split; [repeat split; assumption|].
  exact (estimateLength_formula Ref.PublicKey Ref.toDER Ref.hash160
           Ref.fromBase58Check Ref.Wallet RefFacts.hash160_length keys3 2 script3
           (tx3 (Some 5)) 0 (input3 (Some 5)) (source3 (Some 5))
           (mkOutput (Some 5) (Some script3)) c
           ltac:(cbn; lia) ltac:(cbn; lia) H1 eq_refl eq_refl eq_refl eq_refl).
Defined.

(** C10, on an input that names its source by txid only, with a locking
    script passed to [unlock]. *)
Lemma estimateLength_without_source_witness :
  let tx := mkTransaction 1 [mkInput None (Some "aa"%string) 0 None] [] 0 in
  let c := unlock Ref.Wallet 7 instructions2 None None None (Some 5)
             (Some script3) in
  (js_index (inputs tx) 0 = Some (mkInput None (Some "aa"%string) 0 None)
   /\ arg_lockingScript Ref.Wallet c = Some script3)
  /\ estimateLength Ref.Wallet tx 0 c = (Ok 1000, c).
Proof.
  intros tx c. split; [split; reflexivity|].
  exact (estimateLength_without_source Ref.Wallet 7 instructions2 None None None
           (Some 5) (Some script3) tx 0 (mkInput None (Some "aa"%string) 0 None)
           eq_refl eq_refl).
Defined.

(** C4, on three keys with threshold 2. *)
Lemma decode_address_witness :
  (2 <= Z.of_nat (length keys3) <= 10 /\ 1 <= 2 <= Z.of_nat (length keys3))
  /\ exists a, ref_address keys3 2 = Ok a
               /\ ref_decode a
                  = Ok (mkCommitment (Ref.hash160 (concat (map Ref.toDER keys3)))
                          (Num 2) (Num 3)).
Proof.
  assert (H2 : 2 <= Z.of_nat (length keys3) <= 10) by (cbn; lia).
  assert (H3 : 1 <= 2 <= Z.of_nat (length keys3)) by (cbn; lia).
  split; [split; assumption|].
  exact (decode_address Ref.PublicKey Ref.toDER Ref.hash160 Ref.toBase58Check
           Ref.fromBase58Check RefFacts.hash160_length RefFacts.hash160_bytes
           RefFacts.fromBase58Check_toBase58Check RefFacts.toBase58Check_not_empty
           keys3 2 H2 H3).
Defined.

(** C6 as claimed fails: with one key and threshold 0 the threshold is out
    of range, and the error is the insufficient-keys one; with eleven keys
    and threshold 0 the error is the threshold one, not the
    too-many-participants one. *)
Lemma lock_failures_counterexample :
  (0 < 1
   /\ ref_lock None (Some [Ref.key1]) (Some 0) = Err InsufficientKeys
   /\ ref_lock None (Some [Ref.key1]) (Some 0) <> Err ThresholdOutOfRange)
  /\ (10 < Z.of_nat (length (repeat Ref.key1 11))
      /\ ref_lock None (Some (repeat Ref.key1 11)) (Some 0) = Err ThresholdOutOfRange
      /\ ref_lock None (Some (repeat Ref.key1 11)) (Some 0) <> Err TooManyParticipants).
Proof.
  repeat split; try (vm_compute; reflexivity); try lia; vm_compute; discriminate.
Qed.

(** C6 as amended, on one key, on two keys with thresholds 0 and 3, and on
    eleven keys with threshold 3. *)
Lemma lock_failures_witness :
  ref_lock None (Some [Ref.key1]) (Some 0) = Err InsufficientKeys
  /\ ref_lock None (Some [Ref.key1; Ref.key2]) (Some 0) = Err ThresholdOutOfRange
  /\ ref_lock None (Some [Ref.key1; Ref.key2]) (Some 3) = Err ThresholdOutOfRange
  /\ ref_lock None (Some (repeat Ref.key1 11)) (Some 3) = Err TooManyParticipants.
Proof.
  split; [|split; [|split]].
  - apply (proj1 (lock_failures Ref.PublicKey Ref.toDER Ref.hash160
                    Ref.fromBase58Check [Ref.key1] 0)). cbn. lia.
  - apply (proj1 (proj2 (lock_failures Ref.PublicKey Ref.toDER Ref.hash160
                           Ref.fromBase58Check [Ref.key1; Ref.key2] 0)));
      cbn; lia.
  - apply (proj1 (proj2 (lock_failures Ref.PublicKey Ref.toDER Ref.hash160
                           Ref.fromBase58Check [Ref.key1; Ref.key2] 3)));
      cbn; lia.
  - apply (proj2 (proj2 (lock_failures Ref.PublicKey Ref.toDER Ref.hash160
                           Ref.fromBase58Check (repeat Ref.key1 11) 3)));
      cbn; lia.
Defined.

(** C7 as claimed fails: [address] accepts eleven keys, and the address
    decodes to a total of 11. *)
Lemma address_invariant_counterexample :
  exists a, ref_address (repeat Ref.key1 11) 1 = Ok a
            /\ ref_decode a
               = Ok (mkCommitment (ref_hash (repeat Ref.key1 11)) (Num 1) (Num 11))
            /\ ~ 11 <= 10.
Proof.
  eexists. split; [vm_compute; reflexivity|]. split; [vm_compute; reflexivity | lia].
Qed.

(** C7 as amended, on three keys with threshold 2 and on eleven keys. *)
Lemma address_invariant_witness :
  (Z.of_nat (length keys3) < 2 ^ 32 /\ ref_address keys3 2 = Ok address3)
  /\ (ref_decode address3 = Ok (mkCommitment (ref_hash keys3) (Num 2) (Num 3))
      /\ 1 <= 2 /\ 2 <= Z.of_nat (length keys3) /\ 2 <= Z.of_nat (length keys3)
      /\ (10 < Z.of_nat (length keys3) ->
          forall pubkeys threshold,
            ref_lock (Some address3) pubkeys threshold = Err TooManyParticipants)).
Proof.
  assert (H1 : Z.of_nat (length keys3) < 2 ^ 32) by (cbn; lia).
  assert (H2 : ref_address keys3 2 = Ok address3) by (vm_compute; reflexivity).
  split; [split; assumption|].
  exact (address_invariant Ref.PublicKey Ref.toDER Ref.hash160 Ref.toBase58Check
           Ref.fromBase58Check RefFacts.hash160_length RefFacts.hash160_bytes
           RefFacts.fromBase58Check_toBase58Check RefFacts.toBase58Check_not_empty
           keys3 2 address3 H1 H2).
Defined.

(** C8 as claimed fails: the writer pushes -5, a value outside 1-16, as
    the data byte 0x85, which is read as 133; and 0, also outside 1-16, is
    not pushed as data at all but written as [OP_0], which is read as -80. *)
Lemma numberFromScriptChunk_counterexample :
  (writeNumber (Num (-5)) [] = Ok [mkChunk 1 (Some [133])]
   /\ numberFromScriptChunk (mkChunk 1 (Some [133])) = Ok 133
   /\ 133 <> -5)
  /\ (writeNumber (Num 0) [] = Ok [opChunk OP.OP_0]
      /\ numberFromScriptChunk (opChunk OP.OP_0) = Ok (-80)).
Proof. repeat split; try (vm_compute; reflexivity). lia. Qed.

(** C8 as amended, on 7 (an opcode) and on 33 and 300 (push-data). *)
Lemma numberFromScriptChunk_reads_written_witness :
  (1 <= 7 <= 16 /\ 17 <= 33 < 2 ^ 53 /\ 17 <= 300 < 2 ^ 53)
  /\ (writeNumber (Num 7) [] = Ok ([] ++ [opChunk (OP.OP_1 + 7 - 1)])
      /\ numberFromScriptChunk (opChunk (OP.OP_1 + 7 - 1)) = Ok 7)
  /\ (exists c d, writeNumber (Num 33) [] = Ok ([] ++ [c])
                  /\ data c = Some d /\ op c = Z.of_nat (length d)
                  /\ numberFromScriptChunk c = Ok 33)
  /\ (exists c d, writeNumber (Num 300) [] = Ok ([] ++ [c])
                  /\ data c = Some d /\ op c = Z.of_nat (length d)
                  /\ numberFromScriptChunk c = Ok 300).
Proof.
  split; [lia|]. split; [|split].
  - apply (proj1 (numberFromScriptChunk_reads_written 7 [])). lia.
  - apply (proj2 (numberFromScriptChunk_reads_written 33 [])). lia.
  - apply (proj2 (numberFromScriptChunk_reads_written 300 [])). lia.
Defined.

(** A script under construction with one signature, the closures of a
    second signer who continues it and of a first signer who starts, and
    what [sign] returns to each. *)
Local Abbreviation sig1 := (mkChunk 2 (Some [9; 65])).
Local Abbreviation pushes2 := [mkChunk 2 (Some [107; 49]); mkChunk 2 (Some [107; 50])].
Local Abbreviation continuing :=
  (unlock Ref.Wallet 8 instructions2 (Some (opChunk OP.OP_0 :: [sig1] ++ pushes2))
     None None None None).
Local Abbreviation starting sat :=
  (unlock Ref.Wallet 7 instructions2 None None None sat None).
Local Abbreviation returned r :=
  (match fst r with Ok s => s | Err _ => [] end).

(** C2, on a second signature and on a first one. *)
Lemma sign_inserts_before_pubkeys_witness :
  let r2 := ref_sign (tx3 (Some 5)) 0 continuing in
  let r1 := ref_sign (tx3 (Some 5)) 0 (starting None) in
  (r2 = (Ok (returned r2), snd r2) /\ r1 = (Ok (returned r1), snd r1)
   /\ length pushes2 = length (pubkeys instructions2))
  /\ (exists sig,
         ref_signatureChunk (tx3 (Some 5)) 0 continuing (snd r2) sig
         /\ returned r2 = opChunk OP.OP_0 :: [sig1] ++ sig :: pushes2
         /\ workingUnlockingScript Ref.Wallet (snd r2) = Some (returned r2))
  /\ (exists pks sig,
         Forall2 (pubkeyChunk Ref.PublicKey Ref.toDER Ref.pubkeyFromString)
           (pubkeys instructions2) pks
         /\ ref_signatureChunk (tx3 (Some 5)) 0 (starting None) (snd r1) sig
         /\ returned r1 = opChunk OP.OP_0 :: sig :: pks
         /\ workingUnlockingScript Ref.Wallet (snd r1) = Some (returned r1)).
Proof.
  intros r2 r1.
  assert (H2 : r2 = (Ok (returned r2), snd r2)) by (vm_compute; reflexivity).
  assert (H1 : r1 = (Ok (returned r1), snd r1)) by (vm_compute; reflexivity).
  split; [repeat split; assumption|]. split.
  - exact (proj1 (sign_inserts_before_pubkeys Ref.PublicKey Ref.toDER
                    Ref.pubkeyFromString Ref.hash256 Ref.format Ref.Wallet
                    Ref.createSignature Ref.toChecksigFormat (tx3 (Some 5)) 0
                    continuing (snd r2) (returned r2) H2)
             [sig1] pushes2 eq_refl eq_refl).
  - exact (proj2 (sign_inserts_before_pubkeys Ref.PublicKey Ref.toDER
                    Ref.pubkeyFromString Ref.hash256 Ref.format Ref.Wallet
                    Ref.createSignature Ref.toChecksigFormat (tx3 (Some 5)) 0
                    (starting None) (snd r1) (returned r1) H1)
             eq_refl).
Defined.

(** C9, on a source output of 0 satoshis and on an explicit argument of 0
    for an input named by its txid only. *)
Lemma sign_zero_satoshis_witness :
  let bare := mkInput None (Some "aa"%string) 0 None in
  (fst (initWorkingUnlockingScript Ref.PublicKey Ref.toDER Ref.pubkeyFromString
          Ref.Wallet (starting None)) = Ok tt
   /\ resolveSourceTXID (input3 (Some 0)) = Ok (Some "aa"%string)
   /\ "aa"%string <> EmptyString
   /\ sourceOutput (input3 (Some 0)) = Ok (Some (mkOutput (Some 0) (Some script3)))
   /\ sourceSatoshis Ref.Wallet (starting (Some 0)) = Some 0
   /\ sourceOutput bare = Ok None)
  /\ fst (ref_sign (tx3 (Some 0)) 0 (starting None)) = Err MissingSourceSatoshis
  /\ fst (ref_sign (mkTransaction 1 [bare] [] 0) 0 (starting (Some 0)))
     = Err MissingSourceSatoshis.
Proof.
  intros bare.
  assert (Hne : "aa"%string <> EmptyString) by discriminate.
  split; [repeat split; assumption|]. split.
  - exact (sign_zero_satoshis Ref.PublicKey Ref.toDER Ref.pubkeyFromString
             Ref.hash256 Ref.format Ref.Wallet Ref.createSignature
             Ref.toChecksigFormat (tx3 (Some 0)) 0 (starting None)
             (input3 (Some 0)) "aa"%string (Some (mkOutput (Some 0) (Some script3)))
             eq_refl eq_refl eq_refl Hne (or_intror eq_refl) eq_refl
             (or_introl eq_refl)).
  - exact (sign_zero_satoshis Ref.PublicKey Ref.toDER Ref.pubkeyFromString
             Ref.hash256 Ref.format Ref.Wallet Ref.createSignature
             Ref.toChecksigFormat (mkTransaction 1 [bare] [] 0) 0
             (starting (Some 0)) bare "aa"%string None
             eq_refl eq_refl eq_refl Hne (or_introl eq_refl) eq_refl I).
Defined.

(** ** Two rounds of signing, and the earlier revision, on concrete data *)

(** The second signer continues from what the first one returned: the
    signatures stand in signing order before the public keys. *)
Example two_rounds :
  let r1 := ref_sign (tx3 (Some 5)) 0 (starting None) in
  let c2 := unlock Ref.Wallet 8 instructions2 (Some (returned r1)) None None
              None None in
  let r2 := ref_sign (tx3 (Some 5)) 0 c2 in
  fst r2 = Ok [opChunk OP.OP_0;
               mkChunk 34 (Some (7 :: Ref.hash256 [0; 5; 65] ++ [65]));
               mkChunk 34 (Some (8 :: Ref.hash256 [0; 5; 65] ++ [65]));
               mkChunk 2 (Some [107; 49]); mkChunk 2 (Some [107; 50])].
Proof. vm_compute. reflexivity. Qed.

(** The older [lock] builds a script for eleven keys, and one for a
    threshold of 0; the current [lock] raises on both. *)
Example legacy_lock_unchecked :
  (exists s, legacy_lock Ref.PublicKey Ref.toDER Ref.hash160 Ref.fromBase58Check
               None (Some (repeat Ref.key1 11)) (Some 3) = Ok s)
  /\ (exists s, legacy_lock Ref.PublicKey Ref.toDER Ref.hash160 Ref.fromBase58Check
                  None (Some [Ref.key1; Ref.key2]) (Some 0) = Ok s).
Proof. split; eexists; vm_compute; reflexivity. Qed.

(** On the 2-of-3 script the older estimate is 28 + 2 * 34 + 2 * 73, the
    current one 1 + 2 * 74 + 3 * 34. *)
Example legacy_estimateLength_value :
  legacy_estimateLength script3 = Ok 242
  /\ fst (estimateLength Ref.Wallet (tx3 (Some 5)) 0 (starting None)) = Ok 251.
Proof. split; vm_compute; reflexivity. Qed.

(** * The further properties on the reference instance *)

Local Abbreviation ref_addressBRC29 :=
  (addressBRC29 Ref.PublicKey Ref.toDER Ref.pubkeyFromString Ref.hash160
     Ref.toBase58Check Ref.Wallet Ref.pubkeyToString Ref.getPublicKey).
Local Abbreviation ref_init :=
  (initWorkingUnlockingScript Ref.PublicKey Ref.toDER Ref.pubkeyFromString
     Ref.Wallet).
Local Abbreviation ref_legacy_address :=
  (legacy_address Ref.PublicKey Ref.toDER Ref.hash160 Ref.toBase58Check).
Local Abbreviation ref_legacy_lock :=
  (legacy_lock Ref.PublicKey Ref.toDER Ref.hash160 Ref.fromBase58Check).
Local Abbreviation ref_pubkeyChunk :=
  (pubkeyChunk Ref.PublicKey Ref.toDER Ref.pubkeyFromString).
(** A 20-byte hash. *)
Local Abbreviation hash7 := (repeat 7 20).

Lemma hash7_bytes : Forall is_byte hash7.
Proof.
  apply Forall_forall. intros b Hb. apply repeat_spec in Hb. subst b.
  unfold is_byte. lia.
Qed.

Lemma byte_cons (p : Z) (l : list Z) :
  0 <= p < 256 -> Forall is_byte l -> Forall is_byte (p :: l).
Proof. intros Hp Hl. constructor; assumption. Qed.

(** X2, on three keys with threshold 2. *)
Lemma address_payload_witness :
  (2 <= Z.of_nat (length keys3) <= 252 /\ 1 <= 2 <= Z.of_nat (length keys3))
  /\ ref_address keys3 2
     = Ok (Ref.toBase58Check
             (Ref.hash160 (concat (map Ref.toDER keys3))
              ++ [2; Z.of_nat (length keys3)]) [152])
  /\ length (Ref.hash160 (concat (map Ref.toDER keys3))
             ++ [2; Z.of_nat (length keys3)]) = 22%nat.
Proof.
  assert (H2 : 2 <= Z.of_nat (length keys3) <= 252) by (cbn; lia).
  assert (H3 : 1 <= 2 <= Z.of_nat (length keys3)) by (cbn; lia).
  split; [split; assumption|].
  exact (address_payload Ref.PublicKey Ref.toDER Ref.hash160 Ref.toBase58Check
           RefFacts.hash160_length keys3 2 H2 H3).
Defined.

(** X3, on a payload under the prefix byte 0 of a pay-to-pubkey-hash
    address. *)
Lemma wrong_prefix_refused_witness :
  (Forall is_byte (0 :: hash7) /\ 0 <> 152)
  /\ ref_decode (Ref.toBase58Check hash7 [0]) = Err WrongAddressType
  /\ ref_lock (Some (Ref.toBase58Check hash7 [0])) (Some keys3) (Some 2)
     = Err WrongAddressType.
Proof.
  assert (H1 : Forall is_byte (0 :: hash7))
    by (apply byte_cons; [lia | apply hash7_bytes]).
  assert (H2 : 0 <> 152) by discriminate.
  split; [split; assumption|].
  exact (wrong_prefix_refused Ref.PublicKey Ref.toDER Ref.hash160
           Ref.toBase58Check Ref.fromBase58Check
           RefFacts.fromBase58Check_toBase58Check RefFacts.toBase58Check_not_empty
           hash7 0 (Some keys3) (Some 2) H1 H2).
Defined.

(** X4, on a payload of the 20 bytes of the hash alone. *)
Lemma truncated_address_refused_witness :
  (Forall is_byte hash7 /\ (length hash7 <= 20)%nat)
  /\ ref_decode (Ref.toBase58Check hash7 [152])
     = Ok (mkCommitment hash7 Undefined Undefined)
  /\ ref_lock (Some (Ref.toBase58Check hash7 [152])) None None
     = Err ThresholdOutOfRange.
Proof.
  assert (H2 : (length hash7 <= 20)%nat) by (cbn; lia).
  split; [split; [apply hash7_bytes | assumption]|].
  exact (truncated_address_refused Ref.PublicKey Ref.toDER Ref.hash160
           Ref.toBase58Check Ref.fromBase58Check
           RefFacts.fromBase58Check_toBase58Check RefFacts.toBase58Check_not_empty
           hash7 None None hash7_bytes H2).
Defined.

(** X5, on a payload of the hash and the threshold byte 2. *)
Lemma address_without_total_witness :
  (length hash7 = 20%nat /\ Forall is_byte hash7 /\ 1 <= 2 <= 16)
  /\ ref_lock (Some (Ref.toBase58Check (hash7 ++ [2]) [152])) None None
     = Ok [opChunk OP.OP_DUP; opChunk OP.OP_HASH160; mkChunk 20 (Some hash7);
           opChunk OP.OP_EQUALVERIFY; opChunk (OP.OP_1 + 2 - 1); opChunk OP.OP_SWAP;
           opChunk OP.OP_0; opChunk OP.OP_CHECKMULTISIG].
Proof.
  assert (H3 : 1 <= 2 <= 16) by lia.
  split; [split; [reflexivity | split; [apply hash7_bytes | assumption]]|].
  exact (address_without_total Ref.PublicKey Ref.toDER Ref.hash160
           Ref.toBase58Check Ref.fromBase58Check
           RefFacts.fromBase58Check_toBase58Check RefFacts.toBase58Check_not_empty
           hash7 2 None None eq_refl hash7_bytes H3).
Defined.

(** X6, on the address of 2-of-3, passed along with one key and a threshold
    of 9 that are not read. *)
Lemma lock_address_is_lock_keys_witness :
  (Z.of_nat (length keys3) < 2 ^ 32 /\ ref_address keys3 2 = Ok address3)
  /\ ref_lock (Some address3) (Some [Ref.key1]) (Some 9)
     = ref_lock None (Some keys3) (Some 2).
Proof.
  assert (H1 : Z.of_nat (length keys3) < 2 ^ 32) by (cbn; lia).
  assert (H2 : ref_address keys3 2 = Ok address3) by (vm_compute; reflexivity).
  split; [split; assumption|].
  exact (lock_address_is_lock_keys Ref.PublicKey Ref.toDER Ref.hash160
           Ref.toBase58Check Ref.fromBase58Check RefFacts.hash160_length
           RefFacts.hash160_bytes RefFacts.fromBase58Check_toBase58Check
           RefFacts.toBase58Check_not_empty keys3 2 address3 (Some [Ref.key1])
           (Some 9) H1 H2).
Defined.

(** X7, on three keys with threshold 2, and on eleven keys. *)
Lemma lock_keys_succeeds_iff_witness :
  (exists s, ref_lock None (Some keys3) (Some 2) = Ok s)
  /\ ~ (exists s, ref_lock None (Some (repeat Ref.key1 11)) (Some 3) = Ok s).
Proof.
  split.
  - apply (proj2 (lock_keys_succeeds_iff Ref.PublicKey Ref.toDER Ref.hash160
                    Ref.fromBase58Check RefFacts.hash160_length keys3 2)).
    cbn. lia.
  - intros H.
    apply (proj1 (lock_keys_succeeds_iff Ref.PublicKey Ref.toDER Ref.hash160
                    Ref.fromBase58Check RefFacts.hash160_length
                    (repeat Ref.key1 11) 3)) in H.
    cbn in H. lia.
Defined.

(** X8, on two key lists that differ in their second key: the reference
    hash reads the first 20 bytes only, so both give the same script. *)
Lemma lock_determines_commitment_witness :
  (ref_lock None (Some [Ref.key1; Ref.key2]) (Some 2)
   = Ok (specLockingScript (ref_hash [Ref.key1; Ref.key2]) 2 2)
   /\ ref_lock None (Some [Ref.key1; Ref.key1]) (Some 2)
      = Ok (specLockingScript (ref_hash [Ref.key1; Ref.key2]) 2 2))
  /\ 2 = 2
  /\ length [Ref.key1; Ref.key2] = length [Ref.key1; Ref.key1]
  /\ ref_hash [Ref.key1; Ref.key2] = ref_hash [Ref.key1; Ref.key1].
Proof.
  assert (H1 : ref_lock None (Some [Ref.key1; Ref.key2]) (Some 2)
               = Ok (specLockingScript (ref_hash [Ref.key1; Ref.key2]) 2 2))
    by (vm_compute; reflexivity).
  assert (H2 : ref_lock None (Some [Ref.key1; Ref.key1]) (Some 2)
               = Ok (specLockingScript (ref_hash [Ref.key1; Ref.key2]) 2 2))
    by (vm_compute; reflexivity).
  split; [split; assumption|].
  exact (lock_determines_commitment Ref.PublicKey Ref.toDER Ref.hash160
           Ref.fromBase58Check RefFacts.hash160_length
           [Ref.key1; Ref.key2] [Ref.key1; Ref.key1] 2 2
           (specLockingScript (ref_hash [Ref.key1; Ref.key2]) 2 2) H1 H2).
Defined.

(** X10, on a bare multisig tail [OP_2 OP_3 OP_CHECKMULTISIG]. *)
Lemma decodeCommitment_without_equalverify_witness :
  let tail := [opChunk 83; opChunk OP.OP_CHECKMULTISIG] in
  (Forall (fun chunk => op chunk <> OP.OP_EQUALVERIFY) (opChunk 82 :: tail)
   /\ js_index (opChunk 82 :: tail) (Z.of_nat (length (opChunk 82 :: tail)) - 2)
      = Some (opChunk 83))
  /\ decodeCommitment (opChunk 82 :: tail)
     = (numberOfPubkeys <- numberFromScriptChunk (opChunk 83) ;;
        numberOfSignatures <- numberFromScriptChunk (opChunk 82) ;;
        Ok (numberOfSignatures, numberOfPubkeys)).
Proof.
  intros tail.
  assert (H1 : Forall (fun chunk => op chunk <> OP.OP_EQUALVERIFY)
                 (opChunk 82 :: tail))
    by (repeat constructor; discriminate).
  split; [split; [assumption | reflexivity]|].
  exact (decodeCommitment_without_equalverify (opChunk 82) (opChunk 83) tail
           H1 eq_refl).
Defined.

(** A transaction whose input 0 spends a pay-to-pubkey-hash output. *)
Local Abbreviation p2pkh :=
  [opChunk OP.OP_DUP; opChunk OP.OP_HASH160; mkChunk 20 (Some hash7);
   opChunk OP.OP_EQUALVERIFY; opChunk 172].
Local Abbreviation p2pkh_source := (mkSource "cc" [mkOutput (Some 5) (Some p2pkh)]).
Local Abbreviation p2pkh_input := (mkInput (Some p2pkh_source) None 0 None).
Local Abbreviation p2pkh_tx := (mkTransaction 1 [p2pkh_input] [] 0).

(** X11, on that transaction. *)
Lemma estimateLength_on_p2pkh_witness :
  (js_index (inputs p2pkh_tx) 0 = Some p2pkh_input
   /\ js_index (source_outputs p2pkh_source) (sourceOutputIndex p2pkh_input)
      = Some (mkOutput (Some 5) (Some p2pkh)))
  /\ estimateLength Ref.Wallet p2pkh_tx 0 (starting None)
     = (Ok 8713, starting None).
Proof.
  split; [split; reflexivity|].
  exact (estimateLength_on_p2pkh Ref.Wallet hash7 p2pkh_tx 0 p2pkh_input
           p2pkh_source (mkOutput (Some 5) (Some p2pkh)) (starting None)
           eq_refl eq_refl eq_refl eq_refl).
Defined.

(** X12, on the 2-of-3 output, for an unlocking script with one signature
    and the three keys. *)
Lemma estimate_bounds_unlocking_script_witness :
  let pks := map (fun key => mkChunk 33 (Some key)) keys3 in
  (ref_lock None (Some keys3) (Some 2) = Ok script3
   /\ Z.of_nat (length [sig1]) <= 2 /\ length pks = length keys3)
  /\ exists e, estimateLength Ref.Wallet (tx3 (Some 5)) 0 (starting None)
               = (Ok e, starting None)
               /\ binaryLength (opChunk OP.OP_0 :: [sig1] ++ pks) <= e.
Proof.
  intros pks.
  assert (H1 : ref_lock None (Some keys3) (Some 2) = Ok script3)
    by (vm_compute; reflexivity).
  assert (H2 : Forall (fun c => exists b, binChunk b = Ok c
                                          /\ Z.of_nat (length b) <= 73) [sig1]).
  { constructor; [|constructor]. exists [9; 65]. split; [reflexivity | cbn; lia]. }
  assert (H3 : Forall (fun c => exists b, binChunk b = Ok c
                                          /\ Z.of_nat (length b) <= 33) pks).
  { repeat constructor.
    - exists Ref.key1. split; [reflexivity | cbn; lia].
    - exists Ref.key2. split; [reflexivity | cbn; lia].
    - exists Ref.key1. split; [reflexivity | cbn; lia]. }
  assert (H4 : Z.of_nat (length [sig1]) <= 2) by (cbn; lia).
  split; [repeat split; assumption|].
  exact (estimate_bounds_unlocking_script Ref.PublicKey Ref.toDER Ref.hash160
           Ref.fromBase58Check Ref.Wallet RefFacts.hash160_length keys3 2 script3
           (tx3 (Some 5)) 0 (input3 (Some 5)) (source3 (Some 5))
           (mkOutput (Some 5) (Some script3)) (starting None) [sig1] pks
           H1 eq_refl eq_refl eq_refl eq_refl H2 H3 H4 eq_refl).
Defined.

(** Instructions whose second key is the empty text, which does not parse. *)
Local Abbreviation instructions_bad :=
  (mkInstructions "key" "anyone" ["k1"%string; EmptyString; "k2"%string]).

(** X13, on these instructions. *)
Lemma sign_invalid_pubkey_witness :
  let c := unlock Ref.Wallet 7 instructions_bad None None None None None in
  (Forall2 ref_pubkeyChunk ["k1"%string] [mkChunk 2 (Some [107; 49])]
   /\ Ref.pubkeyFromString EmptyString = None)
  /\ fst (ref_sign (tx3 (Some 5)) 0 c) = Err SdkError
  /\ workingUnlockingScript Ref.Wallet (snd (ref_sign (tx3 (Some 5)) 0 c))
     = Some [opChunk OP.OP_0; mkChunk 2 (Some [107; 49])].
Proof.
  intros c.
  assert (H1 : Forall2 ref_pubkeyChunk ["k1"%string] [mkChunk 2 (Some [107; 49])]).
  { constructor; [|constructor]. exists [107; 49]. split; reflexivity. }
  split; [split; [assumption | reflexivity]|].
  exact (sign_invalid_pubkey Ref.PublicKey Ref.toDER Ref.pubkeyFromString
           Ref.hash256 Ref.format Ref.Wallet Ref.createSignature
           Ref.toChecksigFormat (tx3 (Some 5)) 0 c ["k1"%string] ["k2"%string]
           EmptyString [mkChunk 2 (Some [107; 49])] eq_refl eq_refl H1 eq_refl).
Defined.

(** X14, on a source output of 0 satoshis: for a signer who continues a
    script, and for one who starts. *)
Lemma sign_failure_leaves_script_witness :
  (fst (ref_sign (tx3 (Some 0)) 0 continuing) = Err MissingSourceSatoshis
   /\ fst (ref_sign (tx3 (Some 0)) 0 (starting None)) = Err MissingSourceSatoshis
   /\ fst (ref_init (starting None)) = Ok tt)
  /\ workingUnlockingScript Ref.Wallet (snd (ref_sign (tx3 (Some 0)) 0 continuing))
     = Some (opChunk OP.OP_0 :: [sig1] ++ pushes2)
  /\ exists pks,
       Forall2 ref_pubkeyChunk (pubkeys instructions2) pks
       /\ workingUnlockingScript Ref.Wallet
            (snd (ref_sign (tx3 (Some 0)) 0 (starting None)))
          = Some (opChunk OP.OP_0 :: pks).
Proof.
  assert (H1 : fst (ref_sign (tx3 (Some 0)) 0 continuing)
               = Err MissingSourceSatoshis) by (vm_compute; reflexivity).
  assert (H2 : fst (ref_sign (tx3 (Some 0)) 0 (starting None))
               = Err MissingSourceSatoshis) by (vm_compute; reflexivity).
  assert (H3 : fst (ref_init (starting None)) = Ok tt) by (vm_compute; reflexivity).
  split; [repeat split; assumption|]. split.
  - exact (proj1 (sign_failure_leaves_script Ref.PublicKey Ref.toDER
                    Ref.pubkeyFromString Ref.hash256 Ref.format Ref.Wallet
                    Ref.createSignature Ref.toChecksigFormat (tx3 (Some 0)) 0
                    continuing MissingSourceSatoshis H1)
             (opChunk OP.OP_0 :: [sig1] ++ pushes2) eq_refl).
  - exact (proj2 (sign_failure_leaves_script Ref.PublicKey Ref.toDER
                    Ref.pubkeyFromString Ref.hash256 Ref.format Ref.Wallet
                    Ref.createSignature Ref.toChecksigFormat (tx3 (Some 0)) 0
                    (starting None) MissingSourceSatoshis H2)
             eq_refl H3).
Defined.

(** X15, on an input index of 5 in a transaction of one input, and on an
    input whose source txid is the empty text. *)
Lemma sign_missing_input_or_txid_witness :
  let anonymous := mkInput None (Some EmptyString) 0 None in
  (fst (ref_init (starting (Some 5))) = Ok tt
   /\ js_index (inputs (tx3 (Some 5))) 5 = None)
  /\ fst (ref_sign (tx3 (Some 5)) 5 (starting (Some 5))) = Err TypeError
  /\ fst (ref_sign (mkTransaction 1 [anonymous] [] 0) 0 (starting (Some 5)))
     = Err MissingSourceTXID.
Proof.
  intros anonymous.
  assert (H1 : fst (ref_init (starting (Some 5))) = Ok tt)
    by (vm_compute; reflexivity).
  split; [split; [assumption | reflexivity]|]. split.
  - exact (proj1 (sign_missing_input_or_txid Ref.PublicKey Ref.toDER
                    Ref.pubkeyFromString Ref.hash256 Ref.format Ref.Wallet
                    Ref.createSignature Ref.toChecksigFormat (tx3 (Some 5)) 5
                    (starting (Some 5)) H1)
             eq_refl).
  - exact (proj2 (sign_missing_input_or_txid Ref.PublicKey Ref.toDER
                    Ref.pubkeyFromString Ref.hash256 Ref.format Ref.Wallet
                    Ref.createSignature Ref.toChecksigFormat
                    (mkTransaction 1 [anonymous] [] 0) 0 (starting (Some 5)) H1)
             anonymous eq_refl (or_intror eq_refl) eq_refl).
Defined.

(** X16, on an input named by its txid only, with 5 satoshis passed to
    [unlock]; and on an input that does not name its txid and whose source
    transaction has an output without locking script. *)
Lemma sign_missing_lockingScript_witness :
  let bare := mkInput None (Some "aa"%string) 0 None in
  let empty := mkOutput (Some 5) None in
  let unnamed := mkInput (Some (mkSource "dd" [empty])) None 0 None in
  (fst (ref_init (starting (Some 5))) = Ok tt
   /\ resolveSourceTXID bare = Ok (Some "aa"%string)
   /\ "aa"%string <> EmptyString
   /\ sourceSatoshis Ref.Wallet (starting (Some 5)) = Some 5 /\ 5 <> 0
   /\ arg_lockingScript Ref.Wallet (starting (Some 5)) = None
   /\ sourceOutput bare = Ok None
   /\ truthy (sourceTXID unnamed) = None
   /\ In empty (source_outputs (mkSource "dd" [empty])))
  /\ fst (ref_sign (mkTransaction 1 [bare] [] 0) 0 (starting (Some 5)))
     = Err MissingLockingScript
  /\ fst (ref_sign (mkTransaction 1 [unnamed] [] 0) 0 (starting (Some 5)))
     = Err TypeError.
Proof.
  intros bare empty unnamed.
  assert (H1 : fst (ref_init (starting (Some 5))) = Ok tt)
    by (vm_compute; reflexivity).
  assert (H2 : 5 <> 0) by discriminate.
  assert (H3 : "aa"%string <> EmptyString) by discriminate.
  assert (H4 : In empty (source_outputs (mkSource "dd" [empty]))) by now left.
  split; [repeat split; assumption|]. split.
  - exact (proj1 (sign_missing_lockingScript Ref.PublicKey Ref.toDER
                    Ref.pubkeyFromString Ref.hash256 Ref.format Ref.Wallet
                    Ref.createSignature Ref.toChecksigFormat
                    (mkTransaction 1 [bare] [] 0) 0 (starting (Some 5)) bare
                    H1 eq_refl)
             "aa"%string 5 None eq_refl H3 eq_refl H2 eq_refl eq_refl I).
  - exact (proj2 (sign_missing_lockingScript Ref.PublicKey Ref.toDER
                    Ref.pubkeyFromString Ref.hash256 Ref.format Ref.Wallet
                    Ref.createSignature Ref.toChecksigFormat
                    (mkTransaction 1 [unnamed] [] 0) 0 (starting (Some 5)) unnamed
                    H1 eq_refl)
             (mkSource "dd" [empty]) empty eq_refl eq_refl H4 eq_refl).
Defined.

(** The signature the reference wallet 8 gives on input 0 of the 2-of-3
    spend of 5 satoshis, and its push. *)
Local Abbreviation signature8 := (8 :: Ref.hash256 [0; 5; 65]).
Local Abbreviation chunk8 := (mkChunk 34 (Some (signature8 ++ [65]))).

(** X17, on a second signer who continues a script with one signature. *)
Lemma sign_succeeds_witness :
  let w := opChunk OP.OP_0 :: [sig1] ++ pushes2 in
  let s := splice_insert w
             (Z.of_nat (length w) - Z.of_nat (length (pubkeys instructions2)))
             chunk8 in
  (js_index (inputs (tx3 (Some 5))) 0 = Some (input3 (Some 5))
   /\ resolveSourceTXID (input3 (Some 5)) = Ok (Some "aa"%string)
   /\ "aa"%string <> EmptyString
   /\ sourceOutput (input3 (Some 5)) = Ok (Some (mkOutput (Some 5) (Some script3)))
   /\ Ref.toChecksigFormat signature8 65 = Some (signature8 ++ [65])
   /\ binChunk (signature8 ++ [65]) = Ok chunk8)
  /\ exists c', ref_sign (tx3 (Some 5)) 0 continuing = (Ok s, c')
                /\ workingUnlockingScript Ref.Wallet c' = Some s
                /\ sourceSatoshis Ref.Wallet c' = Some 5
                /\ arg_lockingScript Ref.Wallet c' = Some script3.
Proof.
  intros w s.
  assert (H1 : binChunk (signature8 ++ [65]) = Ok chunk8)
    by (vm_compute; reflexivity).
  assert (Hne : "aa"%string <> EmptyString) by discriminate.
  split; [repeat split; assumption|].
  exact (sign_succeeds Ref.PublicKey Ref.toDER Ref.pubkeyFromString Ref.hash256
           Ref.format Ref.Wallet Ref.createSignature Ref.toChecksigFormat
           (tx3 (Some 5)) 0 continuing w (input3 (Some 5)) "aa"%string
           (Some (mkOutput (Some 5) (Some script3))) 5 script3 signature8
           (signature8 ++ [65]) chunk8
           eq_refl eq_refl eq_refl Hne eq_refl eq_refl eq_refl eq_refl eq_refl H1).
Defined.

(** X18, on the same call: the new chunk stands at position 2 of 5. *)
Lemma sign_keeps_chunks_witness :
  let w := opChunk OP.OP_0 :: [sig1] ++ pushes2 in
  let r := ref_sign (tx3 (Some 5)) 0 continuing in
  r = (Ok (returned r), snd r)
  /\ exists sig, returned r = firstn 2 w ++ sig :: skipn 2 w
                 /\ length (returned r) = S (length w).
Proof.
  intros w r.
  assert (H1 : r = (Ok (returned r), snd r)) by (vm_compute; reflexivity).
  split; [assumption|].
  exact (sign_keeps_chunks Ref.PublicKey Ref.toDER Ref.pubkeyFromString
           Ref.hash256 Ref.format Ref.Wallet Ref.createSignature
           Ref.toChecksigFormat (tx3 (Some 5)) 0 continuing (snd r) w (returned r)
           eq_refl H1).
Defined.

(** X19, on wallet 7 who starts and wallet 8 who continues. *)
Lemma sign_hand_off_witness :
  let r1 := ref_sign (tx3 (Some 5)) 0 (starting None) in
  let d := unlock Ref.Wallet 8 instructions2 (Some (returned r1)) None None
             None None in
  let r2 := ref_sign (tx3 (Some 5)) 0 d in
  (r1 = (Ok (returned r1), snd r1) /\ r2 = (Ok (returned r2), snd r2))
  /\ exists pks sig1 sig2,
       Forall2 ref_pubkeyChunk (pubkeys instructions2) pks
       /\ returned r1 = opChunk OP.OP_0 :: sig1 :: pks
       /\ returned r2 = opChunk OP.OP_0 :: sig1 :: sig2 :: pks
       /\ ref_signatureChunk (tx3 (Some 5)) 0 (starting None) (snd r1) sig1
       /\ ref_signatureChunk (tx3 (Some 5)) 0 d (snd r2) sig2.
Proof.
  intros r1 d r2.
  assert (H1 : r1 = (Ok (returned r1), snd r1)) by (vm_compute; reflexivity).
  assert (H2 : r2 = (Ok (returned r2), snd r2)) by (vm_compute; reflexivity).
  split; [split; assumption|].
  exact (sign_hand_off Ref.PublicKey Ref.toDER Ref.pubkeyFromString Ref.hash256
           Ref.format Ref.Wallet Ref.createSignature Ref.toChecksigFormat
           (tx3 (Some 5)) (tx3 (Some 5)) 0 0 (starting None) (snd r1) d (snd r2)
           (returned r1) (returned r2) eq_refl H1 eq_refl eq_refl H2).
Defined.

(** X20, on an input that names its txid and carries a source transaction
    with other satoshis and another locking script than were passed to
    [unlock]. *)
Lemma sign_ignores_attached_source_witness :
  let c := unlock Ref.Wallet 7 instructions2 None None None (Some 5)
             (Some script3) in
  let input := mkInput (Some p2pkh_source) (Some "bb"%string) 0 None in
  (truthy (sourceTXID input) = Some "bb"%string
   /\ truthyNum (sourceSatoshis Ref.Wallet c) = Some 5
   /\ arg_lockingScript Ref.Wallet c = Some script3)
  /\ ref_sign (mkTransaction 1 ([] ++ [mkInput None (Some "bb"%string) 0 None]) [] 0)
       (Z.of_nat (length (@nil TransactionInput))) c
     = ref_sign (mkTransaction 1 ([] ++ [input]) [] 0)
         (Z.of_nat (length (@nil TransactionInput))) c.
Proof.
  intros c input. split; [repeat split|].
  exact (sign_ignores_attached_source Ref.PublicKey Ref.toDER
           Ref.pubkeyFromString Ref.hash256 Ref.format Ref.Wallet
           Ref.createSignature Ref.toChecksigFormat 1 0 [] [] [] input None c
           "bb"%string 5 script3 eq_refl eq_refl eq_refl).
Defined.

(** What the reference wallet derives for the counterparties ["A"] and
    ["B"]. *)
Local Abbreviation parties := ["A"%string; "B"%string].
Local Abbreviation derived :=
  (match ref_addressBRC29 7 parties "key" 2 with
   | Ok r => r
   | Err _ => ([], EmptyString)
   end).

Lemma derived_keys_parse (counterparty publicKey : string) (key : Ref.PublicKey) :
  In counterparty parties ->
  Ref.getPublicKey 7 "key" counterparty = Some publicKey ->
  Ref.pubkeyFromString publicKey = Some key ->
  Ref.pubkeyFromString (Ref.pubkeyToString key) = Some key
  /\ length (Ref.toDER key) = 33%nat.
Proof.
  intros [<-|[<-|[]]] Hg Hp.
  - injection Hg as <-. vm_compute in Hp. injection Hp as <-.
    split; vm_compute; reflexivity.
  - injection Hg as <-. vm_compute in Hp. injection Hp as <-.
    split; vm_compute; reflexivity.
Qed.

(** X21, on these two counterparties with threshold 2. *)
Lemma addressBRC29_returns_witness :
  ref_addressBRC29 7 parties "key" 2 = Ok (fst derived, snd derived)
  /\ exists keys,
       Forall2 (fun counterparty key =>
                  exists publicKey,
                    Ref.getPublicKey 7 "key" counterparty = Some publicKey
                    /\ Ref.pubkeyFromString publicKey = Some key) parties keys
       /\ fst derived = map Ref.pubkeyToString keys
       /\ length (fst derived) = length parties
       /\ ref_address keys 2 = Ok (snd derived)
       /\ 2 <= Z.of_nat (length parties)
       /\ 1 <= 2 <= Z.of_nat (length parties).
Proof.
  assert (H1 : ref_addressBRC29 7 parties "key" 2 = Ok (fst derived, snd derived))
    by (vm_compute; reflexivity).
  split; [assumption|].
  exact (addressBRC29_returns Ref.PublicKey Ref.toDER Ref.pubkeyFromString
           Ref.hash160 Ref.toBase58Check Ref.Wallet Ref.pubkeyToString
           Ref.getPublicKey 7 parties "key" 2 (fst derived) (snd derived) H1).
Defined.

(** X23, on the same derivation, with the returned keys as the
    instructions of a signer who starts. *)
Lemma derived_keys_match_address_witness :
  let c := unlock Ref.Wallet 7 (mkInstructions "key" "anyone" (fst derived))
             None None None None None in
  (ref_addressBRC29 7 parties "key" 2 = Ok (fst derived, snd derived)
   /\ Z.of_nat (length parties) < 2 ^ 32)
  /\ exists keys c1,
       ref_init c = (Ok tt, c1)
       /\ workingUnlockingScript Ref.Wallet c1
          = Some (opChunk OP.OP_0
                  :: map (fun key => mkChunk 33 (Some (Ref.toDER key))) keys)
       /\ ref_decode (snd derived)
          = Ok (mkCommitment (Ref.hash160 (concat (map Ref.toDER keys))) (Num 2)
                  (Num (Z.of_nat (length keys)))).
Proof.
  intros c.
  assert (H1 : ref_addressBRC29 7 parties "key" 2 = Ok (fst derived, snd derived))
    by (vm_compute; reflexivity).
  assert (H2 : Z.of_nat (length parties) < 2 ^ 32) by (cbn; lia).
  split; [split; assumption|].
  exact (derived_keys_match_address Ref.PublicKey Ref.toDER Ref.pubkeyFromString
           Ref.hash160 Ref.toBase58Check Ref.fromBase58Check Ref.Wallet
           RefFacts.hash160_length RefFacts.hash160_bytes
           RefFacts.fromBase58Check_toBase58Check RefFacts.toBase58Check_not_empty
           Ref.pubkeyToString Ref.getPublicKey 7 parties "key" 2 (fst derived)
           (snd derived) c H1 derived_keys_parse H2 eq_refl eq_refl).
Defined.

(** X24, on an address for 1-of-1. *)
Lemma lock_address_accepts_one_key_witness :
  (length hash7 = 20%nat /\ Forall is_byte hash7 /\ 1 <= 1 <= 1 /\ 1 <= 10)
  /\ ref_lock (Some (Ref.toBase58Check (hash7 ++ [1; 1]) [152])) None None
     = Ok (specLockingScript hash7 1 1).
Proof.
  assert (H3 : 1 <= 1 <= 1) by lia.
  assert (H4 : 1 <= 10) by lia.
  split; [split; [reflexivity | split; [apply hash7_bytes | split; assumption]]|].
  exact (lock_address_accepts_one_key Ref.PublicKey Ref.toDER Ref.hash160
           Ref.toBase58Check Ref.fromBase58Check
           RefFacts.fromBase58Check_toBase58Check RefFacts.toBase58Check_not_empty
           hash7 1 1 None None eq_refl hash7_bytes H3 H4).
Defined.

(** X25, on one key with threshold 0. *)
Lemma legacy_address_unchecked_witness :
  (0 <= 0 < 2 ^ 32 /\ Z.of_nat (length [Ref.key1]) < 2 ^ 32)
  /\ ref_decode (ref_legacy_address [Ref.key1] 0)
     = Ok (mkCommitment (ref_hash [Ref.key1]) (Num 0)
             (Num (Z.of_nat (length [Ref.key1]))))
  /\ ref_lock (Some (ref_legacy_address [Ref.key1] 0)) None None
     = Err ThresholdOutOfRange.
Proof.
  assert (H1 : 0 <= 0 < 2 ^ 32) by lia.
  assert (H2 : Z.of_nat (length [Ref.key1]) < 2 ^ 32) by (cbn; lia).
  split; [split; assumption|]. split.
  - exact (proj1 (legacy_address_unchecked Ref.PublicKey Ref.toDER Ref.hash160
                    Ref.toBase58Check Ref.fromBase58Check RefFacts.hash160_length
                    RefFacts.hash160_bytes RefFacts.fromBase58Check_toBase58Check
                    RefFacts.toBase58Check_not_empty [Ref.key1] 0 None None H1 H2)).
  - exact (proj2 (legacy_address_unchecked Ref.PublicKey Ref.toDER Ref.hash160
                    Ref.toBase58Check Ref.fromBase58Check RefFacts.hash160_length
                    RefFacts.hash160_bytes RefFacts.fromBase58Check_toBase58Check
                    RefFacts.toBase58Check_not_empty [Ref.key1] 0 None None H1 H2)
             eq_refl).
Defined.

(** X26, on one key, on eleven keys with threshold 3, and on two keys with
    threshold 0. *)
Lemma legacy_lock_on_keys_witness :
  ref_legacy_lock None (Some [Ref.key1]) (Some 1) = Err InsufficientKeys
  /\ ref_legacy_lock None (Some (repeat Ref.key1 11)) (Some 3)
     = Ok (specLockingScript (ref_hash (repeat Ref.key1 11)) 3
             (Z.of_nat (length (repeat Ref.key1 11))))
  /\ exists s, ref_legacy_lock None (Some [Ref.key1; Ref.key2]) (Some 0) = Ok s
               /\ In (opChunk OP.OP_0) s.
Proof.
  split; [|split].
  - apply (proj1 (legacy_lock_on_keys Ref.PublicKey Ref.toDER Ref.hash160
                    Ref.fromBase58Check RefFacts.hash160_length [Ref.key1] 1)).
    cbn. lia.
  - apply (proj1 (proj2 (legacy_lock_on_keys Ref.PublicKey Ref.toDER Ref.hash160
                           Ref.fromBase58Check RefFacts.hash160_length
                           (repeat Ref.key1 11) 3))); cbn; lia.
  - eexists. split.
    + apply (proj2 (proj2 (legacy_lock_on_keys Ref.PublicKey Ref.toDER Ref.hash160
                             Ref.fromBase58Check RefFacts.hash160_length
                             [Ref.key1; Ref.key2] 0))); [cbn; lia | reflexivity].
    + cbn [length Z.of_nat Z.to_nat repeat app In]. do 5 right. left. reflexivity.
Defined.

(** X27, on two signatures put into a script with the two key pushes. *)
Lemma legacy_insertSignature_reverses_witness :
  let c := unlock Ref.Wallet 7 instructions2 (Some (opChunk OP.OP_0 :: pushes2))
             None None None None in
  let r1 := legacy_insertSignature Ref.Wallet [9; 65] c in
  let r2 := legacy_insertSignature Ref.Wallet [8; 65] (snd r1) in
  (r1 = (Ok (returned r1), snd r1) /\ r2 = (Ok (returned r2), snd r2))
  /\ exists first second,
       binChunk [9; 65] = Ok first /\ binChunk [8; 65] = Ok second
       /\ returned r1 = opChunk OP.OP_0 :: first :: pushes2
       /\ returned r2 = opChunk OP.OP_0 :: second :: first :: pushes2.
Proof.
  intros c r1 r2.
  assert (H1 : r1 = (Ok (returned r1), snd r1)) by (vm_compute; reflexivity).
  assert (H2 : r2 = (Ok (returned r2), snd r2)) by (vm_compute; reflexivity).
  split; [split; assumption|].
  exact (legacy_insertSignature_reverses Ref.Wallet [9; 65] [8; 65] c (snd r1)
           (snd r2) pushes2 (returned r1) (returned r2) eq_refl H1 H2).
Defined.

(** X28, on the 2-of-3 script. *)
Lemma legacy_estimateLength_on_lock_witness :
  1 <= 3
  /\ legacy_estimateLength script3 = Ok (96 + 2 * 73)
  /\ decodeCommitment script3 = Ok (2, 3).
Proof.
  assert (H1 : 1 <= 3) by lia.
  split; [assumption|].
  exact (legacy_estimateLength_on_lock (ref_hash keys3) 2 3 H1).
Defined.
